(** * PageAuto: the page-object layer of [pageauto/page_object.py]

    A shallow embedding of [PageObject] (tree construction, element
    resolution with its short-lived cache, the single-element accessor) and of
    the [PageDecorator] wrappers around [click] and [send_keys], followed by
    the properties of the specification that concern them.

    Python objects live in a store addressed by references, because
    [pre_ele] and [frame] alias other nodes of the tree and [find] mutates
    the nodes it walks through.  Exceptions are an error result threaded
    through a state monad; the browser is a collaborator whose answers are
    supplied by a record of functions of the world observed so far. *)

From Stdlib Require Import String ZArith List Bool Lia.
From stdpp Require Import base list.
Import ListNotations.

Local Open Scope string_scope.
Local Open Scope list_scope.

(** ** Exceptions and results *)

(** The exception classes that the module raises or lets through.
    [InvalidReference] does not exist in Python: it is the answer of the
    store for an address that holds no object, which no run of the program
    produces. *)
Inductive exn : Type :=
  | ValueError
  | AttributeError
  | IndexError
  | RecursionError
  | NoSuchElementException
  | NoSuchFrameException
  | TimeoutException
  | StaleElementReferenceException
  | WebDriverException
  | TypeError
  | InvalidReference.

Definition exn_eqb (a b : exn) : bool :=
  match a, b with
  | ValueError, ValueError | AttributeError, AttributeError
  | IndexError, IndexError | RecursionError, RecursionError
  | NoSuchElementException, NoSuchElementException
  | NoSuchFrameException, NoSuchFrameException
  | TimeoutException, TimeoutException
  | StaleElementReferenceException, StaleElementReferenceException
  | WebDriverException, WebDriverException
  | TypeError, TypeError
  | InvalidReference, InvalidReference => true
  | _, _ => false
  end.

Definition exn_in (e : exn) (l : list exn) : bool := existsb (exn_eqb e) l.

Inductive res (A : Type) : Type :=
  | Ok (a : A)
  | Err (e : exn).
Arguments Ok {A} a.
Arguments Err {A} e.

(** ** A state-and-exception monad

    A raised exception keeps the state reached so far, as in Python. *)
Definition M (S A : Type) : Type := S -> res A * S.

Definition ret {S A} (a : A) : M S A := fun s => (Ok a, s).
Definition raise {S A} (e : exn) : M S A := fun s => (Err e, s).
Definition bind {S A B} (m : M S A) (k : A -> M S B) : M S B :=
  fun s => match m s with
           | (Ok a, s') => k a s'
           | (Err e, s') => (Err e, s')
           end.

Notation "x <- m ;; k" := (bind m (fun x => k))
  (at level 100, m at next level, right associativity).
Notation "m ;;; k" := (bind m (fun _ => k))
  (at level 100, right associativity).

(** ** Strings as dictionary keys *)

Fixpoint str_in (x : string) (l : list string) : bool :=
  match l with
  | [] => false
  | y :: l' => if String.eqb x y then true else str_in x l'
  end.

(** ** The configuration document

    One descriptor of the YAML document: [pattern] is required by the
    constructor, the other keys are optional; [ele_tree] maps child names to
    child descriptors, in the dictionary's iteration order.  Times are in
    milliseconds. *)
#[warnings="-register-all"]
Inductive page : Type :=
  mkPage {
    p_pattern : option string;
    p_by : option string;
    p_timeout : option Z;
    p_gap : option Z;
    p_ignore : option (list exn);
    p_is_frame : option bool;
    p_order : option Z;
    p_ele_tree : option (list (string * page))
  }.

(** ** Objects and the store *)

Abbreviation ref := nat.
Abbreviation WebElement := nat.
Inductive WebDriver : Type := Remote.

(** The attributes of a [PageObject].  [name = None] means that the
    attribute has not been assigned yet, which is the case between object
    creation and line 146 of [__init__]; [pattern = None] likewise, until
    line 159.  For the other attributes [None] is Python's [None]: the
    constructor assigns them to every object built from a non-empty
    dictionary, and the operations below are those of such objects. *)
Record PageObject : Type := mkPageObject {
  name : option string;
  pattern : option string;
  by_ : string;
  timeout : Z;
  gap : Z;
  ignore : list exn;
  is_frame : bool;
  order : Z;
  ele_tree : option (list (string * ref));
  pre_ele : option ref;
  frame : option ref;
  eles : option (list WebElement);
  last_found : Z;
  driver : option WebDriver
}.

Abbreviation heap := (list PageObject).

(** [PageObject.DEFAULT_ATTRIBUTE], merged into the instance dictionary by
    the first statement of [__init__]: the six defaults, and nothing yet
    for the other attributes. *)
Definition DEFAULT_ATTRIBUTE : PageObject :=
  {| name := None; pattern := None;
     by_ := "css selector"; timeout := 5000; gap := 1000;
     ignore := [NoSuchElementException]; is_frame := false; order := 0;
     ele_tree := None; pre_ele := None; frame := None;
     eles := None; last_found := 0; driver := None |}.

Definition set_identity (n : string) (pre fr : option ref) (o : PageObject) : PageObject :=
  {| name := Some n; pattern := pattern o; by_ := by_ o; timeout := timeout o;
     gap := gap o; ignore := ignore o; is_frame := is_frame o; order := order o;
     ele_tree := ele_tree o; pre_ele := pre; frame := fr;
     eles := eles o; last_found := last_found o; driver := driver o |}.

Definition set_ele_tree (t : list (string * ref)) (o : PageObject) : PageObject :=
  {| name := name o; pattern := pattern o; by_ := by_ o; timeout := timeout o;
     gap := gap o; ignore := ignore o; is_frame := is_frame o; order := order o;
     ele_tree := Some t; pre_ele := pre_ele o; frame := frame o;
     eles := eles o; last_found := last_found o; driver := driver o |}.

(** [self.__dict__ = dict(self.__dict__, **page)] followed by the reset of
    the resolution cache (lines 159-161); [ele_tree] was popped from [page]
    before, so the children built on line 157 stay. *)
Definition merge_page (pg : page) (o : PageObject) : PageObject :=
  {| name := name o;
     pattern := match p_pattern pg with Some p => Some p | None => pattern o end;
     by_ := default (by_ o) (p_by pg);
     timeout := default (timeout o) (p_timeout pg);
     gap := default (gap o) (p_gap pg);
     ignore := default (ignore o) (p_ignore pg);
     is_frame := default (is_frame o) (p_is_frame pg);
     order := default (order o) (p_order pg);
     ele_tree := ele_tree o; pre_ele := pre_ele o; frame := frame o;
     eles := None; last_found := 0; driver := driver o |}.

Definition set_eles (v : option (list WebElement)) (o : PageObject) : PageObject :=
  {| name := name o; pattern := pattern o; by_ := by_ o; timeout := timeout o;
     gap := gap o; ignore := ignore o; is_frame := is_frame o; order := order o;
     ele_tree := ele_tree o; pre_ele := pre_ele o; frame := frame o;
     eles := v; last_found := last_found o; driver := driver o |}.

Definition set_last_found (t : Z) (o : PageObject) : PageObject :=
  {| name := name o; pattern := pattern o; by_ := by_ o; timeout := timeout o;
     gap := gap o; ignore := ignore o; is_frame := is_frame o; order := order o;
     ele_tree := ele_tree o; pre_ele := pre_ele o; frame := frame o;
     eles := eles o; last_found := t; driver := driver o |}.

Definition set_driver_attr (d : option WebDriver) (o : PageObject) : PageObject :=
  {| name := name o; pattern := pattern o; by_ := by_ o; timeout := timeout o;
     gap := gap o; ignore := ignore o; is_frame := is_frame o; order := order o;
     ele_tree := ele_tree o; pre_ele := pre_ele o; frame := frame o;
     eles := eles o; last_found := last_found o; driver := d |}.

(** Store operations on the heap component of a state. *)
Definition alloc (o : PageObject) : M heap ref :=
  fun h => (Ok (length h), h ++ [o]).

Definition get (r : ref) : M heap PageObject :=
  fun h => match h !! r with
           | Some o => (Ok o, h)
           | None => (Err InvalidReference, h)
           end.

Definition modify (r : ref) (f : PageObject -> PageObject) : M heap unit :=
  fun h => match h !! r with
           | Some o => (Ok tt, <[r := f o]> h)
           | None => (Err InvalidReference, h)
           end.

(** ** Tree construction: [PageObject.__init__] *)

Inductive loop_signal : Type := Break | Continue.

(** [for name, page in page_dict.items(): body], where the body may end the
    loop with [break]. *)
Fixpoint for_items {S K V : Type} (items : list (K * V))
    (body : K -> V -> M S loop_signal) : M S unit :=
  match items with
  | [] => ret tt
  | (k, v) :: rest =>
      sig <- body k v ;;
      match sig with
      | Break => ret tt
      | Continue => for_items rest body
      end
  end.

Section Build.

(** The module-level tables are computed from classes of the driver
    library: [list(object.__dict__.keys())], [list(WebElement.__dict__.keys())]
    and the values of [By]. *)
Variable object_dict : list string.
Variable WebElement_dict : list string.
Variable BY_LIST : list string.

Definition _ELE_TREE : string := "ele_tree".

Definition _INVALID_ELE_NAME : list string :=
  object_dict ++ WebElement_dict ++ [_ELE_TREE].

(** The expression [self.name].  When the instance dictionary has no
    [name], [__getattribute__] fails and [__getattr__] runs: if [name] is
    an attribute of [WebElement] it delegates to [self.ele], whose [find]
    is refused by [require_driver], whose message evaluates [obj.name]
    again, and the recursion ends in [RecursionError]; otherwise the
    original [AttributeError] is raised again ([ele_tree] is consulted
    only if present, and [__init__] evaluates this expression before
    [ele_tree] or a driver is assigned). *)
Definition getattr_name (o : PageObject) : res string :=
  match name o with
  | Some n => Ok n
  | None =>
      if str_in "name" WebElement_dict then Err RecursionError
      else Err AttributeError
  end.

(** [raise ValueError('Page({name}) ...'.format(name=self.name))]: the
    message is formatted, hence [self.name] evaluated, before the
    exception is raised. *)
Definition raise_ValueError_naming {A} (self : ref) : M heap A :=
  o <- get self ;;
  match getattr_name o with
  | Ok _ => raise ValueError
  | Err e => raise e
  end.

Definition pattern_missing (pg : page) : bool :=
  match p_pattern pg with
  | Some _ => false
  | None => true
  end.

Definition by_rejected (pg : page) : bool :=
  match p_by pg with
  | Some b => negb (str_in b BY_LIST)
  | None => false
  end.

(** The loop over the children (lines 156-157): each
    [PageObject({ele: cfg}, pre_ele=self, frame=ele_frame)] is a new
    object, initialised by [init] from its single entry, and replaces the
    child's configuration in [ele_tree]. *)
Fixpoint init_children (init : string -> page -> ref -> M heap loop_signal)
    (l : list (string * page)) : M heap (list (string * ref)) :=
  match l with
  | [] => ret []
  | (ele, cfg) :: rest =>
      c <- alloc DEFAULT_ATTRIBUTE ;;
      init ele cfg c ;;;
      ks <- init_children init rest ;;
      ret ((ele, c) :: ks)
  end.

(** The body of the loop of [__init__] for the entry [name0: pg] of
    [page_dict] (lines 138-162), on the object [self] already holding the
    defaults ([PageObject_init_single] below checks that a child is what
    the constructor builds from a one-entry dictionary).  [ele_tree] is
    written once all the children are built; while they are being built
    the attribute holds their configurations, which nothing reads. *)
Fixpoint init_entry (name0 : string) (pg : page) (self : ref)
    (pre fr : option ref) {struct pg} : M heap loop_signal :=
  if str_in name0 _INVALID_ELE_NAME then raise ValueError
  else if pattern_missing pg then raise_ValueError_naming self
  else if by_rejected pg then raise_ValueError_naming self
  else
    modify self (set_identity name0 pre fr) ;;;
    match p_ele_tree pg with
    | Some tree =>
        let ele_frame := if default false (p_is_frame pg) then Some self else fr in
        kids <- init_children
                  (fun ele cfg c => init_entry ele cfg c (Some self) ele_frame) tree ;;
        modify self (set_ele_tree kids)
    | None => ret tt
    end ;;;
    modify self (merge_page pg) ;;;
    ret Break.

(** [PageObject(page_dict, pre_ele, frame)]. *)
Definition PageObject_init (page_dict : list (string * page))
    (pre fr : option ref) : M heap ref :=
  self <- alloc DEFAULT_ATTRIBUTE ;;
  for_items page_dict (fun name0 pg => init_entry name0 pg self pre fr) ;;;
  ret self.

(** A descriptor that fails one of the two checks of lines 140-144, or
    has such a descriptor somewhere in its [ele_tree]. *)
Fixpoint flawed (pg : page) : bool :=
  pattern_missing pg || by_rejected pg ||
  match p_ele_tree pg with
  | Some l => existsb (fun np : string * page => flawed (snd np)) l
  | None => false
  end.

End Build.

(** ** The browser session

    The world is what the remote session has been through: the clock, the
    browsing context the session is switched to, and the calls received so
    far (newest first).  [time.time()] reads the clock; the clock moves when
    the program sleeps and when the environment lets time pass between two
    calls of the program: the calls to the browser take no time on it, and
    two readings with no sleep in between see the same instant. *)

Inductive browsing_context : Type :=
  | Top
  | InFrame (e : WebElement).

(** The receiver of [find_elements]: the session ([WebDriver]) or an
    element ([WebElement]); this is [temp_pre_ele] in [find]. *)
Inductive scope : Type :=
  | ScopeDriver
  | ScopeElement (e : WebElement).

(** What [find] and the attribute [ele] hand back: [None], one element,
    the list of matches, or an object of the tree (the child named [ele],
    which [__getattr__] returns when the getter of [ele] fails, see
    [ele_via] below). *)
Inductive pyval : Type :=
  | PNone
  | PElement (e : WebElement)
  | PElements (l : list WebElement)
  | PObject (c : ref).

Definition is_None (v : pyval) : bool :=
  match v with
  | PNone => true
  | _ => false
  end.

(** The calls that the session receives.  A script is called with what
    [obj.ele] evaluates to, whatever it is. *)
Inductive event : Type :=
  | EFindElements (sc : scope) (by0 pat : string)
  | ESwitchToFrame (e : WebElement)
  | ESwitchToDefaultContent
  | EGetAttribute (e : WebElement) (attr : string)
  | EExecuteScript (script : string) (arg : pyval)
  | ESaveScreenshot (file : string)
  | EClick (e : WebElement)
  | ESendKeys (e : WebElement) (keys : list string).

Record world : Type := mkWorld {
  now : Z;
  current : browsing_context;
  log : list event
}.

(** The answers of the remote session, as functions of the world in which
    the call is made.  [None] in an [option exn] is a normal return. *)
Record Browser : Type := mkBrowser {
  find_elements : world -> scope -> string -> string -> res (list WebElement);
  switch_to_frame : world -> WebElement -> option exn;
  get_attribute : world -> WebElement -> string -> res string;
  execute_script : world -> string -> pyval -> option exn;
  save_screenshot : world -> string -> option exn;
  element_click : world -> WebElement -> option exn;
  element_send_keys : world -> WebElement -> list string -> option exn;
  strftime : Z -> string
}.

Definition record_event (ev : event) (w : world) : world :=
  {| now := now w; current := current w; log := ev :: log w |}.

Definition set_current (c : browsing_context) (w : world) : world :=
  {| now := now w; current := c; log := log w |}.

Definition elapse (d : Z) (w : world) : world :=
  {| now := now w + d; current := current w; log := log w |}.

Definition answer {A} (r : option exn) (a : A) (w : world) : res A * world :=
  match r with
  | None => (Ok a, w)
  | Some e => (Err e, w)
  end.

Section Session.

Variable B : Browser.

Definition query (sc : scope) (by0 pat : string) : M world (list WebElement) :=
  fun w => (find_elements B w sc by0 pat, record_event (EFindElements sc by0 pat) w).

(** [time.sleep(d)], which refuses a negative length. *)
Definition sleep (d : Z) : M world unit :=
  fun w => if (d <? 0)%Z then (Err ValueError, w) else (Ok tt, elapse d w).

Definition do_switch_to_frame (e : WebElement) : M world unit :=
  fun w => match switch_to_frame B w e with
           | None => (Ok tt, set_current (InFrame e) (record_event (ESwitchToFrame e) w))
           | Some x => (Err x, record_event (ESwitchToFrame e) w)
           end.

(** [switch_to.default_content()], which is taken to succeed. *)
Definition do_switch_to_default_content : M world unit :=
  fun w => (Ok tt, set_current Top (record_event ESwitchToDefaultContent w)).

Definition do_get_attribute (e : WebElement) (attr : string) : M world string :=
  fun w => (get_attribute B w e attr, record_event (EGetAttribute e attr) w).

Definition do_execute_script (script : string) (a : pyval) : M world unit :=
  fun w => answer (execute_script B w script a) tt (record_event (EExecuteScript script a) w).

Definition do_save_screenshot (file : string) : M world unit :=
  fun w => answer (save_screenshot B w file) tt (record_event (ESaveScreenshot file) w).

Definition do_click (e : WebElement) : M world unit :=
  fun w => answer (element_click B w e) tt (record_event (EClick e) w).

Definition do_send_keys (e : WebElement) (keys : list string) : M world unit :=
  fun w => answer (element_send_keys B w e keys) tt (record_event (ESendKeys e keys) w).

(** *** The polling wait *)

Definition POLL_FREQUENCY : Z := 500.
Definition IGNORED_EXCEPTIONS : list exn := [NoSuchElementException].

(** One round of the wait after a failed attempt: sleep, then give up if
    the deadline has passed. *)
Definition after_attempt (end_time poll : Z)
    (again : M world (list WebElement)) : M world (list WebElement) :=
  sleep poll ;;;
  fun w => if (end_time <? now w)%Z then (Err TimeoutException, w) else again w.

(** The loop of the wait: query, return a non-empty answer, otherwise (an
    empty answer, or an ignored failure) sleep and start again unless the
    deadline has passed.  [polls] bounds the number of attempts. *)
Fixpoint until_loop (polls : nat) (end_time poll : Z) (ignored : list exn)
    (sc : scope) (by0 pat : string) : M world (list WebElement) :=
  match polls with
  | O => raise TimeoutException
  | S k =>
      fun w =>
        let again := until_loop k end_time poll ignored sc by0 pat in
        match query sc by0 pat w with
        | (Ok (x :: l), w1) => (Ok (x :: l), w1)
        | (Ok [], w1) => after_attempt end_time poll again w1
        | (Err e, w1) =>
            if exn_in e ignored then after_attempt end_time poll again w1
            else (Err e, w1)
        end
  end.

(** The number of attempts after which the deadline has passed, when each
    round sleeps [poll > 0]; [until_loop_enough_polls] below shows that
    allowing more attempts changes nothing. *)
Definition poll_bound (timeout0 poll : Z) : nat := S (Z.to_nat (timeout0 / poll)).

(** Modelled from the spec: [WebDriverWait(scope, timeout, poll,
    ignored).until(query)] of the driver library, which is not part of
    this repository.  It queries repeatedly, sleeping the poll interval
    between attempts, until a non-empty result is obtained or the timeout
    elapses; failures of an ignored kind are swallowed and retried, any
    other failure propagates at once; on timeout it raises
    [TimeoutException].  As in the library, a poll interval of zero is
    replaced by half a second and "element not found" is always ignored.
    Failure kinds are compared by identity: the subclass relation between
    exception classes is not modelled. *)
Definition until (sc : scope) (timeout0 poll : Z) (ignored : list exn)
    (by0 pat : string) : M world (list WebElement) :=
  fun w =>
    let poll' := if (poll =? 0)%Z then POLL_FREQUENCY else poll in
    until_loop (poll_bound timeout0 poll') (now w + timeout0)%Z poll'
               (IGNORED_EXCEPTIONS ++ ignored) sc by0 pat w.

End Session.

(** ** Resolution: [find], [ele], [count] *)

Record state : Type := mkState {
  objects : heap;
  session : world
}.

Definition on_heap {A} (m : M heap A) : M state A :=
  fun s => let (r, h) := m (objects s) in (r, {| objects := h; session := session s |}).

Definition on_session {A} (m : M world A) : M state A :=
  fun s => let (r, w) := m (session s) in (r, {| objects := objects s; session := w |}).

Definition time_time : M state Z := fun s => (Ok (now (session s)), s).

(** [try: body except exc: handler]. *)
Definition try_except {S A} (body : M S A) (exc : exn) (handler : M S A) : M S A :=
  fun s => match body s with
           | (Err e, s') => if exn_eqb e exc then handler s' else (Err e, s')
           | r => r
           end.

(** [l[i]] on a Python list: a negative index counts from the end, an index
    outside [-len, len) raises [IndexError]. *)
Definition list_getitem {A} (l : list A) (i : Z) : res A :=
  let n := Z.of_nat (length l) in
  let j := if (i <? 0)%Z then (i + n)%Z else i in
  if ((0 <=? j) && (j <? n))%Z
  then match l !! Z.to_nat j with
       | Some x => Ok x
       | None => Err IndexError
       end
  else Err IndexError.

(** [eles[i]] where [eles] may be [None]. *)
Definition getitem (v : option (list WebElement)) (i : Z) : res WebElement :=
  match v with
  | Some l => list_getitem l i
  | None => Err TypeError
  end.

Definition lift_res {S A} (r : res A) : M S A := fun s => (r, s).

(** The property [count]. *)
Definition count (o : PageObject) : Z :=
  match eles o with
  | Some l => Z.of_nat (length l)
  | None => 0%Z
  end.

(** The second half of [ele] (lines 186-189), once [find] has returned
    something: [self.eles[self.order]] if [self.order < self.count], else
    [None]. *)
Definition pick (o : PageObject) : res pyval :=
  if (order o <? count o)%Z
  then match getitem (eles o) (order o) with
       | Ok e => Ok (PElement e)
       | Err x => Err x
       end
  else Ok PNone.

(** [d[k]] on a dictionary given by its items: the value of the first item
    with key [k]. *)
Fixpoint assoc {V : Type} (k : string) (l : list (string * V)) : option V :=
  match l with
  | [] => None
  | (k', v) :: rest => if String.eqb k k' then Some v else assoc k rest
  end.

(** [self.__dict__[_ELE_TREE][item]] (line 172), when [_ELE_TREE] is in
    [self.__dict__] and [item] in the dictionary (line 171). *)
Definition child_named (h : heap) (self : ref) (item : string) : option ref :=
  match h !! self with
  | Some o =>
      match ele_tree o with
      | Some t => assoc item t
      | None => None
      end
  | None => None
  end.

(** [PageDecorator.require_driver]. *)
Definition require_driver {A} (func : ref -> M state A) (obj : ref) : M state A :=
  o <- on_heap (get obj) ;;
  match driver o with
  | Some _ => func obj
  | None => raise AttributeError
  end.

Section Resolver.

Variable B : Browser.

(** The getter of the property [ele] (lines 186-189), over the [find] it
    calls. *)
Definition ele_getter (findf : ref -> string -> M state pyval) (self : ref)
    : M state pyval :=
  v <- findf self "ele" ;;
  if is_None v then ret PNone
  else
    o <- on_heap (get self) ;;
    lift_res (pick o).

(** The fallback of [__getattr__] (lines 169-174) for the name [ele],
    which is not a name of [WebElement.__dict__]: the child of that name
    if [ele_tree] has one, otherwise the [AttributeError] is raised
    again. *)
Definition ele_fallback (self : ref) : M state pyval :=
  fun st => match child_named (objects st) self "ele" with
            | Some c => (Ok (PObject c), st)
            | None => (Err AttributeError, st)
            end.

(** The attribute access [x.ele].  [ele] is a property of a class that
    defines [__getattr__]: when the getter raises [AttributeError], Python
    calls [__getattr__(x, 'ele')], whose [try] (line 166) runs the getter
    a second time; what the second run returns or raises is the outcome,
    unless it raises [AttributeError] again, which the [except] clause
    turns into the fallback. *)
Definition ele_via (findf : ref -> string -> M state pyval) (self : ref) : M state pyval :=
  try_except (ele_getter findf self) AttributeError
    (try_except (ele_getter findf self) AttributeError (ele_fallback self)).

(** The search scope of [find] (lines 221-230): the session for a root
    or below a frame, otherwise the parent's element, found first.  Line
    230 takes [find_elements] from the type of the scope, which raises
    [AttributeError] when [self.pre_ele.ele] is [None] or an object of the
    tree: neither [NoneType] nor [PageObject] has it. *)
Definition search_scope (findf : ref -> string -> M state pyval) (o : PageObject)
    : M state scope :=
  match pre_ele o with
  | None => ret ScopeDriver
  | Some p =>
      po <- on_heap (get p) ;;
      if is_frame po then ret ScopeDriver
      else
        v <- findf p "" ;;
        if is_None v then raise NoSuchElementException
        else
          t <- ele_via findf p ;;
          match t with
          | PElement x => ret (ScopeElement x)
          | _ => raise AttributeError
          end
  end.

(** The wait of [find] and what follows it (lines 231-244).  An object
    without [pattern] never went through the loop of [__init__].  The
    attributes [timeout], [gap], [ignore], [by] and [pattern] are taken
    from [o], the object as read on entry: [find] writes [eles] and
    [last_found] only. *)
Definition wait_and_store (self : ref) (o : PageObject) (sc : scope) : M state pyval :=
  match pattern o with
  | None => raise AttributeError
  | Some pat =>
      try_except
        (l <- on_session (until B sc (timeout o) (gap o) (ignore o) (by_ o) pat) ;;
         on_heap (modify self (set_eles (Some l))) ;;;
         t <- time_time ;;
         on_heap (modify self (set_last_found t)) ;;;
         ret (PElements l))
        TimeoutException
        (ret PNone)
  end.

(** [self.eles = None] (line 216). *)
Definition drop_cache (self : ref) : M state unit :=
  on_heap (modify self (set_eles None)).

(** The body of [PageObject.find(src)] (lines 209-244), over the [find] it
    calls on itself (through [ele]) and on the parent. *)
Definition find_body (findf : ref -> string -> M state pyval) (self : ref) (src : string)
    : M state pyval :=
  o <- on_heap (get self) ;;
  t <- time_time ;;
  let refresh :=
    drop_cache self ;;;
    sc <- search_scope findf o ;;
    wait_and_store self o sc in
  match eles o with
  | Some l =>
      if (t - last_found o <? gap o)%Z
      then if String.eqb src "ele" then ret (PElements l) else ele_via findf self
      else refresh
  | None => refresh
  end.

(** [PageObject.find], decorated with [require_driver].  [depth] is what
    is left of the interpreter's recursion limit: [find] calls itself
    through [ele] and through the parent, and Python raises
    [RecursionError] when the limit is hit. *)
Fixpoint find (depth : nat) (self : ref) (src : string) {struct depth} : M state pyval :=
  match depth with
  | O => raise RecursionError
  | S d => require_driver (fun obj => find_body (find d) obj src) self
  end.

(** The attribute [ele] of an object: what [obj.ele] evaluates to. *)
Definition ele (depth : nat) (self : ref) : M state pyval := ele_via (find depth) self.

(** ** The decorated actions *)

(** The first half of [PageDecorator.switch_frame]'s wrapper (lines
    44-51); the result is [mark]. *)
Definition enter_frame (depth : nat) (obj : ref) : M state bool :=
  o <- on_heap (get obj) ;;
  match frame o with
  | Some f =>
      v <- find depth f "" ;;
      if is_None v then raise NoSuchFrameException
      else
        fo <- on_heap (get f) ;;
        e <- lift_res (getitem (eles fo) 0) ;;
        on_session (do_switch_to_frame B e) ;;;
        ret true
  | None => ret false
  end.

(** [PageDecorator.switch_frame]. *)
Definition switch_frame {A} (depth : nat) (func : ref -> M state A) (obj : ref) : M state A :=
  mark <- enter_frame depth obj ;;
  r <- func obj ;;
  (if mark : bool then on_session do_switch_to_default_content else ret tt) ;;;
  ret r.

(** [c.method(...)] on an object [c] of the tree, for a method of
    [WebElement] that [PageObject] does not define ([get_attribute]): the
    normal lookup of the name fails, and [__getattr__] finds it in
    [WebElement.__dict__] and takes it from [c.ele] (line 170).  Each
    level is a call, of which [depth] are left. *)
Fixpoint delegated {A} (depth : nat) (c : ref) (method : WebElement -> M world A)
    {struct depth} : M state A :=
  match depth with
  | O => raise RecursionError
  | S d =>
      v <- ele d c ;;
      match v with
      | PElement e => on_session (method e)
      | PObject c' => delegated d c' method
      | _ => raise AttributeError
      end
  end.

(** [obj.ele.method(...)] for such a method: the attribute [ele], then
    the method of the element found, [AttributeError] on [None], and the
    delegation above when [obj.ele] is the child named [ele]. *)
Definition on_ele {A} (depth : nat) (obj : ref) (method : WebElement -> M world A) : M state A :=
  v <- ele depth obj ;;
  match v with
  | PElement e => on_session (method e)
  | PObject c => delegated depth c method
  | _ => raise AttributeError
  end.

(** [PageDecorator.highlight]. *)
Definition highlight {A} (depth : nat) (func : ref -> M state A) (obj : ref) : M state A :=
  origin_style <- on_ele depth obj (fun e => do_get_attribute B e "style") ;;
  a <- ele depth obj ;;
  on_session (do_execute_script B "arguments[0].style.border='2px solid red'" a) ;;;
  r <- func obj ;;
  try_except
    (a' <- ele depth obj ;;
     on_session (do_execute_script B
       ("arguments[0].style.border='" ++ origin_style ++ "'")%string a'))
    NoSuchElementException
    (ret tt) ;;;
  ret r.

Definition screenshot_file (t : Z) (n phase f : string) : string :=
  (strftime B t ++ "_" ++ n ++ "_" ++ phase ++ "_" ++ f ++ ".png")%string.

Definition take_screenshot (obj : ref) (phase f : string) : M state unit :=
  t <- time_time ;;
  o <- on_heap (get obj) ;;
  match name o with
  | Some n => on_session (do_save_screenshot B (screenshot_file t n phase f))
  | None => raise AttributeError
  end.

(** [PageDecorator.screenshot]; [f] is [func.__name__]. *)
Definition screenshot {A} (f : string) (func : ref -> M state A) (obj : ref) : M state A :=
  take_screenshot obj "before" f ;;;
  r <- func obj ;;
  take_screenshot obj "after" f ;;;
  ret r.

(** [return self.ele.method(...)] for [click] and [send_keys], which
    [PageObject] defines itself: on an element, the method of
    [WebElement], which returns [None]; on [None], [AttributeError]; on
    the child named [ele], the method [on_child] of [PageObject], called
    on the child. *)
Definition act_on_ele (depth : nat) (method : WebElement -> M world unit)
    (on_child : ref -> M state pyval) (self : ref) : M state pyval :=
  v <- ele depth self ;;
  match v with
  | PElement e => on_session (method e) ;;; ret PNone
  | PObject c => on_child c
  | _ => raise AttributeError
  end.

(** The four decorators of [click] and [send_keys], applied from the
    innermost out; [f] is the name of the method. *)
Definition decorated (depth : nat) (f : string) (body : ref -> M state pyval)
    : ref -> M state pyval :=
  require_driver (switch_frame depth (highlight depth (screenshot f body))).

(** [PageObject.click] and [PageObject.send_keys] as [self.ele] calls
    them on the child named [ele]: each level is a call, of which [depth]
    are left. *)
Fixpoint click_child (depth : nat) (c : ref) {struct depth} : M state pyval :=
  match depth with
  | O => raise RecursionError
  | S d => decorated d "click" (act_on_ele d (do_click B) (click_child d)) c
  end.

Fixpoint send_keys_child (depth : nat) (value : list string) (c : ref) {struct depth}
    : M state pyval :=
  match depth with
  | O => raise RecursionError
  | S d =>
      decorated d "send_keys"
        (act_on_ele d (fun e => do_send_keys B e value) (send_keys_child d value)) c
  end.

(** [PageObject.click] and [PageObject.send_keys]. *)
Definition click (depth : nat) : ref -> M state pyval :=
  decorated depth "click" (act_on_ele depth (do_click B) (click_child depth)).

Definition send_keys (depth : nat) (value : list string) : ref -> M state pyval :=
  decorated depth "send_keys"
    (act_on_ele depth (fun e => do_send_keys B e value) (send_keys_child depth value)).

End Resolver.

(** [PageObject.set_driver]: attach the session to a node and to its
    descendants. *)
Fixpoint set_driver (depth : nat) (self : ref) (d : option WebDriver) : M heap unit :=
  match depth with
  | O => raise RecursionError
  | S k =>
      modify self (set_driver_attr d) ;;;
      o <- get self ;;
      match ele_tree o with
      | Some t =>
          (fix each (l : list (string * ref)) : M heap unit :=
             match l with
             | [] => ret tt
             | (_, c) :: rest => set_driver k c d ;;; each rest
             end) t
      | None => ret tt
      end
  end.

(** ** Shape of a built tree *)

(** [a] is reached from [r] by following [pre_ele] links, zero or more
    times. *)
Inductive ancestor_or_self (h : heap) : ref -> ref -> Prop :=
  | aos_self (r : ref) : ancestor_or_self h r r
  | aos_parent (r p a : ref) (o : PageObject) :
      h !! r = Some o -> pre_ele o = Some p ->
      ancestor_or_self h p a -> ancestor_or_self h r a.

(** The frame of a child is its parent when the parent is frame-marked,
    and the parent's own frame otherwise. *)
Definition frame_inherited (h : heap) (o : PageObject) : Prop :=
  match pre_ele o with
  | None => True
  | Some p =>
      exists po, h !! p = Some po /\
                 frame o = if is_frame po then Some p else frame po
  end.

(** The rule that the objects built below a node obey: the parent [p] of
    object [i] was built before it, not before [lo], and the frame of [i]
    follows from the parent's frame mark and frame. *)
Definition final_rule (h : heap) (lo : nat) (i : ref) (o : PageObject) : Prop :=
  exists p po, pre_ele o = Some p /\ lo <= p /\ p < i /\ h !! p = Some po /\
               frame o = if is_frame po then Some p else frame po.

(** What the loop body for one entry leaves in the store [h1], having
    started on the object [c] of the store [hb]. *)
Definition entry_post (hb h1 : heap) (c : ref) (pre fr : option ref) : Prop :=
  length hb <= length h1 /\
  (forall i, i < length hb -> i <> c -> h1 !! i = hb !! i) /\
  (exists o', h1 !! c = Some o' /\ pre_ele o' = pre /\ frame o' = fr) /\
  (forall i o, length hb <= i -> h1 !! i = Some o -> final_rule h1 c i o).

(** What the loop over the children of [self] leaves in the store. *)
Definition children_post (h h' : heap) (self : ref) (ef : option ref) : Prop :=
  length h <= length h' /\
  (forall i, i < length h -> h' !! i = h !! i) /\
  (forall i o, length h <= i -> h' !! i = Some o ->
     (pre_ele o = Some self /\ frame o = ef) \/ final_rule h' (length h) i o).

(** ** Sample tables and documents

    The tables of the driver library, for the closed examples: the values
    of [By], and the attribute names of [object] and of [WebElement] that
    matter here ([name] and [ele] are not among them). *)
Definition sample_BY_LIST : list string :=
  ["id"; "xpath"; "link text"; "partial link text"; "name"; "tag name";
   "class name"; "css selector"].

Definition sample_object_dict : list string :=
  ["__repr__"; "__hash__"; "__str__"; "__getattribute__"; "__setattr__";
   "__delattr__"; "__eq__"; "__ne__"; "__init__"; "__new__"; "__class__";
   "__doc__"].

Definition sample_WebElement_dict : list string :=
  ["__module__"; "__doc__"; "__init__"; "__repr__"; "tag_name"; "text";
   "click"; "submit"; "clear"; "get_property"; "get_attribute";
   "is_selected"; "is_enabled"; "send_keys"; "is_displayed"; "size";
   "value_of_css_property"; "location"; "rect"; "screenshot"; "parent";
   "id"; "__eq__"; "__ne__"; "_execute"; "find_element"; "find_elements";
   "__hash__"; "_upload"].

Definition sample_init : list (string * page) -> option ref -> option ref -> M heap ref :=
  PageObject_init sample_object_dict sample_WebElement_dict sample_BY_LIST.

(** A descriptor with only the keys given. *)
Definition leaf (pat : option string) (by0 : option string) : page :=
  mkPage pat by0 None None None None None None.

(** [{login: {by: id}}]: the entry has no [pattern]. *)
Definition doc_without_pattern : list (string * page) :=
  [("login", leaf None (Some "id"))].

(** [{login: {pattern: "#login", by: bogus-strategy}}]. *)
Definition doc_bogus_by : list (string * page) :=
  [("login", leaf (Some "#login") (Some "bogus-strategy"))].

(** A page that is a frame, holding a plain child with a grandchild and a
    second child that is a frame itself, with a grandchild. *)
Definition doc_frames : list (string * page) :=
  [("page", mkPage (Some "#outer") None None None None (Some true) None
      (Some [("form", mkPage (Some "form") None None None None None None
                 (Some [("user", leaf (Some "#user") (Some "id"))]));
             ("inner", mkPage (Some "iframe") None None None None (Some true) None
                 (Some [("ok", leaf (Some "#ok") None)]))]))].

Definition frames_heap : heap :=
  Eval vm_compute in snd (sample_init doc_frames None None []).

Definition frames_gk : PageObject :=
  Eval vm_compute in default DEFAULT_ATTRIBUTE (frames_heap !! 2).

(** ** Sample sessions *)

(** A session in which everything but the lookups and the click goes
    well. *)
Definition sample_browser
    (lookup0 : world -> scope -> string -> string -> res (list WebElement))
    (click0 : option exn) : Browser :=
  {| find_elements := lookup0;
     switch_to_frame := fun _ _ => None;
     get_attribute := fun _ _ _ => Ok "";
     execute_script := fun _ _ _ => None;
     save_screenshot := fun _ _ => None;
     element_click := fun _ _ => click0;
     element_send_keys := fun _ _ _ => None;
     strftime := fun _ => "20240101120000000000" |}.

(** The tree of a document with the session attached, at time zero. *)
Definition ready (doc : list (string * page)) : state :=
  {| objects :=
       match sample_init doc None None [] with
       | (Ok root, h) => snd (set_driver 8 root (Some Remote) h)
       | (Err _, h) => h
       end;
     session := {| now := 0; current := Top; log := [] |} |}.

(** The environment lets [d] milliseconds pass. *)
Definition later (d : Z) (st : state) : state :=
  {| objects := objects st; session := elapse d (session st) |}.

(** A frame [page] holding a button [ok]; the frame and the button are
    there, but the click is refused. *)
Definition doc_framed_button : list (string * page) :=
  [("page", mkPage (Some "#outer") None None None None (Some true) None
      (Some [("ok", leaf (Some "#ok") None)]))].

Definition browser_click_refused : Browser :=
  sample_browser
    (fun _ _ _ pat => if String.eqb pat "#outer" then Ok [1] else Ok [2])
    (Some WebDriverException).

(** A list with two items. *)
Definition doc_items : list (string * page) := [("item", leaf (Some "li") None)].

Definition browser_two_items : Browser :=
  sample_browser (fun _ _ _ _ => Ok [10; 11]) None.

(** A page that never shows the element looked for. *)
Definition browser_nothing : Browser :=
  sample_browser (fun _ _ _ _ => Ok []) None.

(** [{row: {pattern: tr, order: 1, gap: 3, ele_tree: {cell: {pattern: td}}}}]:
    the second row and its first cell; the page has two rows during the
    first four seconds and one row afterwards. *)
Definition doc_row_cell : list (string * page) :=
  [("row", mkPage (Some "tr") None None (Some 3000%Z) None None (Some 1%Z)
      (Some [("cell", leaf (Some "td") None)]))].

Definition browser_rows_shrink : Browser :=
  sample_browser
    (fun w _ _ pat =>
       if String.eqb pat "tr"
       then if (now w <? 4000)%Z then Ok [10; 11] else Ok [10]
       else Ok [20])
    None.

(** The cell is resolved at time 0; five seconds later the row is resolved
    again and only one row is left; one more second later the cell's cache
    has expired while the row's cache is still valid. *)
Definition rows_after_cell : state := snd (find browser_rows_shrink 8 1 "" (ready doc_row_cell)).
Definition rows_after_row : state :=
  snd (find browser_rows_shrink 8 0 "" (later 5000 rows_after_cell)).
Definition rows_before_cell_again : state := later 1000 rows_after_row.

(** A descriptor with a given [order], on a page with one match. *)
Definition doc_order (n : Z) : list (string * page) :=
  [("item", mkPage (Some "li") None None None None None (Some n) None)].

Definition browser_one_item : Browser :=
  sample_browser (fun _ _ _ _ => Ok [10]) None.

(** The object at an address of a sample state. *)
Definition obj_at (st : state) (r : ref) : PageObject :=
  default DEFAULT_ATTRIBUTE (objects st !! r).

(** The same frame and button, with a click that goes through. *)
Definition browser_click_accepted : Browser :=
  sample_browser
    (fun _ _ _ pat => if String.eqb pat "#outer" then Ok [1] else Ok [2])
    None.

(** The two items, just resolved. *)
Definition items_resolved : state :=
  snd (find browser_two_items 8 0 "" (ready doc_items)).

(** ** What resolution leaves untouched *)

(** An object without its resolution cache ([eles] and [last_found]). *)
Definition forget_cache (o : PageObject) : PageObject :=
  set_last_found 0 (set_eles None o).

(** Two stores hold the same objects, up to the resolution caches. *)
Definition same_tree (h h' : heap) : Prop :=
  map forget_cache h' = map forget_cache h.

(** A computation that changes nothing in the store but resolution
    caches, whatever its outcome. *)
Definition keeps_tree {A} (m : M state A) : Prop :=
  forall st r st', m st = (r, st') -> same_tree (objects st) (objects st').

(** The state in which [find] looks for the parent: [eles] of [self],
    which held [o], has been reset (line 216). *)
Definition cache_dropped (self : ref) (o : PageObject) (st : state) : state :=
  {| objects := <[self := set_eles None o]> (objects st); session := session st |}.

(** ** The calls made by an action *)


(** The state [st] after the session has received the calls [evs] (newest
    first), none of which changed the clock or the context. *)
Definition logged (st : state) (evs : list event) : state :=
  {| objects := objects st;
     session := {| now := now (session st); current := current (session st);
                   log := evs ++ log (session st) |} |}.

Definition red_border : string := "arguments[0].style.border='2px solid red'".
Definition restore_border (style : string) : string :=
  ("arguments[0].style.border='" ++ style ++ "'")%string.

(** The calls of a decorated action [f] on the element [e] of the
    descriptor named [n], newest first. *)
Definition action_calls (B : Browser) (t : Z) (n f style : string) (e : WebElement)
    (act : event) : list event :=
  [EExecuteScript (restore_border style) (PElement e);
   ESaveScreenshot (screenshot_file B t n "after" f);
   act;
   ESaveScreenshot (screenshot_file B t n "before" f);
   EExecuteScript red_border (PElement e);
   EGetAttribute e "style"].

(** ** The store that the constructor builds, computed directly *)

(** The objects of the children of a node, in the order of the document:
    [lay] gives the objects of one child placed at an address, and the
    children are placed one after the other from [next] on. *)
Fixpoint layout_children (lay : string -> page -> nat -> list PageObject)
    (l : list (string * page)) (next : nat) : list (string * ref) * list PageObject :=
  match l with
  | [] => ([], [])
  | (ele, cfg) :: rest =>
      let objs := lay ele cfg next in
      let (ks, more) := layout_children lay rest (next + length objs) in
      ((ele, next) :: ks, objs ++ more)
  end.

(** The objects of the entry [name0: pg] placed at address [self]: the
    object of the entry, followed by the objects of its descendants. *)
Fixpoint layout (name0 : string) (pg : page) (pre fr : option ref) (self : nat)
    {struct pg} : list PageObject :=
  let ele_frame := if default false (p_is_frame pg) then Some self else fr in
  let base := set_identity name0 pre fr DEFAULT_ATTRIBUTE in
  match p_ele_tree pg with
  | Some tree =>
      let (kids, below) :=
        layout_children (fun ele cfg c => layout ele cfg (Some self) ele_frame c)
                        tree (S self) in
      merge_page pg (set_ele_tree kids base) :: below
  | None => [merge_page pg base]
  end.

Section Acceptance.

Variable object_dict : list string.
Variable WebElement_dict : list string.
Variable BY_LIST : list string.

(** The three checks of lines 138-144 pass on the entry and on every entry
    below it. *)
Fixpoint accepted (name0 : string) (pg : page) : bool :=
  negb (str_in name0 (_INVALID_ELE_NAME object_dict WebElement_dict)) &&
  negb (pattern_missing pg) && negb (by_rejected BY_LIST pg) &&
  match p_ele_tree pg with
  | Some l => forallb (fun np : string * page => accepted (fst np) (snd np)) l
  | None => true
  end.

End Acceptance.

(** ** Children by name *)

(** The descriptor reached from the entry [name0: pg] by a path of child
    names, with its name. *)
Fixpoint descend (name0 : string) (pg : page) (path : list string) : option (string * page) :=
  match path with
  | [] => Some (name0, pg)
  | child :: rest =>
      match p_ele_tree pg with
      | Some t =>
          match assoc child t with
          | Some cfg => descend child cfg rest
          | None => None
          end
      | None => None
      end
  end.

(** The object reached from [self] by a path of child names, as in
    [page.header.search]. *)
Fixpoint node_at (h : heap) (self : ref) (path : list string) : option ref :=
  match path with
  | [] => Some self
  | child :: rest =>
      match child_named h self child with
      | Some c => node_at h c rest
      | None => None
      end
  end.

(** The attributes that come from the descriptor are the same. *)
Definition same_settings (o o' : PageObject) : Prop :=
  pattern o = pattern o' /\ by_ o = by_ o' /\ timeout o = timeout o' /\
  gap o = gap o' /\ ignore o = ignore o' /\ is_frame o = is_frame o' /\
  order o = order o'.

(** The objects [objs] are in the store from address [self] on. *)
Definition placed (H : heap) (self : nat) (objs : list PageObject) : Prop :=
  forall i o, objs !! i = Some o -> H !! (self + i) = Some o.

(** ** Attribute access: [PageObject.__getattr__] *)

(** What the handler of [__getattr__] returns: a child of the node, or the
    attribute [item] of the element of the node. *)
Inductive attribute : Type :=
  | AChild (c : ref)
  | ADelegated (e : WebElement) (item : string).

(** The handler of [__getattr__] (lines 168-174), which runs when the
    normal lookup of [item] on the object and its class has failed: a name
    of [WebElement.__dict__] is looked up on [self.ele], a key of
    [ele_tree] gives the child, anything else raises the original
    [AttributeError].  [getattr(None, item)] raises [AttributeError]: the
    attributes of [None] are those of [object], on which the normal lookup
    would not have failed.  When [self.ele] is the child named [ele], the
    name is looked up on the child, where the normal lookup fails as it
    did on the object (the objects of a tree hold the same attributes, but
    for [ele_tree], which the object holds, and [driver], which is not a
    name of [WebElement.__dict__]), so that the handler runs on the
    child. *)
Fixpoint getattr_handler (WebElement_dict : list string) (B : Browser) (depth : nat)
    (self : ref) (item : string) {struct depth} : M state attribute :=
  if str_in item WebElement_dict then
    v <- ele B depth self ;;
    match v with
    | PElement e => ret (ADelegated e item)
    | PObject c =>
        match depth with
        | O => raise RecursionError
        | S d => getattr_handler WebElement_dict B d c item
        end
    | _ => raise AttributeError
    end
  else
    fun st => match child_named (objects st) self item with
              | Some c => (Ok (AChild c), st)
              | None => (Err AttributeError, st)
              end.

(** ** [get_page_with_yaml] *)

(** The levels of a descriptor: one more than the levels of its deepest
    child. *)
Fixpoint height (pg : page) : nat :=
  S (match p_ele_tree pg with
     | Some l => fold_right (fun (np : string * page) acc => Nat.max (height (snd np)) acc) 0 l
     | None => 0
     end).

Section Loading.

Variable object_dict : list string.
Variable WebElement_dict : list string.
Variable BY_LIST : list string.

(** [get_page_with_yaml(path, driver)] once the file at [path] is read and
    parsed: [page_dict] stands for [yaml.load(y)], and [driver = None] for
    the default argument.  [PageTemplate.render] ends in the same three
    statements. *)
Definition get_page_with_yaml (depth : nat) (page_dict : list (string * page))
    (driver0 : option WebDriver) : M heap ref :=
  page_object <- PageObject_init object_dict WebElement_dict BY_LIST page_dict None None ;;
  match driver0 with
  | Some d => set_driver depth page_object (Some d)
  | None => ret tt
  end ;;;
  ret page_object.

End Loading.

(** The loop of [set_driver] over the children (lines 201-202), as a
    function of its own. *)
Fixpoint set_driver_children (set : ref -> M heap unit) (l : list (string * ref))
    : M heap unit :=
  match l with
  | [] => ret tt
  | (_, c) :: rest => set c ;;; set_driver_children set rest
  end.

Section Reserved.

Variable object_dict : list string.
Variable WebElement_dict : list string.

(** The name of the entry, or of an entry below it, is reserved. *)
Fixpoint has_reserved (name0 : string) (pg : page) : bool :=
  str_in name0 (_INVALID_ELE_NAME object_dict WebElement_dict) ||
  match p_ele_tree pg with
  | Some l => existsb (fun np : string * page => has_reserved (fst np) (snd np)) l
  | None => false
  end.

End Reserved.

(** ** [__repr__] and [str.format]

    [__repr__] and [PageTemplate.render] call the [format] method of
    Python's strings on a template.  The method belongs to the language,
    not to the repository: it is modelled here from the format string
    syntax of the language reference, in the order in which the
    interpreter reads a template (literal text and doubled braces, then
    for each replacement field its name, conversion and format
    specification, the lookup of the object, and its formatting).  What
    Python does with the values themselves is left as parameters.  A call
    with keyword arguments only is modelled, and ASCII digits are the
    digits. *)

(** What [str.format] raises: [KeyError] for a field whose name is not
    among the keyword arguments, or one of the exceptions above. *)
Inductive format_exn : Type :=
  | KeyError (key : string)
  | Raised (e : exn).

Inductive formatted (A : Type) : Type :=
  | Done (a : A)
  | Failed (e : format_exn).
Arguments Done {A} a.
Arguments Failed {A} e.

Definition is_char (c : Ascii.ascii) (s : string) : bool :=
  match s with
  | String c' EmptyString => Ascii.eqb c c'
  | _ => false
  end.

Definition is_digit (c : Ascii.ascii) : bool :=
  let n := Ascii.nat_of_ascii c in (48 <=? n)%nat && (n <=? 57)%nat.

Definition text (cs : list Ascii.ascii) : string := string_of_list_ascii cs.

(** The states of the scanner of a format string: literal text, just
    after a brace, inside a field name (possibly between brackets), around
    a conversion, inside a format specification with [count] braces open. *)
Inductive scan_state : Type :=
  | Text
  | Open
  | Close
  | Name (acc : list Ascii.ascii) (bracket : bool)
  | Conv (name0 : list Ascii.ascii)
  | AfterConv (name0 : list Ascii.ascii) (conv : Ascii.ascii)
  | Spec (name0 : list Ascii.ascii) (conv : option Ascii.ascii) (count : nat)
         (acc : list Ascii.ascii) (nested : bool).

Section Format.

(** The values and the operations of Python on them that [str.format]
    calls: [format(v, spec)], the conversions [!r], [!s], [!a],
    [getattr(v, name)] and [v[key]]. *)
Context {V : Type}.
Variable py_format : V -> string -> formatted string.
Variable py_convert : Ascii.ascii -> V -> formatted V.
Variable py_getattr : V -> string -> formatted V.
Variable py_getitem : V -> string -> formatted V.

(** The keyword arguments of the call; there are no positional ones. *)
Variable kwargs : list (string * V).

(** The part of a field name before the first ['.'] or ['[']. *)
Fixpoint first_part (cs acc : list Ascii.ascii) : list Ascii.ascii * list Ascii.ascii :=
  match cs with
  | [] => (acc, [])
  | c :: rest =>
      if is_char c "." || is_char c "[" then (acc, cs)
      else first_part rest (acc ++ [c])
  end.

(** The attribute and item accesses that follow, applied from left to
    right; [pending] is the access being read. *)
Inductive access_state : Type :=
  | Between
  | InAttr (acc : list Ascii.ascii)
  | InItem (acc : list Ascii.ascii).

Definition finish_attr (v : V) (acc : list Ascii.ascii) : formatted V :=
  match acc with
  | [] => Failed (Raised ValueError)
  | _ => py_getattr v (text acc)
  end.

Fixpoint accesses (cs : list Ascii.ascii) (st : access_state) (v : V) : formatted V :=
  match cs with
  | [] =>
      match st with
      | Between => Done v
      | InAttr acc => finish_attr v acc
      | InItem _ => Failed (Raised ValueError)
      end
  | c :: rest =>
      match st with
      | Between =>
          if is_char c "." then accesses rest (InAttr []) v
          else if is_char c "[" then accesses rest (InItem []) v
          else Failed (Raised ValueError)
      | InAttr acc =>
          if is_char c "." || is_char c "[" then
            match finish_attr v acc with
            | Done v' => accesses rest (if is_char c "." then InAttr [] else InItem []) v'
            | Failed e => Failed e
            end
          else accesses rest (InAttr (acc ++ [c])) v
      | InItem acc =>
          if is_char c "]" then
            match acc with
            | [] => Failed (Raised ValueError)
            | _ =>
                match py_getitem v (text acc) with
                | Done v' => accesses rest Between v'
                | Failed e => Failed e
                end
            end
          else accesses rest (InItem (acc ++ [c])) v
      end
  end.

(** The object a field name designates: the keyword argument named by
    its first part ([KeyError] if there is none; an empty or numeric first
    part addresses a positional argument, [IndexError] here), then the
    accesses. *)
Definition get_field (name0 : list Ascii.ascii) : formatted V :=
  let (first, rest) := first_part name0 [] in
  if forallb is_digit first then Failed (Raised IndexError)
  else
    match assoc (text first) kwargs with
    | None => Failed (KeyError (text first))
    | Some v => accesses rest Between v
    end.

(** One replacement field: the object is looked up first, then
    converted, then the format specification is expanded if it contains
    fields of its own, then the object is formatted. *)
Definition render_field (expand : list Ascii.ascii -> formatted (list Ascii.ascii))
    (name0 : list Ascii.ascii) (conv : option Ascii.ascii) (spec : list Ascii.ascii) (nested : bool)
    : formatted (list Ascii.ascii) :=
  match get_field name0 with
  | Failed e => Failed e
  | Done v =>
      match (match conv with Some c => py_convert c v | None => Done v end) with
      | Failed e => Failed e
      | Done v' =>
          match (if nested then expand spec else Done spec) with
          | Failed e => Failed e
          | Done spec' =>
              match py_format v' (text spec') with
              | Failed e => Failed e
              | Done s => Done (list_ascii_of_string s)
              end
          end
      end
  end.

(** The scanner: [out] is the output so far. *)
Fixpoint scan (expand : list Ascii.ascii -> formatted (list Ascii.ascii))
    (cs : list Ascii.ascii) (st : scan_state) (out : list Ascii.ascii) : formatted (list Ascii.ascii) :=
  let field name0 conv spec nested rest :=
    match render_field expand name0 conv spec nested with
    | Failed e => Failed e
    | Done s => scan expand rest Text (out ++ s)
    end in
  let in_name acc c rest :=
    if is_char c "{" then Failed (Raised ValueError)
    else if is_char c "[" then scan expand rest (Name (acc ++ [c]) true) out
    else if is_char c "}" then field acc None [] false rest
    else if is_char c ":" then scan expand rest (Spec acc None 0 [] false) out
    else if is_char c "!" then scan expand rest (Conv acc) out
    else scan expand rest (Name (acc ++ [c]) false) out in
  match cs with
  | [] =>
      match st with
      | Text => Done out
      | _ => Failed (Raised ValueError)
      end
  | c :: rest =>
      match st with
      | Text =>
          if is_char c "{" then scan expand rest Open out
          else if is_char c "}" then scan expand rest Close out
          else scan expand rest Text (out ++ [c])
      | Open =>
          if is_char c "{" then scan expand rest Text (out ++ [c])
          else in_name [] c rest
      | Close =>
          if is_char c "}" then scan expand rest Text (out ++ [c])
          else Failed (Raised ValueError)
      | Name acc true =>
          scan expand rest (Name (acc ++ [c]) (negb (is_char c "]"))) out
      | Name acc false => in_name acc c rest
      | Conv name0 => scan expand rest (AfterConv name0 c) out
      | AfterConv name0 conv =>
          if is_char c "}" then field name0 (Some conv) [] false rest
          else if is_char c ":" then scan expand rest (Spec name0 (Some conv) 0 [] false) out
          else Failed (Raised ValueError)
      | Spec name0 conv count acc nested =>
          if is_char c "{" then scan expand rest (Spec name0 conv (S count) (acc ++ [c]) true) out
          else if is_char c "}" then
            match count with
            | O => field name0 conv acc nested rest
            | S k => scan expand rest (Spec name0 conv k (acc ++ [c]) nested) out
            end
          else scan expand rest (Spec name0 conv count (acc ++ [c]) nested) out
      end
  end.

(** A format string is expanded with two levels of nesting at most. *)
Fixpoint build_string (depth : nat) (cs : list Ascii.ascii) : formatted (list Ascii.ascii) :=
  match depth with
  | O => Failed (Raised ValueError)
  | S d => scan (build_string d) cs Text []
  end.

(** The [format] method of a string, called with keyword arguments only. *)
Definition str_format (template : string) : formatted string :=
  match build_string 2 (list_ascii_of_string template) with
  | Done cs => Done (text cs)
  | Failed e => Failed e
  end.

End Format.

(** The arguments of the call in [__repr__]: the object itself, a name,
    or [None]. *)
Inductive repr_value : Type :=
  | RSelf (o : PageObject)
  | RName (n : string)
  | RNone.

Section Repr.

Variable WebElement_dict : list string.
Variable py_format : repr_value -> string -> formatted string.
Variable py_convert : Ascii.ascii -> repr_value -> formatted repr_value.
Variable py_getattr : repr_value -> string -> formatted repr_value.
Variable py_getitem : repr_value -> string -> formatted repr_value.

Definition repr_template : string :=
  "<PageObject>{name: {self.name}, pattern: {self.pattern}, pre_ele: {pre}}".

(** [self.pre_ele.name if self.pre_ele else self.pre_ele].  An object
    is true.  On an object that the loop of [__init__] has left without
    name, [pre_ele] was not assigned either (lines 146-147), and
    [__getattr__], which knows no such attribute of [WebElement] and no
    [ele_tree], raises [AttributeError]. *)
Definition repr_pre (h : heap) (o : PageObject) : formatted repr_value :=
  match name o with
  | None => Failed (Raised AttributeError)
  | Some _ =>
      match pre_ele o with
      | None => Done RNone
      | Some p =>
          match h !! p with
          | Some po =>
              match getattr_name WebElement_dict po with
              | Ok n => Done (RName n)
              | Err e => Failed (Raised e)
              end
          | None => Failed (Raised InvalidReference)
          end
      end
  end.

(** [PageObject.__repr__] (lines 176-178): the keyword arguments are
    evaluated, then the template is formatted. *)
Definition PageObject_repr (h : heap) (self : ref) : formatted string :=
  match h !! self with
  | None => Failed (Raised InvalidReference)
  | Some o =>
      match repr_pre h o with
      | Failed e => Failed e
      | Done pre =>
          str_format py_format py_convert py_getattr py_getitem
                     [("self", RSelf o); ("pre", pre)] repr_template
      end
  end.

End Repr.

(** ** [PageTemplate.render] *)

(** A character other than the two braces. *)
Definition not_brace (c : Ascii.ascii) : bool :=
  negb (is_char c "{") && negb (is_char c "}").

(** A character that can stand anywhere in a plain field name: none of
    the braces, the brackets, the dot, the colon and the exclamation
    mark. *)
Definition name_char (c : Ascii.ascii) : bool :=
  not_brace c && negb (is_char c "[") && negb (is_char c "]") &&
  negb (is_char c ".") && negb (is_char c ":") && negb (is_char c "!").

(** A text without braces. *)
Definition brace_free (s : string) : bool := forallb not_brace (list_ascii_of_string s).

(** A field name that is a key: made of plain characters, not all of them
    digits (hence not empty). *)
Definition plain_key (k : string) : bool :=
  forallb name_char (list_ascii_of_string k) &&
  negb (forallb is_digit (list_ascii_of_string k)).

Definition lift_exn {A} (r : res A * heap) : formatted A * heap :=
  match r with
  | (Ok a, h) => (Done a, h)
  | (Err e, h) => (Failed (Raised e), h)
  end.

Section Template.

Context {V : Type}.
Variable py_format : V -> string -> formatted string.
Variable py_convert : Ascii.ascii -> V -> formatted V.
Variable py_getattr : V -> string -> formatted V.
Variable py_getitem : V -> string -> formatted V.

(** [yaml.load] on a text: the document, or the exception raised. *)
Variable yaml_load : string -> res (list (string * page)).

Variable object_dict : list string.
Variable WebElement_dict : list string.
Variable BY_LIST : list string.

(** [PageTemplate.render(mapping, driver)] (lines 303-308) on the text
    [page_template] that [PageTemplate.__init__] has read: the
    placeholders are replaced, the result is parsed, and the tree is built
    and given the driver as in [get_page_with_yaml]. *)
Definition render (depth : nat) (page_template : string) (mapping : list (string * V))
    (driver0 : option WebDriver) (h : heap) : formatted ref * heap :=
  match str_format py_format py_convert py_getattr py_getitem mapping page_template with
  | Failed e => (Failed e, h)
  | Done page_yaml_str =>
      match yaml_load page_yaml_str with
      | Err e => (Failed (Raised e), h)
      | Ok page_dict =>
          lift_exn (get_page_with_yaml object_dict WebElement_dict BY_LIST depth
                      page_dict driver0 h)
      end
  end.

End Template.

(** ** Further samples *)

(** The descriptor of the first entry of a document. *)
Definition root_page (doc : list (string * page)) : page :=
  match doc with
  | (_, pg) :: _ => pg
  | [] => leaf None None
  end.

(** The tree of a document at time zero, no session attached. *)
Definition unattached (doc : list (string * page)) : state :=
  {| objects := snd (sample_init doc None None []);
     session := {| now := 0; current := Top; log := [] |} |}.

(** A browser in which every lookup fails with an error of the driver. *)
Definition browser_broken : Browser :=
  sample_browser (fun _ _ _ _ => Err WebDriverException) None.

(** The two items again, in a browser in which the element is gone by the
    time its border is to be restored. *)
Definition browser_restore_fails : Browser :=
  {| find_elements := fun _ _ _ _ => Ok [10; 11];
     switch_to_frame := fun _ _ => None;
     get_attribute := fun _ _ _ => Ok "";
     execute_script := fun _ script _ =>
       if String.eqb script red_border then None else Some NoSuchElementException;
     save_screenshot := fun _ _ => None;
     element_click := fun _ _ => None;
     element_send_keys := fun _ _ _ => None;
     strftime := fun _ => "20240101120000000000" |}.

(** [{list: {pattern: ul, ele_tree: {ele: {pattern: li}}}}]: a list whose
    child is named [ele], a name that the constructor accepts. *)
Definition doc_ele_child : list (string * page) :=
  [("list", mkPage (Some "ul") None None None None None None
      (Some [("ele", leaf (Some "li") None)]))].

(** The two items, followed by an entry that the constructor would
    refuse. *)
Definition doc_two_entries : list (string * page) :=
  [("item", leaf (Some "li") None); ("login", leaf None (Some "id"))].

(** [{click: {pattern: "#b"}}]: the name is an attribute of
    [WebElement]. *)
Definition doc_reserved : list (string * page) := [("click", leaf (Some "#b") None)].

(** Values printed as the empty string, without attributes or items. *)
Definition blank_format (v : repr_value) (spec : string) : formatted string := Done "".
Definition blank_convert (c : Ascii.ascii) (v : repr_value) : formatted repr_value := Done v.
Definition blank_getattr (v : repr_value) (a : string) : formatted repr_value :=
  Failed (Raised AttributeError).
Definition blank_getitem (v : repr_value) (k : string) : formatted repr_value :=
  Failed (Raised TypeError).

(** A template for the two items, and a mapping of strings, which are
    printed as they are. *)
Definition newline : string := String (Ascii.ascii_of_nat 10) "".

Definition items_yaml (selector : string) : string :=
  ("item:" ++ newline ++ "  pattern: " ++ selector)%string.

Definition text_format (v : string) (spec : string) : formatted string := Done v.
Definition text_convert (c : Ascii.ascii) (v : string) : formatted string := Done v.
Definition text_getattr (v : string) (a : string) : formatted string :=
  Failed (Raised AttributeError).
Definition text_getitem (v : string) (k : string) : formatted string :=
  Failed (Raised TypeError).

(** A parser that knows one document. *)
Definition sample_yaml_load (s : string) : res (list (string * page)) :=
  if String.eqb s (items_yaml "li") then Ok doc_items else Err ValueError.

Definition sample_render : nat -> string -> list (string * string) -> option WebDriver ->
                           heap -> formatted ref * heap :=
  render text_format text_convert text_getattr text_getitem sample_yaml_load
         sample_object_dict sample_WebElement_dict sample_BY_LIST.

(** * Properties *)

(** ** Reasoning about the monad *)

Lemma bind_Ok_inv {S A B} (m : M S A) (k : A -> M S B) s b s' :
  bind m k s = (Ok b, s') ->
  exists a s1, m s = (Ok a, s1) /\ k a s1 = (Ok b, s').
Proof.
  unfold bind. destruct (m s) as [[a|e] s1]; intros H.
  - exists a, s1. split; [reflexivity | exact H].
  - discriminate H.
Qed.

Lemma bind_Err_inv {S A B} (m : M S A) (k : A -> M S B) s e s' :
  bind m k s = (Err e, s') ->
  m s = (Err e, s') \/ exists a s1, m s = (Ok a, s1) /\ k a s1 = (Err e, s').
Proof.
  unfold bind. destruct (m s) as [[a|e0] s1]; intros H.
  - right. exists a, s1. split; [reflexivity | exact H].
  - left. injection H as -> ->. reflexivity.
Qed.

Lemma bind_Ok_step {S A B} (m : M S A) (k : A -> M S B) s a s1 :
  m s = (Ok a, s1) -> bind m k s = k a s1.
Proof. intros H. unfold bind. rewrite H. reflexivity. Qed.

Lemma bind_Err_step {S A B} (m : M S A) (k : A -> M S B) s e s1 :
  m s = (Err e, s1) -> bind m k s = (Err e, s1).
Proof. intros H. unfold bind. rewrite H. reflexivity. Qed.

Tactic Notation "inv_bind" hyp(H) "as" ident(a) ident(s) ident(H1) :=
  apply bind_Ok_inv in H; destruct H as (a & s & H1 & H).

(** ** Tree construction *)

Section BuildFacts.

Variable object_dict : list string.
Variable WebElement_dict : list string.
Variable BY_LIST : list string.

Local Abbreviation entry := (init_entry object_dict WebElement_dict BY_LIST).
Local Abbreviation build := (PageObject_init object_dict WebElement_dict BY_LIST).

Lemma raise_ValueError_naming_fails {A} self h (r : res A) h' :
  raise_ValueError_naming WebElement_dict self h = (r, h') ->
  h' = h /\ exists e, r = Err e.
Proof.
  unfold raise_ValueError_naming, bind, get.
  destruct (h !! self) as [o|].
  - destruct (getattr_name WebElement_dict o); unfold raise; intros [= <- <-]; eauto.
  - intros [= <- <-]; eauto.
Qed.

(** Every path through the loop body ends in [raise] or in [break]. *)
Lemma init_entry_breaks name0 pg self pre fr h sig h' :
  entry name0 pg self pre fr h = (Ok sig, h') -> sig = Break.
Proof.
  destruct pg as [pat by0 to gp ig isf ord tree]. cbn [init_entry].
  destruct (str_in name0 _); [discriminate|].
  destruct (pattern_missing _).
  { intros H. apply raise_ValueError_naming_fails in H as [_ [e He]]. discriminate. }
  destruct (by_rejected _ _).
  { intros H. apply raise_ValueError_naming_fails in H as [_ [e He]]. discriminate. }
  intros H. inv_bind H as u1 h1 H1. inv_bind H as u2 h2 H2. inv_bind H as u3 h3 H3.
  unfold ret in H. congruence.
Qed.

(** The constructor on a one-entry dictionary: a new object, then the
    loop body once. *)
Lemma PageObject_init_single name0 pg pre fr h :
  build [(name0, pg)] pre fr h =
  (self <- alloc DEFAULT_ATTRIBUTE ;;
   entry name0 pg self pre fr ;;;
   ret self) h.
Proof.
  unfold PageObject_init, bind, alloc. cbn [for_items]. unfold bind.
  destruct (entry _ _ _ _ _ _) as [[[]|e] h1] eqn:E; try reflexivity.
Qed.

(** Whatever the remaining entries of a dictionary are, the outcome
    (object, store, or the exception raised for the first entry) is the
    one of the dictionary reduced to its first entry. *)
Lemma PageObject_init_ignores_the_rest :
  forall (e e' : string * page) (others : list (string * page))
         (pre fr : option ref) (h : heap),
    build (e :: e' :: others) pre fr h = build [e] pre fr h.
Proof.
  intros [name0 pg] e' others pre fr h.
  unfold PageObject_init, bind, alloc. cbn [for_items]. unfold bind.
  destruct (entry name0 pg _ pre fr _) as [[sig|x] h1] eqn:E; [|reflexivity].
  apply init_entry_breaks in E. subst sig. reflexivity.
Qed.

End BuildFacts.

(** Induction over a descriptor and the descriptors of its [ele_tree]. *)
Lemma page_nested_ind (P : page -> Prop) :
  (forall pat by0 to gp ig isf ord tree,
      match tree with
      | Some l => Forall (fun np : string * page => P (snd np)) l
      | None => True
      end ->
      P (mkPage pat by0 to gp ig isf ord tree)) ->
  forall pg, P pg.
Proof.
  intros H. fix IH 1. intros [pat by0 to gp ig isf ord tree]. apply H.
  destruct tree as [l|]; [|exact I].
  induction l as [|[n p] l IHl]; constructor; [apply IH | exact IHl].
Qed.

Lemma modify_Ok_inv r f h u h' :
  modify r f h = (Ok u, h') -> exists o, h !! r = Some o /\ h' = <[r := f o]> h.
Proof.
  unfold modify. destruct (h !! r) as [o|]; [|discriminate].
  intros [= _ <-]. eauto.
Qed.

Lemma final_rule_mono h h' lo lo' i o :
  final_rule h lo i o -> lo' <= lo ->
  (forall p, lo <= p -> p < i -> h' !! p = h !! p) ->
  final_rule h' lo' i o.
Proof.
  intros (p & po & Hp & Hlo & Hlt & Hpo & Hf) Hle Hsame.
  exists p, po. repeat split; try assumption; try lia.
  rewrite Hsame; assumption.
Qed.

Section BuildShape.

Variable init : string -> page -> ref -> M heap loop_signal.
Variable self : ref.
Variable ef : option ref.

Lemma init_children_post (l : list (string * page)) :
  Forall (fun np : string * page =>
            forall c hb sig h1,
              hb !! c = Some DEFAULT_ATTRIBUTE ->
              init (fst np) (snd np) c hb = (Ok sig, h1) ->
              entry_post hb h1 c (Some self) ef) l ->
  forall h kids h',
    init_children init l h = (Ok kids, h') ->
    children_post h h' self ef.
Proof.
  induction 1 as [|[n cfg] l Hinit _ IH]; intros h kids hz Hrun.
  - cbn in Hrun. injection Hrun as _ <-. rename h into h0.
    split; [lia|]. split; [reflexivity|].
    intros i o Hi Ho. apply lookup_lt_Some in Ho. lia.
  - cbn [init_children] in Hrun.
    inv_bind Hrun as c hb Halloc. unfold alloc in Halloc. injection Halloc as <- <-.
    inv_bind Hrun as sig h1 Hentry. inv_bind Hrun as ks h2 Hrest.
    unfold ret in Hrun. injection Hrun as _ <-.
    cbn [fst snd] in Hinit.
    assert (Hc : (h ++ [DEFAULT_ATTRIBUTE]) !! length h = Some DEFAULT_ATTRIBUTE).
    { rewrite lookup_app_r by lia. rewrite Nat.sub_diag. reflexivity. }
    specialize (Hinit _ _ _ _ Hc Hentry) as (Hlen1 & Hold1 & (o' & Ho' & Hpre & Hfr) & Hnew1).
    specialize (IH _ _ _ Hrest) as (Hlen2 & Hold2 & Hnew2).
    rewrite length_app in Hlen1, Hold1, Hnew1. cbn [length] in Hlen1, Hold1, Hnew1.
    split; [|split].
    + lia.
    + intros i Hi. rewrite Hold2 by lia. rewrite Hold1 by lia.
      apply lookup_app_l. exact Hi.
    + intros i o Hi Ho.
      destruct (Nat.lt_ge_cases i (length h1)) as [Hlt|Hge].
      * rewrite Hold2 in Ho by exact Hlt.
        destruct (Nat.eq_dec i (length h)) as [->|Hne].
        { left. rewrite Ho' in Ho. injection Ho as <-. split; assumption. }
        right. apply (final_rule_mono h1 h2 (length h) (length h) i o).
        -- apply Hnew1; [lia | exact Ho].
        -- lia.
        -- intros p _ Hp. apply Hold2. lia.
      * destruct (Hnew2 i o Hge Ho) as [Hl|Hr]; [left; exact Hl|].
        right. apply (final_rule_mono h2 h2 (length h1) (length h) i o Hr); [lia|reflexivity].
Qed.

End BuildShape.

Section EntryShape.

Variable object_dict : list string.
Variable WebElement_dict : list string.
Variable BY_LIST : list string.

Local Abbreviation entry := (init_entry object_dict WebElement_dict BY_LIST).
Local Abbreviation build := (PageObject_init object_dict WebElement_dict BY_LIST).

(** The loop body establishes [entry_post] on every descriptor. *)
Lemma init_entry_post pg :
  forall name0 self pre fr hb sig h1,
    hb !! self = Some DEFAULT_ATTRIBUTE ->
    entry name0 pg self pre fr hb = (Ok sig, h1) ->
    entry_post hb h1 self pre fr.
Proof.
  induction pg as [pat by0 to gp ig isf ord tree IH] using page_nested_ind.
  intros name0 self pre fr hb sig h1 Hself Hrun.
  cbn [init_entry] in Hrun.
  destruct (str_in name0 _); [discriminate|].
  destruct (pattern_missing _).
  { apply raise_ValueError_naming_fails in Hrun as [_ [e He]]. discriminate. }
  destruct (by_rejected _ _).
  { apply raise_ValueError_naming_fails in Hrun as [_ [e He]]. discriminate. }
  inv_bind Hrun as u1 ha Hident. inv_bind Hrun as u2 hc Hkids. inv_bind Hrun as u3 hd Hmerge.
  unfold ret in Hrun. injection Hrun as _ <-.
  apply modify_Ok_inv in Hident as (o0 & Ho0 & ->).
  rewrite Hself in Ho0. injection Ho0 as <-.
  apply modify_Ok_inv in Hmerge as (oc & Hoc & ->).
  pose proof (lookup_lt_Some _ _ _ Hself) as Hlt.
  set (ha := <[self := set_identity name0 pre fr DEFAULT_ATTRIBUTE]> hb) in *.
  set (ef := if default false isf then Some self else fr) in *.
  assert (Hha : length ha = length hb) by apply length_insert.
  (* the store after the children, before the final merge *)
  assert (Hmid : length hb <= length hc /\
                 (forall i, i < length hb -> i <> self -> hc !! i = hb !! i) /\
                 pre_ele oc = pre /\ frame oc = fr /\ is_frame oc = false /\
                 (forall i o, length hb <= i -> hc !! i = Some o ->
                    (pre_ele o = Some self /\ frame o = ef) \/
                    final_rule hc (length hb) i o)).
  { cbn [p_ele_tree p_is_frame] in Hkids. destruct tree as [l|].
    - inv_bind Hkids as kids hk Hloop.
      apply modify_Ok_inv in Hkids as (ok & Hok & ->).
      apply (init_children_post _ self ef) in Hloop.
      2:{ eapply Forall_impl; [exact IH|]. intros [n cfg] Hcfg c hb' sig' h1' Hc Hrun'.
          cbn [fst snd] in *. eapply Hcfg; eassumption. }
      destruct Hloop as (Hlen & Hold & Hnew). rewrite Hha in Hlen, Hold, Hnew.
      assert (Hok' : ok = set_identity name0 pre fr DEFAULT_ATTRIBUTE).
      { rewrite Hold in Hok by exact Hlt. unfold ha in Hok.
        rewrite list_lookup_insert_eq in Hok by exact Hlt. congruence. }
      assert (Hlk : self < length hk) by lia.
      rewrite list_lookup_insert_eq in Hoc by exact Hlk. injection Hoc as <-.
      rewrite length_insert. subst ok. cbn.
      split; [lia|]. split; [|split; [reflexivity|split; [reflexivity|split; [reflexivity|]]]].
      + intros i Hi Hne. rewrite list_lookup_insert_ne by congruence.
        rewrite Hold by exact Hi. unfold ha. apply list_lookup_insert_ne. congruence.
      + intros i o Hi Ho. rewrite list_lookup_insert_ne in Ho by lia.
        destruct (Hnew i o Hi Ho) as [Hl|Hr]; [left; exact Hl|right].
        apply (final_rule_mono hk _ (length hb) (length hb) i o Hr); [lia|].
        intros p Hp _. apply list_lookup_insert_ne. lia.
    - unfold ret in Hkids. injection Hkids as _ <-.
      unfold ha in Hoc. rewrite list_lookup_insert_eq in Hoc by exact Hlt.
      injection Hoc as <-. cbn.
      split; [lia|]. split; [|split; [reflexivity|split; [reflexivity|split; [reflexivity|]]]].
      + intros i Hi Hne. apply list_lookup_insert_ne. congruence.
      + intros i o Hi Ho. apply lookup_lt_Some in Ho. lia. }
  destruct Hmid as (Hlen & Hold & Hpre & Hfr & Hisf & Hnew).
  assert (Hlc : self < length hc) by lia.
  split; [rewrite length_insert; exact Hlen|]. split; [|split].
  - intros i Hi Hne. rewrite list_lookup_insert_ne by congruence. apply Hold; assumption.
  - exists (merge_page (mkPage pat by0 to gp ig isf ord tree) oc).
    split; [apply list_lookup_insert_eq; exact Hlc|]. cbn. split; assumption.
  - intros i o Hi Ho. rewrite list_lookup_insert_ne in Ho by lia.
    destruct (Hnew i o Hi Ho) as [[Hp Hf]|Hr].
    + exists self, (merge_page (mkPage pat by0 to gp ig isf ord tree) oc).
      split; [exact Hp|]. split; [lia|]. split; [lia|].
      split; [apply list_lookup_insert_eq; exact Hlc|].
      cbn. rewrite Hf, Hisf, Hfr. reflexivity.
    + apply (final_rule_mono hc _ (length hb) self i o Hr); [lia|].
      intros p Hp _. apply list_lookup_insert_ne. lia.
Qed.

End EntryShape.

Section TreeShape.

Variable object_dict : list string.
Variable WebElement_dict : list string.
Variable BY_LIST : list string.

Local Abbreviation build := (PageObject_init object_dict WebElement_dict BY_LIST).

(** Every object of a built tree is the root or obeys [final_rule]. *)
Lemma built_tree_shape doc root h :
  build doc None None [] = (Ok root, h) ->
  forall r o, h !! r = Some o ->
    (pre_ele o = None /\ frame o = None) \/ final_rule h 0 r o.
Proof.
  intros Hrun r o Ho.
  unfold PageObject_init in Hrun.
  inv_bind Hrun as self hb Halloc. unfold alloc in Halloc. injection Halloc as <- <-.
  inv_bind Hrun as u h1 Hloop. unfold ret in Hrun. injection Hrun as _ <-.
  destruct doc as [|[name0 pg] rest].
  - cbn in Hloop. injection Hloop as _ <-.
    destruct r as [|r]; cbn in Ho; [|destruct r; discriminate].
    injection Ho as <-. left. split; reflexivity.
  - cbn [for_items] in Hloop. inv_bind Hloop as sig h2 Hentry.
    assert (h1 = h2) as -> by (destruct sig; [unfold ret in Hloop; congruence|];
      apply init_entry_breaks in Hentry; discriminate).
    apply init_entry_post in Hentry; [|reflexivity].
    destruct Hentry as (_ & _ & (o' & Ho' & Hpre & Hfr) & Hnew). cbn [length app] in *.
    destruct r as [|r].
    + left. rewrite Ho' in Ho. injection Ho as <-. split; assumption.
    + right. apply Hnew; [lia|exact Ho].
Qed.

(** In a built tree, the frame of every object that has a parent follows
    the inheritance rule, and a frame that is set is reached from the
    object by following [pre_ele] links. *)
Lemma built_frames_are_ancestors :
  forall (doc : list (string * page)) (root : ref) (h : heap),
    build doc None None [] = (Ok root, h) ->
    forall (r : ref) (o : PageObject),
      h !! r = Some o ->
      frame_inherited h o /\
      (forall f, frame o = Some f -> ancestor_or_self h r f).
Proof.
  intros doc root h Hrun.
  pose proof (built_tree_shape doc root h Hrun) as Hshape.
  intros r o Ho. split.
  - unfold frame_inherited.
    destruct (Hshape r o Ho) as [[Hp _]|(p & po & Hp & _ & _ & Hpo & Hf)]; rewrite Hp; [exact I|].
    exists po. split; assumption.
  - revert o Ho. induction r as [r IH] using lt_wf_ind. intros o Ho f Hf.
    destruct (Hshape r o Ho) as [[_ Hnone]|(p & po & Hp & _ & Hlt & Hpo & Hrule)]; [congruence|].
    apply (aos_parent h r p f o Ho Hp).
    destruct (is_frame po).
    + assert (p = f) as -> by congruence. apply aos_self.
    + apply (IH p Hlt po Hpo). congruence.
Qed.

End TreeShape.

(** ** Documents that are refused *)

Section Rejection.

Variable object_dict : list string.
Variable WebElement_dict : list string.
Variable BY_LIST : list string.

Local Abbreviation entry := (init_entry object_dict WebElement_dict BY_LIST).
Local Abbreviation build := (PageObject_init object_dict WebElement_dict BY_LIST).

(** On an object whose [name] is not assigned yet, the [ValueError] that
    names the page is never raised: evaluating [self.name] fails first. *)
Lemma raise_ValueError_naming_unnamed {A} self h o :
  h !! self = Some o -> name o = None ->
  exists e, @raise_ValueError_naming WebElement_dict A self h = (Err e, h) /\ e <> ValueError.
Proof.
  intros Ho Hn. unfold raise_ValueError_naming, bind, get. rewrite Ho.
  unfold getattr_name. rewrite Hn.
  destruct (str_in "name" WebElement_dict); eexists; (split; [reflexivity|discriminate]).
Qed.

(** A descriptor without [pattern], or with a [by] outside the allowed
    set, under an accepted name: the constructor fails, but not with
    [ValueError]. *)
Lemma init_entry_check_fails name0 pg self pre fr h :
  str_in name0 (_INVALID_ELE_NAME object_dict WebElement_dict) = false ->
  pattern_missing pg || by_rejected BY_LIST pg = true ->
  h !! self = Some DEFAULT_ATTRIBUTE ->
  exists e, entry name0 pg self pre fr h = (Err e, h) /\ e <> ValueError.
Proof.
  intros Hname Hbad Hself. destruct pg as [pat by0 to gp ig isf ord tree].
  cbn [init_entry]. rewrite Hname.
  destruct (pattern_missing _).
  - apply (raise_ValueError_naming_unnamed self h DEFAULT_ATTRIBUTE Hself). reflexivity.
  - cbn [orb] in Hbad. rewrite Hbad.
    apply (raise_ValueError_naming_unnamed self h DEFAULT_ATTRIBUTE Hself). reflexivity.
Qed.

Lemma init_children_flawed init (l : list (string * page)) :
  Forall (fun np : string * page =>
            flawed BY_LIST (snd np) = true ->
            forall c h, exists e h', init (fst np) (snd np) c h = (Err e, h')) l ->
  existsb (fun np : string * page => flawed BY_LIST (snd np)) l = true ->
  forall h, exists e h', init_children init l h = (Err e, h').
Proof.
  induction 1 as [|[n cfg] l Hhead _ IH]; intros Hex h; [discriminate|].
  cbn [existsb fst snd] in *. cbn [init_children]. unfold bind at 1, alloc.
  destruct (flawed BY_LIST cfg) eqn:Hf.
  - destruct (Hhead eq_refl (length h) (h ++ [DEFAULT_ATTRIBUTE])) as (e & h' & He).
    exists e, h'. unfold bind. rewrite He. reflexivity.
  - cbn [orb] in Hex. unfold bind at 1.
    destruct (init n cfg _ _) as [[sig|e] h1]; [|eauto].
    destruct (IH Hex h1) as (e & h' & He). exists e, h'.
    unfold bind. rewrite He. reflexivity.
Qed.

(** A flawed descriptor anywhere below an entry makes the loop body
    fail: no tree is built from it. *)
Lemma init_entry_flawed pg :
  flawed BY_LIST pg = true ->
  forall name0 self pre fr h, exists e h', entry name0 pg self pre fr h = (Err e, h').
Proof.
  induction pg as [pat by0 to gp ig isf ord tree IH] using page_nested_ind.
  intros Hflaw name0 self pre fr h. cbn [init_entry].
  destruct (str_in name0 _); [eexists _, _; reflexivity|].
  cbn [flawed p_ele_tree] in Hflaw.
  destruct (pattern_missing _).
  { destruct (raise_ValueError_naming WebElement_dict self h) as [r h'] eqn:E.
    apply raise_ValueError_naming_fails in E as [-> [e ->]]. eauto. }
  destruct (by_rejected _ _).
  { destruct (raise_ValueError_naming WebElement_dict self h) as [r h'] eqn:E.
    apply raise_ValueError_naming_fails in E as [-> [e ->]]. eauto. }
  cbn [orb] in Hflaw. destruct tree as [l|]; [|discriminate].
  unfold bind at 1. destruct (modify self _ h) as [[u|e] h1]; [|eauto].
  cbn [p_ele_tree]. unfold bind at 1. unfold bind at 1.
  match goal with |- context [init_children ?f l h1] =>
    destruct (init_children_flawed f l) with (h := h1) as (e & h' & He) end.
  - eapply Forall_impl; [exact IH|]. intros [n cfg] Hcfg Hf c h0. cbn [fst snd] in *.
    apply Hcfg. exact Hf.
  - exact Hflaw.
  - rewrite He. eauto.
Qed.

Lemma PageObject_init_flawed name0 pg pre fr h :
  flawed BY_LIST pg = true ->
  exists e h', build [(name0, pg)] pre fr h = (Err e, h').
Proof.
  intros Hflaw. rewrite PageObject_init_single. unfold bind at 1, alloc.
  destruct (init_entry_flawed pg Hflaw name0 (length h) pre fr (h ++ [DEFAULT_ATTRIBUTE]))
    as (e & h' & He).
  exists e, h'. unfold bind. rewrite He. reflexivity.
Qed.

End Rejection.

(** C3. The document [{login: {by: id}}] lacks [pattern]; the constructor
    does not reach its [ValueError]: formatting the message evaluates
    [self.name] before line 146 assigns it, and [AttributeError] is what
    leaves [__init__]. *)
Theorem missing_pattern_raises_AttributeError :
  sample_init doc_without_pattern None None [] = (Err AttributeError, [DEFAULT_ATTRIBUTE]).
Proof. vm_compute. reflexivity. Qed.

(** C8. The document [{login: {pattern: "#login", by: bogus-strategy}}] is
    refused while the tree is built, but not by the [ValueError] of line
    143: its message evaluates [self.name] before it is assigned, and
    [AttributeError] is what leaves [__init__]. *)
Theorem bogus_by_raises_AttributeError :
  sample_init doc_bogus_by None None [] = (Err AttributeError, [DEFAULT_ATTRIBUTE]).
Proof. vm_compute. reflexivity. Qed.

(** ** Resolution *)

Lemma state_eta st : {| objects := objects st; session := session st |} = st.
Proof. destruct st; reflexivity. Qed.

Lemma on_heap_get st self o :
  objects st !! self = Some o -> on_heap (get self) st = (Ok o, st).
Proof. intros H. unfold on_heap, get. rewrite H. rewrite state_eta. reflexivity. Qed.

Lemma on_heap_get_inv st self o st' :
  on_heap (get self) st = (Ok o, st') -> objects st !! self = Some o /\ st' = st.
Proof.
  unfold on_heap, get. destruct (objects st !! self) as [x|]; [|discriminate].
  rewrite state_eta. intros [= <- <-]. split; reflexivity.
Qed.

Lemma on_heap_modify_inv st self f u st' :
  on_heap (modify self f) st = (Ok u, st') ->
  exists o, objects st !! self = Some o /\
            st' = {| objects := <[self := f o]> (objects st); session := session st |}.
Proof.
  unfold on_heap, modify. destruct (objects st !! self) as [o|]; [|discriminate].
  intros [= _ <-]. eauto.
Qed.

Lemma require_driver_inv {A} (func : ref -> M state A) obj st a st' :
  require_driver func obj st = (Ok a, st') ->
  exists o, objects st !! obj = Some o /\ driver o <> None /\ func obj st = (Ok a, st').
Proof.
  unfold require_driver. intros H. inv_bind H as o s1 Hget.
  apply on_heap_get_inv in Hget as [Ho ->].
  exists o. split; [exact Ho|]. destruct (driver o); [split; [discriminate|exact H]|discriminate].
Qed.

Lemma require_driver_run {A} (func : ref -> M state A) obj st o :
  objects st !! obj = Some o -> driver o <> None ->
  require_driver func obj st = func obj st.
Proof.
  intros Ho Hd. unfold require_driver. rewrite (bind_Ok_step _ _ _ _ _ (on_heap_get _ _ _ Ho)).
  destruct (driver o); [reflexivity|congruence].
Qed.

Section ResolverFacts.

Variable B : Browser.

(** Indexing never raises [AttributeError]. *)
Lemma pick_not_AttributeError o : pick o <> Err AttributeError.
Proof.
  unfold pick. destruct (_ <? _)%Z; [|discriminate].
  unfold getitem, list_getitem. destruct (eles o) as [l|]; [|discriminate].
  destruct (_ && _); [|discriminate]. destruct (l !! _); discriminate.
Qed.

(** The attribute [ele] is what the getter gives, unless the getter
    raises [AttributeError]. *)
Lemma ele_via_getter findf self st r st' :
  ele_getter findf self st = (r, st') -> r <> Err AttributeError ->
  ele_via findf self st = (r, st').
Proof.
  intros Hg Hr. unfold ele_via, try_except. rewrite Hg.
  destruct r as [v|e]; [reflexivity|].
  destruct (exn_eqb e AttributeError) eqn:E; [|reflexivity].
  destruct e; try discriminate E. congruence.
Qed.

(** The outcomes of the attribute [ele]: the getter's, at the first or at
    the second run, or the fallback's after two runs that raised
    [AttributeError]. *)
Lemma ele_via_inv findf self st r st' :
  ele_via findf self st = (r, st') ->
  (ele_getter findf self st = (r, st') /\ r <> Err AttributeError) \/
  exists st1,
    ele_getter findf self st = (Err AttributeError, st1) /\
    ((ele_getter findf self st1 = (r, st') /\ r <> Err AttributeError) \/
     exists st2, ele_getter findf self st1 = (Err AttributeError, st2) /\
                 ele_fallback self st2 = (r, st')).
Proof.
  assert (Hsplit : forall (m : M state pyval) s r0 s0, m s = (r0, s0) ->
            r0 = Err AttributeError \/
            (r0 <> Err AttributeError /\
             forall h, try_except m AttributeError h s = (r0, s0))).
  { intros m s r0 s0 Hm. destruct r0 as [v|e].
    - right. split; [discriminate|]. intros h. unfold try_except. rewrite Hm. reflexivity.
    - destruct e; try (right; split; [discriminate|]; intros h; unfold try_except;
                       rewrite Hm; reflexivity).
      left. reflexivity. }
  intros H. unfold ele_via in H.
  destruct (ele_getter findf self st) as [r1 st1] eqn:E1.
  destruct (Hsplit _ _ _ _ E1) as [->|[Hr1 Hrun]].
  - right. exists st1. split; [reflexivity|].
    unfold try_except at 1 in H. rewrite E1 in H. cbn [exn_eqb] in H.
    destruct (ele_getter findf self st1) as [r2 st2] eqn:E2.
    destruct (Hsplit _ _ _ _ E2) as [->|[Hr2 Hrun2]].
    + right. exists st2. split; [reflexivity|].
      unfold try_except in H. rewrite E2 in H. cbn [exn_eqb] in H. exact H.
    + left. rewrite Hrun2 in H. injection H as <- <-. split; [reflexivity|exact Hr2].
  - left. rewrite Hrun in H. injection H as <- <-. split; [reflexivity|exact Hr1].
Qed.

(** What the getter and the attribute return. *)
Lemma pick_value o v :
  pick o = Ok v ->
  v = PNone \/
  exists e l, v = PElement e /\ eles o = Some l /\ list_getitem l (order o) = Ok e.
Proof.
  unfold pick. destruct (_ <? _)%Z; [|left; congruence].
  destruct (eles o) as [l|]; [|discriminate]. cbn [getitem].
  destruct (list_getitem l (order o)) as [e|x] eqn:Hg; [|discriminate].
  intros [= <-]. right. exists e, l. repeat split. exact Hg.
Qed.

Lemma ele_getter_value findf self st v st' :
  ele_getter findf self st = (Ok v, st') ->
  v = PNone \/ exists o', objects st' !! self = Some o' /\ pick o' = Ok v.
Proof.
  unfold ele_getter. intros H. inv_bind H as v1 s1 Hf. destruct (is_None v1).
  - unfold ret in H. injection H as <- _. left. reflexivity.
  - inv_bind H as o' s2 Hg. apply on_heap_get_inv in Hg as [Ho' ->].
    unfold lift_res in H. injection H as Hp <-. right. exists o'. split; assumption.
Qed.

Lemma ele_via_value findf self st v st' :
  ele_via findf self st = (Ok v, st') ->
  v = PNone \/
  (exists o', objects st' !! self = Some o' /\ pick o' = Ok v) \/
  (exists c st1, v = PObject c /\ child_named (objects st') self "ele" = Some c /\
                 ele_getter findf self st = (Err AttributeError, st1) /\
                 ele_getter findf self st1 = (Err AttributeError, st')).
Proof.
  intros H. apply ele_via_inv in H as [[Hg _]|(st1 & Hg1 & [[Hg _]|(st2 & Hg2 & Hfb)])].
  - destruct (ele_getter_value _ _ _ _ _ Hg) as [->|Hv]; [left; reflexivity|right; left; exact Hv].
  - destruct (ele_getter_value _ _ _ _ _ Hg) as [->|Hv]; [left; reflexivity|right; left; exact Hv].
  - unfold ele_fallback in Hfb.
    destruct (child_named (objects st2) self "ele") as [c|] eqn:Hc; [|discriminate].
    injection Hfb as <- <-. right. right. exists c, st1. repeat split; assumption.
Qed.

(** The attribute [ele] is never a list. *)
Lemma ele_via_not_list findf self st l st' :
  ele_via findf self st <> (Ok (PElements l), st').
Proof.
  intros H. apply ele_via_value in H as [H|[(o' & _ & Hp)|(c & st1 & H & _)]];
    try discriminate H.
  apply pick_value in Hp as [Hp|(e & l0 & Hp & _)]; discriminate Hp.
Qed.

(** What [ele] returns once its [find] has returned a list. *)
Lemma ele_via_found findf self st l st' o' :
  findf self "ele" st = (Ok (PElements l), st') ->
  objects st' !! self = Some o' ->
  ele_via findf self st = (pick o', st').
Proof.
  intros Hf Ho. apply ele_via_getter; [|apply pick_not_AttributeError].
  unfold ele_getter. rewrite (bind_Ok_step _ _ _ _ _ Hf). cbn [is_None].
  rewrite (bind_Ok_step _ _ _ _ _ (on_heap_get _ _ _ Ho)). reflexivity.
Qed.

(** The wait only returns a non-empty list. *)
Lemma until_loop_nonempty polls end_time poll ign sc by0 pat w l w' :
  until_loop B polls end_time poll ign sc by0 pat w = (Ok l, w') -> l <> [].
Proof.
  revert w. induction polls as [|k IH]; intros w; [discriminate|].
  cbn [until_loop].
  assert (Hafter : forall w1, after_attempt end_time poll
             (until_loop B k end_time poll ign sc by0 pat) w1 = (Ok l, w') -> l <> []).
  { intros w1 H. unfold after_attempt in H. inv_bind H as u w2 Hs.
    destruct (end_time <? now w2)%Z; [discriminate|]. exact (IH _ H). }
  destruct (query B sc by0 pat w) as [[[|x xs]|e] w1].
  - apply Hafter.
  - intros [= <- _]. discriminate.
  - destruct (exn_in e ign); [apply Hafter|discriminate].
Qed.

Lemma wait_and_store_Ok_inv self o sc st v st' :
  wait_and_store B self o sc st = (Ok v, st') ->
  v = PNone \/
  exists l o', v = PElements l /\ l <> [] /\
               objects st' !! self = Some o' /\ eles o' = Some l.
Proof.
  unfold wait_and_store. destruct (pattern o) as [pat|]; [|discriminate].
  unfold try_except.
  match goal with |- context [bind ?m ?k st] => destruct (bind m k st) as [[v0|e] s0] eqn:E end.
  - intros [= <- <-]. right.
    inv_bind E as l s1 Hu. inv_bind E as u1 s2 Hm1. inv_bind E as t s3 Ht.
    inv_bind E as u2 s4 Hm2. unfold ret in E. injection E as <- <-.
    apply on_heap_modify_inv in Hm1 as (o1 & Ho1 & ->).
    unfold time_time in Ht. injection Ht as <- <-.
    apply on_heap_modify_inv in Hm2 as (o2 & Ho2 & ->). cbn [objects] in *.
    pose proof (lookup_lt_Some _ _ _ Ho1) as Hlt.
    rewrite list_lookup_insert_eq in Ho2 by exact Hlt. injection Ho2 as <-.
    exists l, (set_last_found (now (session s1)) (set_eles (Some l) o1)).
    split; [reflexivity|]. split.
    + unfold on_session in Hu. destruct (until _ _ _ _ _ _ _ _) as [r w] eqn:Eu.
      injection Hu as -> _. unfold until in Eu. eapply until_loop_nonempty; exact Eu.
    + split; [|reflexivity]. apply list_lookup_insert_eq. rewrite length_insert. exact Hlt.
  - destruct (exn_eqb e TimeoutException); [|discriminate].
    unfold ret. intros [= <- _]. left. reflexivity.
Qed.

(** A list that the wait returns is the answer of the browser to the last
    query made. *)
Lemma until_loop_answer polls end_time poll ign sc by0 pat w l w' :
  until_loop B polls end_time poll ign sc by0 pat w = (Ok l, w') ->
  exists w0, find_elements B w0 sc by0 pat = Ok l /\
             w' = record_event (EFindElements sc by0 pat) w0.
Proof.
  revert w. induction polls as [|k IH]; intros w; [discriminate|].
  cbn [until_loop].
  assert (Hafter : forall w1, after_attempt end_time poll
             (until_loop B k end_time poll ign sc by0 pat) w1 = (Ok l, w') ->
             exists w0, find_elements B w0 sc by0 pat = Ok l /\
                        w' = record_event (EFindElements sc by0 pat) w0).
  { intros w1 H. unfold after_attempt in H. inv_bind H as u w2 Hs.
    destruct (end_time <? now w2)%Z; [discriminate|]. exact (IH _ H). }
  unfold query. destruct (find_elements B w sc by0 pat) as [[|x xs]|e] eqn:Eq.
  - apply Hafter.
  - intros [= <- <-]. exists w. split; [exact Eq|reflexivity].
  - destruct (exn_in e ign); [apply Hafter|discriminate].
Qed.

(** The two ways in which the wait of [find] returns: [None], when the
    wait has ended in [TimeoutException]; or the list that the browser
    gave in answer to the last query, then stored in [eles] with the time
    of the return. *)
Lemma wait_and_store_outcome self o sc st v st' :
  wait_and_store B self o sc st = (Ok v, st') ->
  exists pat,
    pattern o = Some pat /\
    ((v = PNone /\
      exists w', until B sc (timeout o) (gap o) (ignore o) (by_ o) pat (session st)
                 = (Err TimeoutException, w') /\
                 st' = {| objects := objects st; session := w' |}) \/
     (exists l w0 o',
        v = PElements l /\ l <> [] /\
        find_elements B w0 sc (by_ o) pat = Ok l /\
        session st' = record_event (EFindElements sc (by_ o) pat) w0 /\
        objects st' !! self = Some o' /\ eles o' = Some l /\
        last_found o' = now (session st'))).
Proof.
  intros H. pose proof (wait_and_store_Ok_inv _ _ _ _ _ _ H) as Hshape.
  unfold wait_and_store in H. destruct (pattern o) as [pat|]; [|discriminate].
  exists pat. split; [reflexivity|]. unfold try_except in H.
  match type of H with context [bind ?m ?k st] =>
    destruct (bind m k st) as [[v0|e] s0] eqn:E end.
  - injection H as <- <-. right.
    inv_bind E as l s1 Hu. inv_bind E as u1 s2 Hm1. inv_bind E as t s3 Ht.
    inv_bind E as u2 s4 Hm2. unfold ret in E. injection E as <- <-.
    apply on_heap_modify_inv in Hm1 as (o1 & Ho1 & ->).
    unfold time_time in Ht. injection Ht as <- <-.
    apply on_heap_modify_inv in Hm2 as (o2 & Ho2 & ->). cbn [objects session] in *.
    pose proof (lookup_lt_Some _ _ _ Ho1) as Hlt.
    rewrite list_lookup_insert_eq in Ho2 by exact Hlt. injection Ho2 as <-.
    unfold on_session in Hu. destruct (until _ _ _ _ _ _ _ _) as [r w] eqn:Eu.
    injection Hu as -> <-. cbn [objects session] in *.
    unfold until in Eu.
    destruct (until_loop_answer _ _ _ _ _ _ _ _ _ _ Eu) as (w0 & Hans & ->).
    exists l, w0, (set_last_found (now w0) (set_eles (Some l) o1)).
    split; [reflexivity|]. split; [eapply until_loop_nonempty; exact Eu|].
    split; [exact Hans|]. split; [reflexivity|]. split; [|split; reflexivity].
    apply list_lookup_insert_eq. rewrite length_insert. exact Hlt.
  - destruct (exn_eqb e TimeoutException) eqn:Ee; [|discriminate].
    unfold ret in H. injection H as <- <-. left. split; [reflexivity|].
    assert (e = TimeoutException) as -> by (destruct e; try discriminate Ee; reflexivity).
    apply bind_Err_inv in E as [E|(l & s1 & Hu & E)].
    + unfold on_session in E. destruct (until _ _ _ _ _ _ _ _) as [r w] eqn:Eu.
      injection E as -> <-. exists w. split; reflexivity.
    + exfalso. apply bind_Err_inv in E as [E|(u1 & s2 & Hm1 & E)].
      { unfold on_heap, modify in E. destruct (objects s1 !! self); discriminate. }
      apply bind_Err_inv in E as [E|(t & s3 & Ht & E)]; [discriminate|].
      apply bind_Err_inv in E as [E|(u2 & s4 & Hm2 & E)]; [|discriminate].
      unfold on_heap, modify in E. destruct (objects s3 !! self); discriminate.
Qed.

(** A list returned to [ele] by [find] is the list stored in [eles]. *)
Lemma find_ele_stores depth self st l st' :
  find B depth self "ele" st = (Ok (PElements l), st') ->
  exists o', objects st' !! self = Some o' /\ eles o' = Some l.
Proof.
  destruct depth as [|d]; [discriminate|]. cbn [find]. intros H.
  apply require_driver_inv in H as (o & Ho & _ & H).
  unfold find_body in H. rewrite (bind_Ok_step _ _ _ _ _ (on_heap_get _ _ _ Ho)) in H.
  unfold time_time at 1 in H. unfold bind at 1 in H.
  assert (Hrefresh : forall st0,
    (drop_cache self ;;; sc <- search_scope (find B d) o ;; wait_and_store B self o sc) st0
      = (Ok (PElements l), st') ->
    exists o', objects st' !! self = Some o' /\ eles o' = Some l).
  { intros st0 H0. inv_bind H0 as u s1 Hd. inv_bind H0 as sc s2 Hs.
    apply wait_and_store_Ok_inv in H0 as [?|(l' & o' & Hv & _ & Ho' & He)]; [discriminate|].
    injection Hv as <-. eauto. }
  destruct (eles o) as [l0|] eqn:He; [|exact (Hrefresh _ H)].
  destruct (_ <? _)%Z; [|exact (Hrefresh _ H)].
  cbn in H. injection H as <- <-. eauto.
Qed.

(** C6. When the resolution made by the accessor succeeds with a list of
    matches no longer than [order], [ele] returns [None]; no indexing
    error is raised. *)
Theorem ele_out_of_range_is_None :
  forall (depth : nat) (self : ref) (st st' : state) (l : list WebElement) (o' : PageObject),
    find B depth self "ele" st = (Ok (PElements l), st') ->
    objects st' !! self = Some o' ->
    (Z.of_nat (length l) <= order o')%Z ->
    ele B depth self st = (Ok PNone, st').
Proof.
  intros depth self st st' l o' Hfind Ho Hlen.
  destruct (find_ele_stores _ _ _ _ _ Hfind) as (o1 & Ho1 & He).
  assert (o1 = o') as -> by congruence.
  unfold ele. rewrite (ele_via_found _ _ _ _ _ _ Hfind Ho).
  unfold pick, count. rewrite He.
  destruct (Z.ltb_spec (order o') (Z.of_nat (length l))); [lia|reflexivity].
Qed.


Lemma list_getitem_negative {A} (l : list A) (i : Z) :
  (i < 0)%Z ->
  ((- Z.of_nat (length l) <= i)%Z ->
     exists x, l !! Z.to_nat (Z.of_nat (length l) + i) = Some x /\ list_getitem l i = Ok x) /\
  ((i < - Z.of_nat (length l))%Z -> list_getitem l i = Err IndexError).
Proof.
  intros Hneg. unfold list_getitem.
  destruct (Z.ltb_spec i 0) as [_|]; [|lia]. split; intros H.
  - destruct (Z.leb_spec 0 (i + Z.of_nat (length l))) as [_|]; [|lia].
    destruct (Z.ltb_spec (i + Z.of_nat (length l)) (Z.of_nat (length l))) as [_|]; [|lia].
    cbn [andb]. replace (Z.of_nat (length l) + i)%Z with (i + Z.of_nat (length l))%Z by lia.
    destruct (lookup_lt_is_Some_2 l (Z.to_nat (i + Z.of_nat (length l)))) as [x Hx]; [lia|].
    exists x. rewrite Hx. split; reflexivity.
  - destruct (Z.leb_spec 0 (i + Z.of_nat (length l))) as [|_]; [lia|]. reflexivity.
Qed.

(** C10. For a negative [order] the bounds check [order < count] always
    passes, and the accessor indexes the list with it.  It returns the
    match counted from the end of the list when [-count <= order].  When
    [order < -count] the index is out of range and the accessor raises
    [IndexError]: this is a defect of the code, whose check bounds [order]
    from above only, while the docstring of [ele] promises [None] whenever
    no element is returned. *)
Theorem ele_negative_order :
  forall (depth : nat) (self : ref) (st st' : state) (l : list WebElement) (o' : PageObject),
    find B depth self "ele" st = (Ok (PElements l), st') ->
    objects st' !! self = Some o' ->
    (order o' < 0)%Z ->
    (order o' <? count o')%Z = true /\
    ((- Z.of_nat (length l) <= order o')%Z ->
       exists e, l !! Z.to_nat (Z.of_nat (length l) + order o') = Some e /\
                 ele B depth self st = (Ok (PElement e), st')) /\
    ((order o' < - Z.of_nat (length l))%Z ->
       ele B depth self st = (Err IndexError, st')).
Proof.
  intros depth self st st' l o' Hfind Ho Hneg.
  destruct (find_ele_stores _ _ _ _ _ Hfind) as (o1 & Ho1 & He).
  assert (o1 = o') as -> by congruence.
  assert (Hcheck : (order o' <? count o')%Z = true).
  { unfold count. rewrite He. apply Z.ltb_lt. lia. }
  split; [exact Hcheck|].
  unfold ele. rewrite (ele_via_found _ _ _ _ _ _ Hfind Ho).
  unfold pick. rewrite Hcheck, He. cbn [getitem].
  destruct (list_getitem_negative l (order o') Hneg) as [Hin Hout].
  split; intros H.
  - destruct (Hin H) as (x & Hx & Hg). exists x. rewrite Hg. split; [exact Hx|reflexivity].
  - rewrite (Hout H). reflexivity.
Qed.

(** *** The cache *)

Lemma find_cached_ele d self st o l :
  objects st !! self = Some o -> driver o <> None -> eles o = Some l ->
  (now (session st) - last_found o < gap o)%Z ->
  find B (S d) self "ele" st = (Ok (PElements l), st).
Proof.
  intros Ho Hd He Hgap. cbn [find]. rewrite (require_driver_run _ _ _ _ Ho Hd).
  unfold find_body. rewrite (bind_Ok_step _ _ _ _ _ (on_heap_get _ _ _ Ho)).
  unfold time_time at 1. unfold bind at 1. rewrite He.
  destruct (Z.ltb_spec (now (session st) - last_found o) (gap o)) as [_|]; [|lia].
  reflexivity.
Qed.

Lemma find_cached_default d self src st o l :
  objects st !! self = Some o -> driver o <> None -> eles o = Some l ->
  (now (session st) - last_found o < gap o)%Z ->
  String.eqb src "ele" = false ->
  find B (S (S d)) self src st = (pick o, st).
Proof.
  intros Ho Hd He Hgap Hsrc. cbn [find]. rewrite (require_driver_run _ _ _ _ Ho Hd).
  unfold find_body. rewrite (bind_Ok_step _ _ _ _ _ (on_heap_get _ _ _ Ho)).
  unfold time_time at 1. unfold bind at 1. rewrite He.
  destruct (Z.ltb_spec (now (session st) - last_found o) (gap o)) as [_|]; [|lia].
  rewrite Hsrc.
  apply (ele_via_found _ _ _ l); [|exact Ho].
  apply (find_cached_ele d self st o l Ho Hd He Hgap).
Qed.

Lemma find_cached_state depth self src st o l :
  objects st !! self = Some o -> eles o = Some l ->
  (now (session st) - last_found o < gap o)%Z ->
  snd (find B depth self src st) = st.
Proof.
  intros Ho He Hgap. destruct depth as [|d]; [reflexivity|].
  destruct (driver o) as [dr|] eqn:Hd.
  2:{ cbn [find]. unfold require_driver.
      rewrite (bind_Ok_step _ _ _ _ _ (on_heap_get _ _ _ Ho)). rewrite Hd. reflexivity. }
  assert (Hd' : driver o <> None) by congruence.
  destruct (String.eqb src "ele") eqn:Hsrc.
  - apply String.eqb_eq in Hsrc. subst src.
    rewrite (find_cached_ele d self st o l Ho Hd' He Hgap). reflexivity.
  - destruct d as [|d].
    + cbn [find]. rewrite (require_driver_run _ _ _ _ Ho Hd').
      unfold find_body. rewrite (bind_Ok_step _ _ _ _ _ (on_heap_get _ _ _ Ho)).
      unfold time_time at 1. unfold bind at 1. rewrite He.
      destruct (Z.ltb_spec (now (session st) - last_found o) (gap o)) as [_|]; [|lia].
      rewrite Hsrc. reflexivity.
    + rewrite (find_cached_default d self src st o l Ho Hd' He Hgap Hsrc). reflexivity.
Qed.

End ResolverFacts.

(** *** The polling wait *)

Section WaitFacts.

Variable B : Browser.

(** The log only grows during the wait. *)
Lemma until_loop_log polls end_time poll ign sc by0 pat w r w' :
  until_loop B polls end_time poll ign sc by0 pat w = (r, w') ->
  exists evs, log w' = evs ++ log w.
Proof.
  revert w. induction polls as [|k IH]; intros w.
  - intros [= _ <-]. exists []. reflexivity.
  - cbn [until_loop].
    assert (Hafter : forall w1, log w1 = EFindElements sc by0 pat :: log w ->
              after_attempt end_time poll (until_loop B k end_time poll ign sc by0 pat) w1 = (r, w') ->
              exists evs, log w' = evs ++ log w).
    { intros w1 Hw1 H. unfold after_attempt, bind in H.
      unfold sleep in H. destruct (poll <? 0)%Z.
      - injection H as _ <-. exists [EFindElements sc by0 pat]. exact Hw1.
      - destruct (end_time <? now (elapse poll w1))%Z.
        + injection H as _ <-. exists [EFindElements sc by0 pat]. exact Hw1.
        + apply IH in H as [evs Hevs]. exists (evs ++ [EFindElements sc by0 pat]).
          rewrite Hevs. cbn [elapse log]. rewrite Hw1. rewrite <- app_assoc. reflexivity. }
    unfold query.
    destruct (find_elements B w sc by0 pat) as [[|x xs]|e].
    + apply Hafter. reflexivity.
    + intros [= _ <-]. exists [EFindElements sc by0 pat]. reflexivity.
    + destruct (exn_in e ign); [apply Hafter; reflexivity|].
      intros [= _ <-]. exists [EFindElements sc by0 pat]. reflexivity.
Qed.

(** The wait asks the browser at least once, first of all. *)
Lemma until_first_query sc timeout0 poll ign by0 pat w r w' :
  until B sc timeout0 poll ign by0 pat w = (r, w') ->
  exists evs, log w' = evs ++ EFindElements sc by0 pat :: log w.
Proof.
  unfold until, poll_bound. cbn [until_loop].
  set (poll' := if (poll =? 0)%Z then POLL_FREQUENCY else poll).
  set (k := Z.to_nat (timeout0 / poll')).
  set (ign' := IGNORED_EXCEPTIONS ++ ign).
  assert (Hafter : forall w1, log w1 = EFindElements sc by0 pat :: log w ->
            after_attempt (now w + timeout0) poll'
              (until_loop B k (now w + timeout0) poll' ign' sc by0 pat) w1 = (r, w') ->
            exists evs, log w' = evs ++ EFindElements sc by0 pat :: log w).
  { intros w1 Hw1 H. unfold after_attempt, bind in H.
    unfold sleep in H. destruct (poll' <? 0)%Z.
    - injection H as _ <-. exists []. exact Hw1.
    - destruct (_ <? now (elapse poll' w1))%Z.
      + injection H as _ <-. exists []. exact Hw1.
      + apply until_loop_log in H as [evs Hevs]. exists evs.
        rewrite Hevs. cbn [elapse log]. rewrite Hw1. reflexivity. }
  unfold query.
  destruct (find_elements B w sc by0 pat) as [[|x xs]|e].
  - apply Hafter. reflexivity.
  - intros [= _ <-]. exists []. reflexivity.
  - destruct (exn_in e ign'); [apply Hafter; reflexivity|].
    intros [= _ <-]. exists []. reflexivity.
Qed.

(** Allowing more attempts than [poll_bound] changes nothing: by then the
    deadline has passed. *)
Lemma until_loop_enough_polls_aux end_time poll ign sc by0 pat :
  (0 < poll)%Z ->
  forall n w k,
    (end_time - now w < Z.of_nat (S n) * poll)%Z ->
    until_loop B (S n + k) end_time poll ign sc by0 pat w =
    until_loop B (S n) end_time poll ign sc by0 pat w.
Proof.
  intros Hpoll. induction n as [|n IH]; intros w k Hlt.
  - cbn [until_loop Nat.add].
    assert (Hafter : forall w1 again again', now w1 = now w ->
              after_attempt end_time poll again w1 = after_attempt end_time poll again' w1).
    { intros w1 again again' Hnow. unfold after_attempt, bind, sleep.
      destruct (Z.ltb_spec poll 0); [reflexivity|].
      destruct (Z.ltb_spec end_time (now (elapse poll w1))) as [|Hge]; [reflexivity|].
      cbn [elapse now] in Hge. lia. }
    unfold query. destruct (find_elements B w sc by0 pat) as [[|x xs]|e].
    + apply Hafter. reflexivity.
    + reflexivity.
    + destruct (exn_in e ign); [apply Hafter; reflexivity|reflexivity].
  - change (S (S n) + k) with (S (S n + k)).
    cbn [until_loop].
    assert (Hafter : forall w1, now w1 = now w ->
              after_attempt end_time poll (until_loop B (S n + k) end_time poll ign sc by0 pat) w1 =
              after_attempt end_time poll (until_loop B (S n) end_time poll ign sc by0 pat) w1).
    { intros w1 Hnow. unfold after_attempt, bind, sleep.
      destruct (Z.ltb_spec poll 0); [reflexivity|].
      destruct (Z.ltb_spec end_time (now (elapse poll w1))) as [|Hge]; [reflexivity|].
      apply IH. cbn [elapse now]. lia. }
    unfold query. destruct (find_elements B w sc by0 pat) as [[|x xs]|e].
    + apply Hafter. reflexivity.
    + reflexivity.
    + destruct (exn_in e ign); [apply Hafter; reflexivity|reflexivity].
Qed.

Lemma until_loop_enough_polls timeout0 poll ign sc by0 pat w k :
  (0 < poll)%Z ->
  until_loop B (poll_bound timeout0 poll + k) (now w + timeout0) poll ign sc by0 pat w =
  until_loop B (poll_bound timeout0 poll) (now w + timeout0) poll ign sc by0 pat w.
Proof.
  intros Hpoll. unfold poll_bound. apply until_loop_enough_polls_aux; [exact Hpoll|].
  pose proof (Z.div_mod timeout0 poll ltac:(lia)) as Hdm.
  pose proof (Z.mod_pos_bound timeout0 poll Hpoll) as Hmod.
  assert (timeout0 / poll <= Z.of_nat (Z.to_nat (timeout0 / poll)))%Z by lia.
  nia.
Qed.

(** A wait in which every attempt comes back empty, or fails in an
    ignored way, ends in [TimeoutException]. *)
Lemma until_loop_all_fail polls end_time poll ign sc by0 pat :
  (0 <= poll)%Z ->
  (forall w, find_elements B w sc by0 pat = Ok [] \/
             exists e, find_elements B w sc by0 pat = Err e /\ exn_in e ign = true) ->
  forall w, exists w', until_loop B polls end_time poll ign sc by0 pat w = (Err TimeoutException, w').
Proof.
  intros Hpoll Hfail. induction polls as [|k IH]; intros w.
  - exists w. reflexivity.
  - cbn [until_loop].
    assert (Hafter : forall w1, exists w',
              after_attempt end_time poll (until_loop B k end_time poll ign sc by0 pat) w1
              = (Err TimeoutException, w')).
    { intros w1. unfold after_attempt, bind, sleep.
      destruct (Z.ltb_spec poll 0); [lia|].
      destruct (_ <? _)%Z; [eexists; reflexivity|apply IH]. }
    unfold query. destruct (Hfail w) as [He|(e & He & Hi)]; rewrite He.
    + apply Hafter.
    + rewrite Hi. apply Hafter.
Qed.

Lemma until_all_fail sc timeout0 poll ign by0 pat :
  (0 <= poll)%Z ->
  (forall w, find_elements B w sc by0 pat = Ok [] \/
             exists e, find_elements B w sc by0 pat = Err e /\
                       exn_in e (IGNORED_EXCEPTIONS ++ ign) = true) ->
  forall w, exists w', until B sc timeout0 poll ign by0 pat w = (Err TimeoutException, w').
Proof.
  intros Hpoll Hfail w. unfold until. apply until_loop_all_fail; [|exact Hfail].
  destruct (poll =? 0)%Z; [unfold POLL_FREQUENCY|]; lia.
Qed.

End WaitFacts.

Section FindFacts.

Variable B : Browser.

Lemma wait_and_store_timeout self o sc st pat w2 :
  pattern o = Some pat ->
  until B sc (timeout o) (gap o) (ignore o) (by_ o) pat (session st)
    = (Err TimeoutException, w2) ->
  wait_and_store B self o sc st = (Ok PNone, {| objects := objects st; session := w2 |}).
Proof.
  intros Hp Hu. unfold wait_and_store. rewrite Hp.
  unfold try_except, bind, on_session. rewrite Hu. reflexivity.
Qed.

Lemma wait_and_store_session self o sc st pat r st' :
  pattern o = Some pat ->
  wait_and_store B self o sc st = (r, st') ->
  exists r1, until B sc (timeout o) (gap o) (ignore o) (by_ o) pat (session st)
             = (r1, session st').
Proof.
  intros Hp. unfold wait_and_store. rewrite Hp.
  unfold try_except, bind, on_session, on_heap, modify, time_time, ret.
  destruct (until B sc _ _ _ _ _ _) as [[l|e] w2]; cbn [objects session].
  - destruct (objects st !! self) as [o1|] eqn:E1; cbn [objects session].
    + rewrite list_lookup_insert_eq by (eapply lookup_lt_Some; exact E1).
      intros [= _ <-]. eauto.
    + intros [= _ <-]. eauto.
  - destruct (exn_eqb e TimeoutException); intros [= _ <-]; eauto.
Qed.

Lemma drop_cache_run self st o :
  objects st !! self = Some o ->
  drop_cache self st =
  (Ok tt, {| objects := <[self := set_eles None o]> (objects st); session := session st |}).
Proof. intros Ho. unfold drop_cache, on_heap, modify. rewrite Ho. reflexivity. Qed.

(** The scope of a root, and of a descriptor below a frame-marked parent,
    is the session: nothing has to be resolved first. *)
Lemma search_scope_root findf o st :
  pre_ele o = None -> search_scope findf o st = (Ok ScopeDriver, st).
Proof. intros Hp. unfold search_scope. rewrite Hp. reflexivity. Qed.

Lemma search_scope_below_frame findf o p po st :
  pre_ele o = Some p -> objects st !! p = Some po -> is_frame po = true ->
  search_scope findf o st = (Ok ScopeDriver, st).
Proof.
  intros Hp Hpo Hf. unfold search_scope. rewrite Hp.
  rewrite (bind_Ok_step _ _ _ _ _ (on_heap_get _ _ _ Hpo)). rewrite Hf. reflexivity.
Qed.

(** The body of [find] when the cache cannot be used. *)
Lemma find_refresh d self src st o :
  objects st !! self = Some o -> driver o <> None ->
  (eles o = None \/ (gap o <= now (session st) - last_found o)%Z) ->
  find B (S d) self src st =
  (drop_cache self ;;;
   sc <- search_scope (find B d) o ;;
   wait_and_store B self o sc) st.
Proof.
  intros Ho Hd Hmiss. cbn [find]. rewrite (require_driver_run _ _ _ _ Ho Hd).
  unfold find_body. rewrite (bind_Ok_step _ _ _ _ _ (on_heap_get _ _ _ Ho)).
  unfold time_time at 1. unfold bind at 1.
  destruct (eles o) as [l|] eqn:He; [|reflexivity].
  destruct Hmiss as [|Hexp]; [discriminate|].
  destruct (Z.ltb_spec (now (session st) - last_found o) (gap o)); [lia|reflexivity].
Qed.

(** C4. When the cache cannot be used and the search scope is determined,
    a wait that ends without a non-empty list of matches, that is with the
    [TimeoutException] of the wait, makes [find] return [None] to its
    caller: the exception does not propagate.  This is in particular the
    case, whatever the timeout and the poll interval, hence the number of
    attempts, when every attempt comes back empty or fails in an ignored
    way. *)
Theorem find_timeout_is_None :
  forall (d : nat) (self : ref) (src : string) (st st0 st1 : state) (o : PageObject)
         (pat : string) (sc : scope),
    objects st !! self = Some o ->
    driver o <> None ->
    (eles o = None \/ (gap o <= now (session st) - last_found o)%Z) ->
    pattern o = Some pat ->
    drop_cache self st = (Ok tt, st0) ->
    search_scope (find B d) o st0 = (Ok sc, st1) ->
    (forall w2,
        until B sc (timeout o) (gap o) (ignore o) (by_ o) pat (session st1)
          = (Err TimeoutException, w2) ->
        find B (S d) self src st = (Ok PNone, {| objects := objects st1; session := w2 |})) /\
    ((0 <= gap o)%Z ->
     (forall w, find_elements B w sc (by_ o) pat = Ok [] \/
                exists e, find_elements B w sc (by_ o) pat = Err e /\
                          exn_in e (IGNORED_EXCEPTIONS ++ ignore o) = true) ->
     exists w2,
       find B (S d) self src st = (Ok PNone, {| objects := objects st1; session := w2 |})).
Proof.
  intros d self src st st0 st1 o pat sc Ho Hd Hmiss Hp Hdrop Hsc.
  assert (Hgen : forall w2,
    until B sc (timeout o) (gap o) (ignore o) (by_ o) pat (session st1)
      = (Err TimeoutException, w2) ->
    find B (S d) self src st = (Ok PNone, {| objects := objects st1; session := w2 |})).
  { intros w2 Hu. rewrite (find_refresh d self src st o Ho Hd Hmiss).
    rewrite (bind_Ok_step _ _ _ _ _ Hdrop). rewrite (bind_Ok_step _ _ _ _ _ Hsc).
    exact (wait_and_store_timeout self o sc st1 pat w2 Hp Hu). }
  split; [exact Hgen|].
  intros Hgap Hfail.
  destruct (until_all_fail B sc (timeout o) (gap o) (ignore o) (by_ o) pat Hgap Hfail
              (session st1)) as [w2 Hu].
  exists w2. exact (Hgen w2 Hu).
Qed.

(** C5, amended. For a descriptor holding the matches of an earlier
    resolution: while less than [gap] has elapsed, [find] leaves the
    session (and the store) untouched, so the browser receives no query;
    once [gap] or more has elapsed and the search scope of the descriptor
    is determined, [find] sends a fresh query for the descriptor in that
    scope; for a descriptor without parent the scope is the session and
    the query is always sent. *)
Theorem cache_window :
  forall (self : ref) (st : state) (o : PageObject) (l : list WebElement),
    objects st !! self = Some o ->
    eles o = Some l ->
    ((now (session st) - last_found o < gap o)%Z ->
       forall depth src, snd (find B depth self src st) = st) /\
    ((gap o <= now (session st) - last_found o)%Z ->
       forall d src pat st0 sc st1,
         driver o <> None ->
         pattern o = Some pat ->
         drop_cache self st = (Ok tt, st0) ->
         search_scope (find B d) o st0 = (Ok sc, st1) ->
         exists evs,
           log (session (snd (find B (S d) self src st)))
           = evs ++ EFindElements sc (by_ o) pat :: log (session st1)) /\
    ((gap o <= now (session st) - last_found o)%Z ->
       forall d src pat,
         driver o <> None ->
         pattern o = Some pat ->
         pre_ele o = None ->
         exists evs,
           log (session (snd (find B (S d) self src st)))
           = evs ++ EFindElements ScopeDriver (by_ o) pat :: log (session st)).
Proof.
  intros self st o l Ho He.
  assert (Hfresh : (gap o <= now (session st) - last_found o)%Z ->
    forall d src pat st0 sc st1,
      driver o <> None -> pattern o = Some pat ->
      drop_cache self st = (Ok tt, st0) ->
      search_scope (find B d) o st0 = (Ok sc, st1) ->
      exists evs,
        log (session (snd (find B (S d) self src st)))
        = evs ++ EFindElements sc (by_ o) pat :: log (session st1)).
  { intros Hexp d src pat st0 sc st1 Hd Hp Hdrop Hsc.
    rewrite (find_refresh d self src st o Ho Hd (or_intror Hexp)).
    rewrite (bind_Ok_step _ _ _ _ _ Hdrop). rewrite (bind_Ok_step _ _ _ _ _ Hsc).
    destruct (wait_and_store B self o sc st1) as [r st'] eqn:Hw.
    destruct (wait_and_store_session _ _ _ _ _ _ _ Hp Hw) as [r1 Hu].
    cbn [snd]. exact (until_first_query B _ _ _ _ _ _ _ _ _ Hu). }
  split; [|split].
  - intros Hgap depth src. exact (find_cached_state B depth self src st o l Ho He Hgap).
  - exact Hfresh.
  - intros Hexp d src pat Hd Hp Hroot.
    exact (Hfresh Hexp d src pat _ ScopeDriver _ Hd Hp (drop_cache_run self st o Ho)
             (search_scope_root (find B d) o _ Hroot)).
Qed.

(** C2, amended. What [find] returns.  Without a usable cache, a query
    is made in the scope that the search for the parent has determined,
    and [find] returns either [None], when the wait has ended in
    [TimeoutException], or the list of matches: a non-empty list, which is
    the answer of the browser to the last query that the session has
    received, in the order of that answer, and which is stored in [eles]
    with the time of the return.  On a cache hit, [find] returns the
    stored list only for the call made by [ele] ([src = "ele"]), and for
    every other caller, the default argument included, what the accessor
    picks: the single element at [order], or [None] when [order] is not
    below the number of matches. *)
Theorem find_result_shape :
  forall (depth : nat) (self : ref) (src : string) (st st' : state)
         (o : PageObject) (v : pyval),
    objects st !! self = Some o ->
    find B depth self src st = (Ok v, st') ->
    let fresh :=
      exists pat sc st1,
        pattern o = Some pat /\
        search_scope (find B (Nat.pred depth)) o (cache_dropped self o st) = (Ok sc, st1) /\
        ((v = PNone /\
          exists w', until B sc (timeout o) (gap o) (ignore o) (by_ o) pat (session st1)
                     = (Err TimeoutException, w') /\
                     st' = {| objects := objects st1; session := w' |}) \/
         (exists l' w0 o',
            v = PElements l' /\ l' <> [] /\
            find_elements B w0 sc (by_ o) pat = Ok l' /\
            session st' = record_event (EFindElements sc (by_ o) pat) w0 /\
            objects st' !! self = Some o' /\ eles o' = Some l' /\
            last_found o' = now (session st'))) in
    match eles o with
    | Some l =>
        if (now (session st) - last_found o <? gap o)%Z
        then st' = st /\
             (if String.eqb src "ele" then v = PElements l else pick o = Ok v)
        else fresh
    | None => fresh
    end.
Proof.
  intros depth self src st st' o v Ho Hfind fresh.
  destruct depth as [|d]; [discriminate|].
  assert (Hd : driver o <> None).
  { cbn [find] in Hfind. apply require_driver_inv in Hfind as (o1 & Ho1 & Hd & _). congruence. }
  assert (Hfresh : (eles o = None \/ (gap o <= now (session st) - last_found o)%Z) -> fresh).
  { intros Hmiss. rewrite (find_refresh d self src st o Ho Hd Hmiss) in Hfind.
    rewrite (bind_Ok_step _ _ _ _ _ (drop_cache_run self st o Ho)) in Hfind.
    fold (cache_dropped self o st) in Hfind.
    inv_bind Hfind as sc s1 Hsc.
    destruct (wait_and_store_outcome B _ _ _ _ _ _ Hfind) as (pat & Hpat & Hout).
    exists pat, sc, s1. cbn [Nat.pred]. split; [exact Hpat|]. split; [exact Hsc|exact Hout]. }
  destruct (eles o) as [l|] eqn:He; [|apply Hfresh; left; reflexivity].
  destruct (Z.ltb_spec (now (session st) - last_found o) (gap o)) as [Hgap|Hexp];
    [|apply Hfresh; right; exact Hexp].
  destruct (String.eqb src "ele") eqn:Hsrc.
  - apply String.eqb_eq in Hsrc. subst src.
    rewrite (find_cached_ele B d self st o l Ho Hd He Hgap) in Hfind.
    injection Hfind as <- <-. split; reflexivity.
  - destruct d as [|d].
    + cbn [find] in Hfind. rewrite (require_driver_run _ _ _ _ Ho Hd) in Hfind.
      unfold find_body in Hfind. rewrite (bind_Ok_step _ _ _ _ _ (on_heap_get _ _ _ Ho)) in Hfind.
      unfold time_time at 1 in Hfind. unfold bind at 1 in Hfind. rewrite He in Hfind.
      destruct (Z.ltb_spec (now (session st) - last_found o) (gap o)); [|lia].
      rewrite Hsrc in Hfind. discriminate.
    + rewrite (find_cached_default B d self src st o l Ho Hd He Hgap Hsrc) in Hfind.
      injection Hfind as Hv <-. split; [reflexivity|exact Hv].
Qed.

End FindFacts.

(** ** The frame switch around an action *)

Section ActionFacts.

Variable B : Browser.

Lemma enter_frame_mark depth obj st o f m st1 :
  objects st !! obj = Some o -> frame o = Some f ->
  enter_frame B depth obj st = (Ok m, st1) ->
  m = true /\ exists e, current (session st1) = InFrame e.
Proof.
  intros Ho Hf H. unfold enter_frame in H.
  rewrite (bind_Ok_step _ _ _ _ _ (on_heap_get _ _ _ Ho)) in H. rewrite Hf in H.
  inv_bind H as v s1 Hfind. destruct (is_None v); [discriminate|].
  inv_bind H as fo s2 Hget. inv_bind H as e s3 Hitem. inv_bind H as u s4 Hsw.
  unfold ret in H. injection H as <- <-. split; [reflexivity|].
  exists e. unfold on_session, do_switch_to_frame in Hsw.
  destruct (switch_to_frame B (session s3) e); [discriminate|].
  injection Hsw as _ <-. reflexivity.
Qed.

Lemma switch_frame_returns {A} depth (func : ref -> M state A) obj st o f a st' :
  objects st !! obj = Some o -> frame o = Some f ->
  switch_frame B depth func obj st = (Ok a, st') ->
  current (session st') = Top /\
  exists evs, log (session st') = ESwitchToDefaultContent :: evs.
Proof.
  intros Ho Hf H. unfold switch_frame in H.
  inv_bind H as m s1 Henter. inv_bind H as r s2 Hfunc. inv_bind H as u s3 Hback.
  unfold ret in H. injection H as _ <-.
  destruct (enter_frame_mark _ _ _ _ _ _ _ Ho Hf Henter) as [-> _].
  unfold on_session, do_switch_to_default_content in Hback. injection Hback as _ <-.
  split; [reflexivity|]. eexists. reflexivity.
Qed.

(** C1, amended. For a descriptor whose frame is set: when [click],
    [send_keys] or any action wrapped by [switch_frame] returns normally,
    the session is back in the top-level context, the switch being the last
    call it received; when the wrapped action raises after the frame was
    entered, the exception propagates from the state the action left and
    no switch back is made. *)
Theorem switch_frame_restores_on_return :
  forall (depth : nat) (obj : ref) (st : state) (o : PageObject) (f : ref),
    objects st !! obj = Some o ->
    frame o = Some f ->
    (forall a st', click B depth obj st = (Ok a, st') -> current (session st') = Top) /\
    (forall value a st',
        send_keys B depth value obj st = (Ok a, st') -> current (session st') = Top) /\
    (forall (func : ref -> M state pyval) a st',
        switch_frame B depth func obj st = (Ok a, st') ->
        current (session st') = Top /\
        exists evs, log (session st') = ESwitchToDefaultContent :: evs) /\
    (forall (func : ref -> M state pyval) st1 e st2,
        enter_frame B depth obj st = (Ok true, st1) ->
        func obj st1 = (Err e, st2) ->
        switch_frame B depth func obj st = (Err e, st2)).
Proof.
  intros depth obj st o f Ho Hf. split; [|split; [|split]].
  - intros a st' H. unfold click in H.
    apply require_driver_inv in H as (_ & _ & _ & H).
    exact (proj1 (switch_frame_returns _ _ _ _ _ _ _ _ Ho Hf H)).
  - intros value a st' H. unfold send_keys in H.
    apply require_driver_inv in H as (_ & _ & _ & H).
    exact (proj1 (switch_frame_returns _ _ _ _ _ _ _ _ Ho Hf H)).
  - intros func a st' H. exact (switch_frame_returns _ _ _ _ _ _ _ _ Ho Hf H).
  - intros func st1 e st2 Henter Hfunc. unfold switch_frame.
    rewrite (bind_Ok_step _ _ _ _ _ Henter). exact (bind_Err_step _ _ _ _ _ Hfunc).
Qed.

End ActionFacts.

(** ** The properties on the sample sessions *)

Ltac evaluates := vm_compute; first [reflexivity | discriminate | intros ?; discriminate].

Lemma switch_frame_restores_on_return_witness :
  objects (ready doc_framed_button) !! 1 = Some (obj_at (ready doc_framed_button) 1) /\
  frame (obj_at (ready doc_framed_button) 1) = Some 0 /\
  current (session (snd (click browser_click_accepted 8 1 (ready doc_framed_button)))) = Top.
Proof.
  split; [evaluates|]. split; [evaluates|].
  refine (proj1 (switch_frame_restores_on_return browser_click_accepted 8 1
                   (ready doc_framed_button) (obj_at (ready doc_framed_button) 1) 0 _ _)
                PNone _ _); evaluates.
Defined.

(** C1, as stated, fails: the frame is found and entered, the click is
    refused by the browser, the exception reaches the caller, and the
    session is still inside the frame, the refused click being the last
    call it received. *)
Lemma click_refused_stays_in_frame :
  frame (obj_at (ready doc_framed_button) 1) = Some 0 /\
  fst (click browser_click_refused 8 1 (ready doc_framed_button)) = Err WebDriverException /\
  current (session (snd (click browser_click_refused 8 1 (ready doc_framed_button)))) = InFrame 1 /\
  head (log (session (snd (click browser_click_refused 8 1 (ready doc_framed_button))))) =
    Some (EClick 2).
Proof. repeat split; evaluates. Qed.

Lemma find_result_shape_witness :
  objects items_resolved !! 0 = Some (obj_at items_resolved 0) /\
  find browser_two_items 8 0 "" items_resolved = (Ok (PElement 10), items_resolved) /\
  pick (obj_at items_resolved 0) = Ok (PElement 10) /\
  find browser_two_items 8 0 "" (ready doc_items) = (Ok (PElements [10; 11]), items_resolved) /\
  (exists pat sc st1,
     pattern (obj_at (ready doc_items) 0) = Some pat /\
     search_scope (find browser_two_items 7) (obj_at (ready doc_items) 0)
       (cache_dropped 0 (obj_at (ready doc_items) 0) (ready doc_items)) = (Ok sc, st1) /\
     ((PElements [10; 11] = PNone /\
       exists w', until browser_two_items sc (timeout (obj_at (ready doc_items) 0))
                    (gap (obj_at (ready doc_items) 0)) (ignore (obj_at (ready doc_items) 0))
                    (by_ (obj_at (ready doc_items) 0)) pat (session st1)
                  = (Err TimeoutException, w') /\
                  items_resolved = {| objects := objects st1; session := w' |}) \/
      (exists l' w0 o',
         PElements [10; 11] = PElements l' /\ l' <> [] /\
         find_elements browser_two_items w0 sc (by_ (obj_at (ready doc_items) 0)) pat = Ok l' /\
         session items_resolved
         = record_event (EFindElements sc (by_ (obj_at (ready doc_items) 0)) pat) w0 /\
         objects items_resolved !! 0 = Some o' /\ eles o' = Some l' /\
         last_found o' = now (session items_resolved)))).
Proof.
  split; [evaluates|]. split; [evaluates|]. split.
  - exact (proj2 (find_result_shape browser_two_items 8 0 "" items_resolved items_resolved
                    (obj_at items_resolved 0) (PElement 10)
                    ltac:(evaluates) ltac:(evaluates))).
  - split; [evaluates|].
    exact (find_result_shape browser_two_items 8 0 "" (ready doc_items) items_resolved
             (obj_at (ready doc_items) 0) (PElements [10; 11])
             ltac:(evaluates) ltac:(evaluates)).
Defined.

(** C2, as stated, fails: the first call of [find()] queries the browser
    and returns the list of the two matches; the second call, made at once,
    is answered from the cache and returns the first match alone. *)
Lemma cached_find_returns_one_element :
  fst (find browser_two_items 8 0 "" (ready doc_items)) = Ok (PElements [10; 11]) /\
  fst (find browser_two_items 8 0 "" items_resolved) = Ok (PElement 10).
Proof. split; evaluates. Qed.

Lemma find_timeout_is_None_witness :
  find browser_nothing 1 0 "" (ready doc_items) =
  (Ok PNone,
   {| objects := objects (snd (drop_cache 0 (ready doc_items)));
      session := snd (until browser_nothing ScopeDriver 5000 1000 [NoSuchElementException]
                        "css selector" "li" (session (ready doc_items))) |}).
Proof.
  apply (proj1 (find_timeout_is_None browser_nothing 0 0 "" (ready doc_items)
           (snd (drop_cache 0 (ready doc_items))) (snd (drop_cache 0 (ready doc_items)))
           (obj_at (ready doc_items) 0) "li" ScopeDriver
           ltac:(evaluates) ltac:(evaluates) ltac:(left; evaluates) ltac:(evaluates)
           ltac:(evaluates) ltac:(evaluates))).
  evaluates.
Defined.

Lemma cache_window_witness :
  objects items_resolved !! 0 = Some (obj_at items_resolved 0) /\
  eles (obj_at items_resolved 0) = Some [10; 11] /\
  snd (find browser_two_items 8 0 "" (later 999 items_resolved)) = later 999 items_resolved /\
  exists evs,
    log (session (snd (find browser_two_items 1 0 "" (later 1000 items_resolved)))) =
    evs ++ EFindElements ScopeDriver "css selector" "li" :: log (session items_resolved).
Proof.
  split; [evaluates|]. split; [evaluates|]. split.
  - apply (proj1 (cache_window browser_two_items 0 (later 999 items_resolved)
                    (obj_at items_resolved 0) [10; 11] ltac:(evaluates) ltac:(evaluates)));
      evaluates.
  - apply (proj1 (proj2 (cache_window browser_two_items 0 (later 1000 items_resolved)
                    (obj_at items_resolved 0) [10; 11] ltac:(evaluates) ltac:(evaluates)))
             ltac:(evaluates) 0 "" "li"
             (snd (drop_cache 0 (later 1000 items_resolved))) ScopeDriver
             (snd (drop_cache 0 (later 1000 items_resolved))));
      evaluates.
Defined.

(** C5, as stated, fails in its second half: the cell was resolved six
    seconds ago, so its cache has expired; its parent row, resolved again
    one second ago, holds a single match while its [order] is 1; the new
    resolution of the cell ends in "ancestor not found" and the browser has
    received no query. *)
Lemma expired_cell_is_not_queried :
  fst (find browser_rows_shrink 8 1 "" (ready doc_row_cell)) = Ok (PElements [20]) /\
  eles (obj_at rows_before_cell_again 1) = Some [20] /\
  (gap (obj_at rows_before_cell_again 1)
     <= now (session rows_before_cell_again) - last_found (obj_at rows_before_cell_again 1))%Z /\
  fst (find browser_rows_shrink 8 1 "" rows_before_cell_again) = Err NoSuchElementException /\
  log (session (snd (find browser_rows_shrink 8 1 "" rows_before_cell_again))) =
    log (session rows_before_cell_again).
Proof. repeat split; evaluates. Qed.

Lemma ele_out_of_range_is_None_witness :
  fst (find browser_one_item 8 0 "ele" (ready (doc_order 2))) = Ok (PElements [10]) /\
  order (obj_at (ready (doc_order 2)) 0) = 2%Z /\
  fst (ele browser_one_item 8 0 (ready (doc_order 2))) = Ok PNone.
Proof.
  split; [evaluates|]. split; [evaluates|].
  rewrite (ele_out_of_range_is_None browser_one_item 8 0 (ready (doc_order 2))
             (snd (find browser_one_item 8 0 "ele" (ready (doc_order 2)))) [10]
             (obj_at (snd (find browser_one_item 8 0 "ele" (ready (doc_order 2)))) 0)
             ltac:(evaluates) ltac:(evaluates) ltac:(evaluates)).
  reflexivity.
Defined.

Lemma ele_negative_order_witness :
  order (obj_at (ready (doc_order (-1))) 0) = (-1)%Z /\
  fst (find browser_one_item 8 0 "ele" (ready (doc_order (-1)))) = Ok (PElements [10]) /\
  exists e, [10] !! Z.to_nat (1 + -1) = Some e /\
            fst (ele browser_one_item 8 0 (ready (doc_order (-1)))) = Ok (PElement e).
Proof.
  split; [evaluates|]. split; [evaluates|].
  destruct (proj1 (proj2 (ele_negative_order browser_one_item 8 0 (ready (doc_order (-1)))
             (snd (find browser_one_item 8 0 "ele" (ready (doc_order (-1))))) [10]
             (obj_at (snd (find browser_one_item 8 0 "ele" (ready (doc_order (-1))))) 0)
             ltac:(evaluates) ltac:(evaluates) ltac:(evaluates))) ltac:(evaluates))
    as (e & He & Hele).
  exists e. split; [exact He|]. rewrite Hele. reflexivity.
Defined.

(** C10, the failing input: with [order = -2] and a single match the
    resolution succeeds and the bounds check passes, and the accessor
    raises [IndexError], where it should return a match or [None]. *)
Lemma ele_order_minus_two_raises :
  fst (find browser_one_item 8 0 "ele" (ready (doc_order (-2)))) = Ok (PElements [10]) /\
  fst (ele browser_one_item 8 0 (ready (doc_order (-2)))) = Err IndexError.
Proof. split; evaluates. Qed.

Lemma same_tree_refl h : same_tree h h.
Proof. reflexivity. Qed.

Lemma same_tree_trans h1 h2 h3 : same_tree h1 h2 -> same_tree h2 h3 -> same_tree h1 h3.
Proof. unfold same_tree. congruence. Qed.

Lemma same_tree_lookup h h' i o :
  same_tree h h' -> h !! i = Some o ->
  exists o', h' !! i = Some o' /\ forget_cache o' = forget_cache o.
Proof.
  unfold same_tree. intros Heq Ho.
  assert (Hm : map forget_cache h' !! i = Some (forget_cache o)).
  { rewrite Heq. rewrite list_lookup_fmap. rewrite Ho. reflexivity. }
  rewrite list_lookup_fmap in Hm. destruct (h' !! i) as [o'|]; [|discriminate].
  exists o'. split; [reflexivity|]. cbn in Hm. congruence.
Qed.

Lemma same_tree_insert h i o (f : PageObject -> PageObject) :
  h !! i = Some o -> forget_cache (f o) = forget_cache o ->
  same_tree h (<[i := f o]> h).
Proof.
  intros Ho Hf. unfold same_tree. rewrite list_fmap_insert. rewrite Hf.
  apply list_insert_id. rewrite list_lookup_fmap. rewrite Ho. reflexivity.
Qed.

Lemma keeps_ret {A} (a : A) : keeps_tree (ret a).
Proof. intros st r st' [= _ <-]. apply same_tree_refl. Qed.

Lemma keeps_raise {A} e : keeps_tree (@raise state A e).
Proof. intros st r st' [= _ <-]. apply same_tree_refl. Qed.

Lemma keeps_lift_res {A} (x : res A) : keeps_tree (lift_res x).
Proof. intros st r st' [= _ <-]. apply same_tree_refl. Qed.

Lemma keeps_bind {A C} (m : M state A) (k : A -> M state C) :
  keeps_tree m -> (forall a, keeps_tree (k a)) -> keeps_tree (bind m k).
Proof.
  intros Hm Hk st r st'. unfold bind. destruct (m st) as [[a|e] s1] eqn:E.
  - intros H. exact (same_tree_trans _ _ _ (Hm _ _ _ E) (Hk a _ _ _ H)).
  - intros [= _ <-]. exact (Hm _ _ _ E).
Qed.

Lemma keeps_try_except {A} (m : M state A) exc (hd : M state A) :
  keeps_tree m -> keeps_tree hd -> keeps_tree (try_except m exc hd).
Proof.
  intros Hm Hh st r st'. unfold try_except. destruct (m st) as [[a|e] s1] eqn:E.
  - intros [= _ <-]. exact (Hm _ _ _ E).
  - destruct (exn_eqb e exc).
    + intros H. exact (same_tree_trans _ _ _ (Hm _ _ _ E) (Hh _ _ _ H)).
    + intros [= _ <-]. exact (Hm _ _ _ E).
Qed.

Lemma keeps_on_session {A} (m : M world A) : keeps_tree (on_session m).
Proof.
  intros st r st'. unfold on_session. destruct (m (session st)) as [x w].
  intros [= _ <-]. apply same_tree_refl.
Qed.

Lemma keeps_time_time : keeps_tree time_time.
Proof. intros st r st' [= _ <-]. apply same_tree_refl. Qed.

Lemma keeps_get r : keeps_tree (on_heap (get r)).
Proof.
  intros st x st'. unfold on_heap, get. destruct (objects st !! r); intros [= _ <-];
    apply same_tree_refl.
Qed.

Lemma keeps_modify r f :
  (forall o, forget_cache (f o) = forget_cache o) -> keeps_tree (on_heap (modify r f)).
Proof.
  intros Hf st x st'. unfold on_heap, modify. destruct (objects st !! r) as [o|] eqn:Ho;
    intros [= _ <-]; cbn [objects].
  - apply same_tree_insert; [exact Ho|apply Hf].
  - apply same_tree_refl.
Qed.

Lemma keeps_require_driver {A} (func : ref -> M state A) obj :
  keeps_tree (func obj) -> keeps_tree (require_driver func obj).
Proof.
  intros Hf. unfold require_driver. apply keeps_bind; [apply keeps_get|].
  intros o. destruct (driver o); [exact Hf|apply keeps_raise].
Qed.

Section Keeps.

Variable B : Browser.

Lemma keeps_ele_getter findf self :
  (forall r s, keeps_tree (findf r s)) -> keeps_tree (ele_getter findf self).
Proof.
  intros Hf. unfold ele_getter. apply keeps_bind; [apply Hf|].
  intros v. destruct (is_None v); [apply keeps_ret|].
  apply keeps_bind; [apply keeps_get|]. intros o. apply keeps_lift_res.
Qed.

Lemma keeps_ele_via findf self :
  (forall r s, keeps_tree (findf r s)) -> keeps_tree (ele_via findf self).
Proof.
  intros Hf. unfold ele_via.
  apply keeps_try_except; [apply keeps_ele_getter; exact Hf|].
  apply keeps_try_except; [apply keeps_ele_getter; exact Hf|].
  intros st r st'. unfold ele_fallback.
  destruct (child_named _ _ _); intros [= _ <-]; apply same_tree_refl.
Qed.

Lemma keeps_search_scope findf o :
  (forall r s, keeps_tree (findf r s)) -> keeps_tree (search_scope findf o).
Proof.
  intros Hf. unfold search_scope. destruct (pre_ele o) as [p|]; [|apply keeps_ret].
  apply keeps_bind; [apply keeps_get|]. intros po.
  destruct (is_frame po); [apply keeps_ret|].
  apply keeps_bind; [apply Hf|]. intros v.
  destruct (is_None v); [apply keeps_raise|].
  apply keeps_bind; [apply keeps_ele_via; exact Hf|].
  intros t. destruct t; first [apply keeps_ret | apply keeps_raise].
Qed.

Lemma keeps_wait_and_store self o sc : keeps_tree (wait_and_store B self o sc).
Proof.
  unfold wait_and_store. destruct (pattern o); [|apply keeps_raise].
  apply keeps_try_except; [|apply keeps_ret].
  apply keeps_bind; [apply keeps_on_session|]. intros l.
  apply keeps_bind; [apply keeps_modify; reflexivity|]. intros _.
  apply keeps_bind; [apply keeps_time_time|]. intros t.
  apply keeps_bind; [apply keeps_modify; reflexivity|]. intros _.
  apply keeps_ret.
Qed.

Lemma keeps_find depth : forall self src, keeps_tree (find B depth self src).
Proof.
  induction depth as [|d IH]; intros self src; [apply keeps_raise|].
  cbn [find]. apply keeps_require_driver. unfold find_body.
  apply keeps_bind; [apply keeps_get|]. intros o.
  apply keeps_bind; [apply keeps_time_time|]. intros t.
  assert (Hrefresh : keeps_tree (drop_cache self ;;;
            sc <- search_scope (find B d) o ;; wait_and_store B self o sc)).
  { apply keeps_bind; [apply keeps_modify; reflexivity|]. intros _.
    apply keeps_bind; [apply keeps_search_scope; exact IH|]. intros sc.
    apply keeps_wait_and_store. }
  destruct (eles o) as [l|]; [|exact Hrefresh].
  destruct (_ <? _)%Z; [|exact Hrefresh].
  destruct (String.eqb src "ele"); [apply keeps_ret|].
  apply keeps_ele_via. exact IH.
Qed.

Lemma keeps_ele depth self : keeps_tree (ele B depth self).
Proof. apply keeps_ele_via. apply keeps_find. Qed.

Lemma keeps_delegated {A} depth (method : WebElement -> M world A) :
  forall c, keeps_tree (delegated B depth c method).
Proof.
  induction depth as [|d IH]; intros c; [apply keeps_raise|].
  cbn [delegated]. apply keeps_bind; [apply keeps_ele|].
  intros v. destruct v; first [apply keeps_on_session | apply keeps_raise | apply IH].
Qed.

Lemma keeps_on_ele {A} depth obj (method : WebElement -> M world A) :
  keeps_tree (on_ele B depth obj method).
Proof.
  unfold on_ele. apply keeps_bind; [apply keeps_ele|].
  intros v. destruct v;
    first [apply keeps_on_session | apply keeps_raise | apply keeps_delegated].
Qed.

Lemma keeps_switch_frame {A} depth (func : ref -> M state A) obj :
  keeps_tree (func obj) -> keeps_tree (switch_frame B depth func obj).
Proof.
  intros Hf. unfold switch_frame. apply keeps_bind.
  - unfold enter_frame. apply keeps_bind; [apply keeps_get|]. intros o.
    destruct (frame o) as [f|]; [|apply keeps_ret].
    apply keeps_bind; [apply keeps_find|]. intros v.
    destruct (is_None v); [apply keeps_raise|].
    apply keeps_bind; [apply keeps_get|]. intros fo.
    apply keeps_bind; [apply keeps_lift_res|]. intros e.
    apply keeps_bind; [apply keeps_on_session|]. intros _. apply keeps_ret.
  - intros mark. apply keeps_bind; [exact Hf|]. intros r.
    apply keeps_bind; [|intros _; apply keeps_ret].
    destruct mark; [apply keeps_on_session|apply keeps_ret].
Qed.

Lemma keeps_highlight {A} depth (func : ref -> M state A) obj :
  keeps_tree (func obj) -> keeps_tree (highlight B depth func obj).
Proof.
  intros Hf. unfold highlight.
  apply keeps_bind; [apply keeps_on_ele|]. intros style.
  apply keeps_bind; [apply keeps_ele|]. intros a.
  apply keeps_bind; [apply keeps_on_session|]. intros _.
  apply keeps_bind; [exact Hf|]. intros r.
  apply keeps_bind; [|intros _; apply keeps_ret].
  apply keeps_try_except; [|apply keeps_ret].
  apply keeps_bind; [apply keeps_ele|]. intros a'. apply keeps_on_session.
Qed.

Lemma keeps_take_screenshot obj phase f : keeps_tree (take_screenshot B obj phase f).
Proof.
  unfold take_screenshot. apply keeps_bind; [apply keeps_time_time|]. intros t.
  apply keeps_bind; [apply keeps_get|]. intros o.
  destruct (name o); [apply keeps_on_session|apply keeps_raise].
Qed.

Lemma keeps_screenshot {A} f (func : ref -> M state A) obj :
  keeps_tree (func obj) -> keeps_tree (screenshot B f func obj).
Proof.
  intros Hf. unfold screenshot.
  apply keeps_bind; [apply keeps_take_screenshot|]. intros _.
  apply keeps_bind; [exact Hf|]. intros r.
  apply keeps_bind; [apply keeps_take_screenshot|]. intros _. apply keeps_ret.
Qed.

Lemma keeps_decorated depth f (body : ref -> M state pyval) obj :
  (forall self, keeps_tree (body self)) ->
  keeps_tree (decorated B depth f body obj).
Proof.
  intros Hbody. unfold decorated.
  apply keeps_require_driver, keeps_switch_frame, keeps_highlight, keeps_screenshot, Hbody.
Qed.

Lemma keeps_act_on_ele depth method (on_child : ref -> M state pyval) self :
  (forall c, keeps_tree (on_child c)) ->
  keeps_tree (act_on_ele B depth method on_child self).
Proof.
  intros Hchild. unfold act_on_ele. apply keeps_bind; [apply keeps_ele|].
  intros v. destruct v; first [apply keeps_raise | apply Hchild | idtac].
  apply keeps_bind; [apply keeps_on_session|]. intros _. apply keeps_ret.
Qed.

Lemma keeps_click_child depth : forall c, keeps_tree (click_child B depth c).
Proof.
  induction depth as [|d IH]; intros c; [apply keeps_raise|].
  cbn [click_child]. apply keeps_decorated. intros self.
  apply keeps_act_on_ele. exact IH.
Qed.

Lemma keeps_send_keys_child depth value :
  forall c, keeps_tree (send_keys_child B depth value c).
Proof.
  induction depth as [|d IH]; intros c; [apply keeps_raise|].
  cbn [send_keys_child]. apply keeps_decorated. intros self.
  apply keeps_act_on_ele. exact IH.
Qed.

(** X5. [find], [ele], [click] and [send_keys] write nothing in the store
    but the resolution caches, whether they return or raise: from any
    state, with any browser, the store afterwards has as many objects, and
    each of them differs from what it was in [eles] and [last_found] at
    most. *)
Theorem resolution_keeps_the_tree :
  forall (depth : nat) (self : ref) (src : string) (value : list string) (st : state),
    same_tree (objects st) (objects (snd (find B depth self src st))) /\
    same_tree (objects st) (objects (snd (ele B depth self st))) /\
    same_tree (objects st) (objects (snd (click B depth self st))) /\
    same_tree (objects st) (objects (snd (send_keys B depth value self st))).
Proof.
  intros depth self src value st.
  assert (Hrun : forall A (m : M state A), keeps_tree m ->
                   same_tree (objects st) (objects (snd (m st)))).
  { intros A m Hm. destruct (m st) as [r st'] eqn:E. exact (Hm st r st' E). }
  split; [apply Hrun, keeps_find|]. split; [apply Hrun, keeps_ele|].
  split; apply Hrun.
  - unfold click. apply keeps_decorated. intros obj.
    apply keeps_act_on_ele. apply keeps_click_child.
  - unfold send_keys. apply keeps_decorated. intros obj.
    apply keeps_act_on_ele. apply keeps_send_keys_child.
Qed.

End Keeps.

Section Failures.

Variable B : Browser.

Lemma require_driver_refuses {A} (func : ref -> M state A) obj st o :
  objects st !! obj = Some o -> driver o = None ->
  require_driver func obj st = (Err AttributeError, st).
Proof.
  intros Ho Hd. unfold require_driver.
  rewrite (bind_Ok_step _ _ _ _ _ (on_heap_get _ _ _ Ho)). rewrite Hd. reflexivity.
Qed.

(** X1. Without a session attached, [find], [click] and [send_keys]
    raise [AttributeError] and leave the state as it is: no call reaches
    the browser.  So does the getter of [ele], at each of its two runs;
    the attribute [ele] is then the child named [ele] when the object has
    one, and raises [AttributeError] otherwise, the state being left as it
    is in both cases. *)
Theorem no_driver_no_action :
  forall (d : nat) (obj : ref) (src : string) (value : list string)
         (st : state) (o : PageObject),
    objects st !! obj = Some o ->
    driver o = None ->
    find B (S d) obj src st = (Err AttributeError, st) /\
    ele B (S d) obj st =
      (match child_named (objects st) obj "ele" with
       | Some c => Ok (PObject c)
       | None => Err AttributeError
       end, st) /\
    click B d obj st = (Err AttributeError, st) /\
    send_keys B d value obj st = (Err AttributeError, st).
Proof.
  intros d obj src value st o Ho Hd.
  assert (Hfind : forall s, find B (S d) obj s st = (Err AttributeError, st)).
  { intros s. cbn [find]. exact (require_driver_refuses _ obj st o Ho Hd). }
  split; [apply Hfind|]. split.
  - assert (Hget : ele_getter (find B (S d)) obj st = (Err AttributeError, st)).
    { unfold ele_getter. exact (bind_Err_step _ _ _ _ _ (Hfind "ele")). }
    unfold ele, ele_via, try_except. rewrite Hget. cbn [exn_eqb]. rewrite Hget.
    cbn [exn_eqb]. unfold ele_fallback. destruct (child_named _ _ _); reflexivity.
  - split; [unfold click | unfold send_keys]; unfold decorated;
      exact (require_driver_refuses _ obj st o Ho Hd).
Qed.

Lemma enter_frame_not_found depth obj st o f st1 :
  objects st !! obj = Some o -> frame o = Some f ->
  find B depth f "" st = (Ok PNone, st1) ->
  enter_frame B depth obj st = (Err NoSuchFrameException, st1).
Proof.
  intros Ho Hf Hfind. unfold enter_frame.
  rewrite (bind_Ok_step _ _ _ _ _ (on_heap_get _ _ _ Ho)). rewrite Hf.
  rewrite (bind_Ok_step _ _ _ _ _ Hfind). reflexivity.
Qed.

(** X2. When the frame of a descriptor is looked for and not found,
    [click], [send_keys] and any function under [switch_frame] raise
    [NoSuchFrameException] in the state that the search for the frame
    left: the function is not run, and no context switch is made. *)
Theorem frame_not_found_stops_the_action :
  forall (depth : nat) (obj f : ref) (value : list string) (st st1 : state) (o : PageObject),
    objects st !! obj = Some o ->
    driver o <> None ->
    frame o = Some f ->
    find B depth f "" st = (Ok PNone, st1) ->
    click B depth obj st = (Err NoSuchFrameException, st1) /\
    send_keys B depth value obj st = (Err NoSuchFrameException, st1) /\
    (forall func : ref -> M state pyval,
        switch_frame B depth func obj st = (Err NoSuchFrameException, st1)).
Proof.
  intros depth obj f value st st1 o Ho Hd Hf Hfind.
  assert (Hsw : forall func : ref -> M state pyval,
             switch_frame B depth func obj st = (Err NoSuchFrameException, st1)).
  { intros func. unfold switch_frame.
    exact (bind_Err_step _ _ _ _ _ (enter_frame_not_found _ _ _ _ _ _ Ho Hf Hfind)). }
  split; [|split; [|exact Hsw]].
  - unfold click, decorated. rewrite (require_driver_run _ _ _ _ Ho Hd). apply Hsw.
  - unfold send_keys, decorated. rewrite (require_driver_run _ _ _ _ Ho Hd). apply Hsw.
Qed.

(** X3. A descriptor without usable cache, whose parent is not a frame:
    when the parent is looked for and not found, [find] raises
    [NoSuchElementException], in the state that the search for the parent
    left; the descriptor's own pattern is not queried. *)
Theorem parent_not_found_raises :
  forall (d : nat) (self p : ref) (src : string) (st st1 : state) (o po : PageObject),
    objects st !! self = Some o ->
    driver o <> None ->
    (eles o = None \/ (gap o <= now (session st) - last_found o)%Z) ->
    pre_ele o = Some p ->
    objects (cache_dropped self o st) !! p = Some po ->
    is_frame po = false ->
    find B d p "" (cache_dropped self o st) = (Ok PNone, st1) ->
    find B (S d) self src st = (Err NoSuchElementException, st1).
Proof.
  intros d self p src st st1 o po Ho Hd Hmiss Hpre Hpo Hfr Hfind.
  rewrite (find_refresh B d self src st o Ho Hd Hmiss).
  rewrite (bind_Ok_step _ _ _ _ _ (drop_cache_run self st o Ho)).
  fold (cache_dropped self o st).
  apply bind_Err_step. unfold search_scope. rewrite Hpre.
  rewrite (bind_Ok_step _ _ _ _ _ (on_heap_get _ _ _ Hpo)). rewrite Hfr.
  rewrite (bind_Ok_step _ _ _ _ _ Hfind). reflexivity.
Qed.

Lemma until_first_failure sc timeout0 poll ign by0 pat w e :
  find_elements B w sc by0 pat = Err e ->
  exn_in e (IGNORED_EXCEPTIONS ++ ign) = false ->
  until B sc timeout0 poll ign by0 pat w = (Err e, record_event (EFindElements sc by0 pat) w).
Proof.
  intros He Hi. unfold until, poll_bound. cbn [until_loop]. unfold query.
  rewrite He, Hi. reflexivity.
Qed.

(** X4. When the first query of the wait fails with an exception that is
    not ignored ([NoSuchElementException] and those of [ignore]), [find]
    stops after that one query, without sleeping: the exception is raised
    to the caller, unless it is [TimeoutException], which the handler of
    [find] turns into [None]. *)
Theorem other_failure_propagates_at_once :
  forall (d : nat) (self : ref) (src : string) (st st1 : state) (o : PageObject)
         (pat : string) (sc : scope) (e : exn),
    objects st !! self = Some o ->
    driver o <> None ->
    (eles o = None \/ (gap o <= now (session st) - last_found o)%Z) ->
    pattern o = Some pat ->
    search_scope (find B d) o (cache_dropped self o st) = (Ok sc, st1) ->
    find_elements B (session st1) sc (by_ o) pat = Err e ->
    exn_in e (IGNORED_EXCEPTIONS ++ ignore o) = false ->
    find B (S d) self src st =
    (if exn_eqb e TimeoutException then Ok PNone else Err e,
     {| objects := objects st1;
        session := record_event (EFindElements sc (by_ o) pat) (session st1) |}).
Proof.
  intros d self src st st1 o pat sc e Ho Hd Hmiss Hp Hsc He Hi.
  rewrite (find_refresh B d self src st o Ho Hd Hmiss).
  rewrite (bind_Ok_step _ _ _ _ _ (drop_cache_run self st o Ho)).
  fold (cache_dropped self o st). rewrite (bind_Ok_step _ _ _ _ _ Hsc).
  unfold wait_and_store. rewrite Hp. unfold try_except, bind, on_session.
  rewrite (until_first_failure sc (timeout o) (gap o) (ignore o) (by_ o) pat _ e He Hi).
  destruct (exn_eqb e TimeoutException); reflexivity.
Qed.

(** X19. When the element of a descriptor without frame is not found,
    [click] and [send_keys] raise [AttributeError], in the state that the
    search left: [highlight] asks [None] for [get_attribute], and neither
    a script, nor a screenshot, nor the action reaches the browser. *)
Theorem action_on_missing_element_raises :
  forall (depth : nat) (obj : ref) (value : list string) (st st1 : state) (o : PageObject),
    objects st !! obj = Some o ->
    driver o <> None ->
    frame o = None ->
    ele B depth obj st = (Ok PNone, st1) ->
    click B depth obj st = (Err AttributeError, st1) /\
    send_keys B depth value obj st = (Err AttributeError, st1).
Proof.
  intros depth obj value st st1 o Ho Hd Hfr Hele.
  assert (Hact : forall f (act : ref -> M state pyval),
    require_driver (switch_frame B depth (highlight B depth (screenshot B f act))) obj st
    = (Err AttributeError, st1)).
  { intros f act. rewrite (require_driver_run _ _ _ _ Ho Hd).
    assert (Henter : enter_frame B depth obj st = (Ok false, st)).
    { unfold enter_frame. rewrite (bind_Ok_step _ _ _ _ _ (on_heap_get _ _ _ Ho)).
      rewrite Hfr. reflexivity. }
    unfold switch_frame. rewrite (bind_Ok_step _ _ _ _ _ Henter). apply bind_Err_step.
    unfold highlight. apply bind_Err_step. unfold on_ele.
    rewrite (bind_Ok_step _ _ _ _ _ Hele). reflexivity. }
  split; [unfold click | unfold send_keys]; apply Hact.
Qed.

End Failures.

Section CacheFacts.

Variable B : Browser.

Lemma forget_cache_fields o o' :
  forget_cache o' = forget_cache o ->
  driver o' = driver o /\ gap o' = gap o /\ order o' = order o /\
  pre_ele o' = pre_ele o /\ frame o' = frame o /\ is_frame o' = is_frame o /\
  name o' = name o /\ pattern o' = pattern o.
Proof.
  intros H.
  pose proof (f_equal driver H). pose proof (f_equal gap H). pose proof (f_equal order H).
  pose proof (f_equal pre_ele H). pose proof (f_equal frame H).
  pose proof (f_equal is_frame H). pose proof (f_equal name H).
  pose proof (f_equal pattern H). cbn in *. repeat split; assumption.
Qed.

(** What a successful wait leaves in the object. *)
Lemma wait_and_store_found_inv self o sc st l st' :
  wait_and_store B self o sc st = (Ok (PElements l), st') ->
  exists o1, objects st !! self = Some o1 /\
             objects st' !! self
             = Some (set_last_found (now (session st')) (set_eles (Some l) o1)).
Proof.
  unfold wait_and_store. destruct (pattern o) as [pat|]; [|discriminate].
  unfold try_except.
  match goal with |- context [bind ?m ?k st] => destruct (bind m k st) as [[v0|e] s0] eqn:E end.
  - intros [= -> <-].
    inv_bind E as l1 s1 Hu. inv_bind E as u1 s2 Hm1. inv_bind E as t s3 Ht.
    inv_bind E as u2 s4 Hm2. unfold ret in E. injection E as <- <-.
    apply on_heap_modify_inv in Hm1 as (o1 & Ho1 & ->).
    unfold time_time in Ht. injection Ht as <- <-.
    apply on_heap_modify_inv in Hm2 as (o2 & Ho2 & ->). cbn [objects session] in *.
    unfold on_session in Hu. destruct (until _ _ _ _ _ _ _ _) as [r w] eqn:Eu.
    injection Hu as _ <-. cbn [objects session] in *.
    pose proof (lookup_lt_Some _ _ _ Ho1) as Hlt.
    rewrite list_lookup_insert_eq in Ho2 by exact Hlt. injection Ho2 as <-.
    exists o1. split; [exact Ho1|].
    apply list_lookup_insert_eq. rewrite length_insert. exact Hlt.
  - destruct (exn_eqb e TimeoutException); [|discriminate].
    unfold ret. intros H. discriminate H.
Qed.

(** A list returned by [find] is in the cache, and the cache is valid at
    the instant of the return when [gap] is positive. *)
Lemma find_list_cached d self src st l st' o :
  objects st !! self = Some o -> (0 < gap o)%Z ->
  find B (S d) self src st = (Ok (PElements l), st') ->
  exists o', objects st' !! self = Some o' /\ forget_cache o' = forget_cache o /\
             eles o' = Some l /\ driver o' <> None /\
             (now (session st') - last_found o' < gap o')%Z.
Proof.
  intros Ho Hgap Hfind.
  pose proof (keeps_find B (S d) self src _ _ _ Hfind) as Hkeep.
  destruct (same_tree_lookup _ _ _ _ Hkeep Ho) as (o' & Ho' & Hsame).
  destruct (forget_cache_fields _ _ Hsame) as (Hdr & Hg & _).
  assert (Hd : driver o <> None).
  { cbn [find] in Hfind. apply require_driver_inv in Hfind as (o1 & Ho1 & Hd & _). congruence. }
  exists o'. split; [exact Ho'|]. split; [exact Hsame|].
  cbn [find] in Hfind. rewrite (require_driver_run _ _ _ _ Ho Hd) in Hfind.
  unfold find_body in Hfind. rewrite (bind_Ok_step _ _ _ _ _ (on_heap_get _ _ _ Ho)) in Hfind.
  unfold time_time at 1 in Hfind. unfold bind at 1 in Hfind.
  assert (Hrefresh :
    (drop_cache self ;;; sc <- search_scope (find B d) o ;; wait_and_store B self o sc) st
      = (Ok (PElements l), st') ->
    eles o' = Some l /\ driver o' <> None /\
    (now (session st') - last_found o' < gap o')%Z).
  { intros H. inv_bind H as u s0 Hdrop. inv_bind H as sc s1 Hsc.
    apply wait_and_store_found_inv in H as (o1 & Ho1 & Hst').
    rewrite Hst' in Ho'. injection Ho' as <-. cbn.
    split; [reflexivity|]. split; [cbn in Hdr; congruence|]. cbn in Hg. lia. }
  destruct (eles o) as [l0|] eqn:He; [|exact (Hrefresh Hfind)].
  destruct (Z.ltb_spec (now (session st) - last_found o) (gap o)) as [Hin|];
    [|exact (Hrefresh Hfind)].
  destruct (String.eqb src "ele").
  - unfold ret in Hfind. injection Hfind as <- <-.
    assert (o' = o) as -> by congruence. split; [exact He|]. split; [exact Hd|exact Hin].
  - exfalso. exact (ele_via_not_list _ _ _ _ _ Hfind).
Qed.

(** X6. With a positive [gap], a list that [find] returns is what the
    object then holds: a [find] called from [ele] at the instant of the
    return gives the same list without touching the state, and [count] is
    its length. *)
Theorem found_list_is_served_again :
  forall (d d' : nat) (self : ref) (src : string) (st st' : state)
         (l : list WebElement) (o : PageObject),
    objects st !! self = Some o ->
    (0 < gap o)%Z ->
    find B (S d) self src st = (Ok (PElements l), st') ->
    find B (S d') self "ele" st' = (Ok (PElements l), st') /\
    (exists o', objects st' !! self = Some o' /\ count o' = Z.of_nat (length l)).
Proof.
  intros d d' self src st st' l o Ho Hgap Hfind.
  destruct (find_list_cached d self src st l st' o Ho Hgap Hfind)
    as (o' & Ho' & _ & He & Hd & Hin).
  split.
  - exact (find_cached_ele B d' self st' o' l Ho' Hd He Hin).
  - exists o'. split; [exact Ho'|]. unfold count. rewrite He. reflexivity.
Qed.

(** X7. When the matches are found and [order] is a valid index of the
    list, [ele] returns the match at that index. *)
Theorem ele_in_range :
  forall (depth : nat) (self : ref) (st st' : state) (l : list WebElement) (o' : PageObject),
    find B depth self "ele" st = (Ok (PElements l), st') ->
    objects st' !! self = Some o' ->
    (0 <= order o' < Z.of_nat (length l))%Z ->
    exists e, l !! Z.to_nat (order o') = Some e /\
              ele B depth self st = (Ok (PElement e), st').
Proof.
  intros depth self st st' l o' Hfind Ho Hrange.
  destruct (find_ele_stores B _ _ _ _ _ Hfind) as (o1 & Ho1 & He).
  assert (o1 = o') as -> by congruence.
  destruct (lookup_lt_is_Some_2 l (Z.to_nat (order o'))) as [e Hl]; [lia|].
  exists e. split; [exact Hl|].
  unfold ele. rewrite (ele_via_found _ _ _ _ _ _ Hfind Ho).
  unfold pick, count. rewrite He. cbn [getitem]. unfold list_getitem.
  destruct (Z.ltb_spec (order o') (Z.of_nat (length l))); [|lia].
  destruct (Z.ltb_spec (order o') 0); [lia|].
  destruct (Z.leb_spec 0 (order o')); [|lia].
  destruct (Z.ltb_spec (order o') (Z.of_nat (length l))); [|lia].
  cbn [andb]. rewrite Hl. reflexivity.
Qed.

Lemma list_getitem_elem_of {A} (l : list A) i x :
  list_getitem l i = Ok x -> x ∈ l.
Proof.
  unfold list_getitem. destruct (_ && _); [|discriminate].
  destruct (l !! _) as [y|] eqn:E; [|discriminate].
  intros [= <-]. eapply list_elem_of_lookup_2. exact E.
Qed.

(** X8. Whatever the attribute [ele] evaluates to is [None], or one of
    the elements of the list that the object holds at the return, or,
    through [__getattr__], the child named [ele] of the object; the last
    only when the getter has raised [AttributeError] at both of its
    runs. *)
Theorem ele_returns_a_match :
  forall (depth : nat) (self : ref) (st st' : state) (v : pyval),
    ele B depth self st = (Ok v, st') ->
    v = PNone \/
    (exists e o' l, v = PElement e /\ objects st' !! self = Some o' /\
                    eles o' = Some l /\ e ∈ l) \/
    (exists c st1, v = PObject c /\ child_named (objects st') self "ele" = Some c /\
                   ele_getter (find B depth) self st = (Err AttributeError, st1) /\
                   ele_getter (find B depth) self st1 = (Err AttributeError, st')).
Proof.
  intros depth self st st' v H. unfold ele in H.
  apply ele_via_value in H as [->|[(o' & Ho' & Hp)|Hchild]].
  - left. reflexivity.
  - apply pick_value in Hp as [->|(e & l & -> & He & Hg)]; [left; reflexivity|].
    right. left. exists e, o', l.
    repeat split; [exact Ho'|exact He|]. exact (list_getitem_elem_of _ _ _ Hg).
  - right. right. exact Hchild.
Qed.

(** X9. A descriptor without usable cache, whose parent is not a frame:
    when the parent's matches are found but are too few for the parent's
    [order], the parent's element is [None] and [find] raises
    [AttributeError] where it takes [find_elements] from the type of the
    scope (line 230). *)
Theorem parent_order_out_of_range_raises :
  forall (d : nat) (self p : ref) (src : string) (st st1 : state)
         (o po : PageObject) (l : list WebElement),
    objects st !! self = Some o ->
    driver o <> None ->
    (eles o = None \/ (gap o <= now (session st) - last_found o)%Z) ->
    pre_ele o = Some p ->
    objects (cache_dropped self o st) !! p = Some po ->
    is_frame po = false ->
    (0 < gap po)%Z ->
    find B d p "" (cache_dropped self o st) = (Ok (PElements l), st1) ->
    (Z.of_nat (length l) <= order po)%Z ->
    find B (S d) self src st = (Err AttributeError, st1).
Proof.
  intros d self p src st st1 o po l Ho Hd Hmiss Hpre Hpo Hfr Hgap Hfind Hord.
  rewrite (find_refresh B d self src st o Ho Hd Hmiss).
  rewrite (bind_Ok_step _ _ _ _ _ (drop_cache_run self st o Ho)).
  fold (cache_dropped self o st).
  apply bind_Err_step. unfold search_scope. rewrite Hpre.
  rewrite (bind_Ok_step _ _ _ _ _ (on_heap_get _ _ _ Hpo)). rewrite Hfr.
  rewrite (bind_Ok_step _ _ _ _ _ Hfind). cbn [is_None].
  destruct d as [|d]; [discriminate|].
  destruct (find_list_cached d p "" _ l st1 po Hpo Hgap Hfind)
    as (p1 & Hp1 & Hsame & He & Hdr & Hin).
  destruct (forget_cache_fields _ _ Hsame) as (_ & _ & Hor & _).
  assert (Hele : ele_via (find B (S d)) p st1 = (Ok PNone, st1)).
  { rewrite (ele_via_found _ _ _ l _ p1 (find_cached_ele B d p st1 p1 l Hp1 Hdr He Hin) Hp1).
    unfold pick, count. rewrite He, Hor.
    destruct (Z.ltb_spec (order po) (Z.of_nat (length l))); [lia|reflexivity]. }
  rewrite (bind_Ok_step _ _ _ _ _ Hele). reflexivity.
Qed.

End CacheFacts.

Section Sequence.

Variable B : Browser.

Lemma logged_nil st : logged st [] = st.
Proof. destruct st as [h [t c lg]]. reflexivity. Qed.

Lemma ele_cached d obj st o l :
  objects st !! obj = Some o -> driver o <> None -> eles o = Some l ->
  (now (session st) - last_found o < gap o)%Z ->
  forall evs, ele B (S d) obj (logged st evs) = (pick o, logged st evs).
Proof.
  intros Ho Hd He Hin evs. unfold ele.
  apply (ele_via_found _ _ _ l); [|exact Ho].
  apply (find_cached_ele B d obj (logged st evs) o l Ho Hd He Hin).
Qed.

Lemma on_session_logged {A} (m : M world A) st evs ev (r : res A) :
  (forall w, m w = (r, record_event ev w)) ->
  on_session m (logged st evs) = (r, logged st (ev :: evs)).
Proof. intros Hm. unfold on_session. rewrite Hm. reflexivity. Qed.

Section Cached.

Variables (d : nat) (obj : ref) (st : state) (o : PageObject) (l : list WebElement)
          (e : WebElement) (n style : string) (restored : option exn).
Hypothesis Ho : objects st !! obj = Some o.
Hypothesis Hd : driver o <> None.
Hypothesis Hn : name o = Some n.
Hypothesis He : eles o = Some l.
Hypothesis Hin : (now (session st) - last_found o < gap o)%Z.
Hypothesis Hpick : pick o = Ok (PElement e).
Hypothesis Hshot : forall w f, save_screenshot B w f = None.
Hypothesis Hstyle : forall w, get_attribute B w e "style" = Ok style.
Hypothesis Hred : forall w a, execute_script B w red_border a = None.
Hypothesis Hrestore : forall w a, execute_script B w (restore_border style) a = restored.

Lemma on_ele_cached {A} (method : WebElement -> M world A) evs :
  on_ele B (S d) obj method (logged st evs) = on_session (method e) (logged st evs).
Proof.
  unfold on_ele, bind. rewrite (ele_cached d obj st o l Ho Hd He Hin evs). rewrite Hpick.
  reflexivity.
Qed.

Lemma take_screenshot_logged phase f evs :
  take_screenshot B obj phase f (logged st evs)
  = (Ok tt, logged st (ESaveScreenshot (screenshot_file B (now (session st)) n phase f) :: evs)).
Proof.
  unfold take_screenshot, bind, time_time.
  rewrite (on_heap_get (logged st evs) obj o Ho). rewrite Hn.
  apply on_session_logged. intros w. unfold do_save_screenshot. rewrite Hshot. reflexivity.
Qed.

Lemma screenshot_logged {A} f (func : ref -> M state A) evs evs' (r : A) :
  func obj (logged st (ESaveScreenshot (screenshot_file B (now (session st)) n "before" f) :: evs))
    = (Ok r, logged st evs') ->
  screenshot B f func obj (logged st evs)
  = (Ok r, logged st (ESaveScreenshot (screenshot_file B (now (session st)) n "after" f) :: evs')).
Proof.
  intros Hf. unfold screenshot, bind. rewrite take_screenshot_logged. rewrite Hf.
  rewrite take_screenshot_logged. reflexivity.
Qed.

Lemma highlight_logged {A} (func : ref -> M state A) evs evs' (r : A) :
  func obj (logged st (EExecuteScript red_border (PElement e) :: EGetAttribute e "style" :: evs))
    = (Ok r, logged st evs') ->
  highlight B (S d) func obj (logged st evs)
  = (match restored with
     | None => Ok r
     | Some x => if exn_eqb x NoSuchElementException then Ok r else Err x
     end,
     logged st (EExecuteScript (restore_border style) (PElement e) :: evs')).
Proof.
  intros Hf. unfold highlight. unfold bind at 1. rewrite on_ele_cached.
  rewrite (on_session_logged _ st evs (EGetAttribute e "style") (Ok style)).
  2:{ intros w. unfold do_get_attribute. rewrite Hstyle. reflexivity. }
  unfold bind at 1. rewrite (ele_cached d obj st o l Ho Hd He Hin). rewrite Hpick.
  unfold bind at 1.
  rewrite (on_session_logged _ st _ (EExecuteScript red_border (PElement e)) (Ok tt)).
  2:{ intros w. unfold do_execute_script. fold red_border. rewrite Hred. reflexivity. }
  unfold bind at 1. rewrite Hf.
  unfold bind at 1. unfold try_except, bind.
  rewrite (ele_cached d obj st o l Ho Hd He Hin). rewrite Hpick.
  fold (restore_border style).
  rewrite (on_session_logged _ st _ (EExecuteScript (restore_border style) (PElement e))
             (match restored with None => Ok tt | Some x => Err x end)).
  2:{ intros w. unfold do_execute_script. rewrite Hrestore. destruct restored; reflexivity. }
  destruct restored as [x|]; [|reflexivity].
  destruct (exn_eqb x NoSuchElementException); reflexivity.
Qed.

Lemma switch_frame_without_frame {A} depth (func : ref -> M state A) evs s' (r : res A) :
  frame o = None ->
  func obj (logged st evs) = (r, s') ->
  switch_frame B depth func obj (logged st evs) = (r, s').
Proof.
  intros Hfr Hf. unfold switch_frame, enter_frame, bind.
  rewrite (on_heap_get (logged st evs) obj o Ho). rewrite Hfr. unfold ret at 1.
  rewrite Hf. destruct r; reflexivity.
Qed.

(** A decorated action on the cached element of a descriptor without
    frame. *)
Lemma decorated_action f (method : WebElement -> M world unit) on_child act :
  frame o = None ->
  (forall w, method e w = (Ok tt, record_event act w)) ->
  decorated B (S d) f (act_on_ele B (S d) method on_child) obj st
  = (match restored with
     | None => Ok PNone
     | Some x => if exn_eqb x NoSuchElementException then Ok PNone else Err x
     end,
     logged st (action_calls B (now (session st)) n f style e act)).
Proof.
  intros Hfr Hm. unfold decorated. rewrite (require_driver_run _ _ _ _ Ho Hd).
  rewrite <- (logged_nil st) at 1.
  apply switch_frame_without_frame; [exact Hfr|].
  apply highlight_logged. apply screenshot_logged.
  unfold act_on_ele, bind. rewrite (ele_cached d obj st o l Ho Hd He Hin). rewrite Hpick.
  rewrite (on_session_logged _ st _ act (Ok tt) Hm). reflexivity.
Qed.

End Cached.


(** X11. When the script that restores the border raises, [click]
    still returns [None] if the exception is [NoSuchElementException],
    and raises the exception otherwise; in both cases the six calls have
    been made. *)
Theorem failed_restore_is_tolerated_if_element_gone :
  forall (d : nat) (obj : ref) (st : state) (o : PageObject) (l : list WebElement)
         (e : WebElement) (n style : string) (x : exn),
    objects st !! obj = Some o ->
    driver o <> None ->
    frame o = None ->
    name o = Some n ->
    eles o = Some l ->
    (now (session st) - last_found o < gap o)%Z ->
    pick o = Ok (PElement e) ->
    (forall w f, save_screenshot B w f = None) ->
    (forall w e', element_click B w e' = None) ->
    (forall w, get_attribute B w e "style" = Ok style) ->
    (forall w a, execute_script B w red_border a = None) ->
    (forall w a, execute_script B w (restore_border style) a = Some x) ->
    click B (S d) obj st =
      (if exn_eqb x NoSuchElementException then Ok PNone else Err x,
       logged st (action_calls B (now (session st)) n "click" style e (EClick e))).
Proof.
  intros d obj st o l e n style x Ho Hd Hfr Hn He Hin Hpick Hshot Hclick Hstyle Hred Hrestore.
  unfold click.
  apply (decorated_action d obj st o l e n style (Some x) Ho Hd Hn He Hin Hpick Hshot Hstyle
           Hred Hrestore); [exact Hfr|].
  intros w. unfold do_click. rewrite Hclick. reflexivity.
Qed.

End Sequence.

Lemma modify_middle (h rest : heap) (x : PageObject) f :
  modify (length h) f (h ++ x :: rest) = (Ok tt, h ++ f x :: rest).
Proof.
  unfold modify. rewrite list_lookup_middle by reflexivity.
  rewrite insert_app_r_alt by lia. rewrite Nat.sub_diag. reflexivity.
Qed.

Section BuildLayout.

Variable object_dict : list string.
Variable WebElement_dict : list string.
Variable BY_LIST : list string.

Local Abbreviation entry := (init_entry object_dict WebElement_dict BY_LIST).
Local Abbreviation build := (PageObject_init object_dict WebElement_dict BY_LIST).
Local Abbreviation ok := (accepted object_dict WebElement_dict BY_LIST).

Lemma init_children_layout init lay (l : list (string * page)) :
  Forall (fun np : string * page =>
            ok (fst np) (snd np) = true ->
            forall H : heap,
              init (fst np) (snd np) (length H) (H ++ [DEFAULT_ATTRIBUTE])
              = (Ok Break, H ++ lay (fst np) (snd np) (length H))) l ->
  forallb (fun np : string * page => ok (fst np) (snd np)) l = true ->
  forall H : heap,
    init_children init l H =
    (Ok (fst (layout_children lay l (length H))),
     H ++ snd (layout_children lay l (length H))).
Proof.
  induction 1 as [|[n cfg] l Hhead _ IH]; intros Hall H.
  - cbn. rewrite app_nil_r. reflexivity.
  - cbn [forallb fst snd] in *. apply andb_prop in Hall as [Hn Hl].
    cbn [init_children layout_children]. unfold bind at 1, alloc.
    unfold bind at 1. rewrite (Hhead Hn H).
    unfold bind at 1. rewrite (IH Hl (H ++ lay n cfg (length H))).
    rewrite length_app.
    destruct (layout_children lay l (length H + length (lay n cfg (length H)))) as [ks more].
    cbn [fst snd]. unfold ret. rewrite <- app_assoc. reflexivity.
Qed.

(** On an accepted entry the loop body leaves exactly [layout]. *)
Lemma init_entry_layout pg :
  forall name0 pre fr (h : heap),
    ok name0 pg = true ->
    entry name0 pg (length h) pre fr (h ++ [DEFAULT_ATTRIBUTE])
    = (Ok Break, h ++ layout name0 pg pre fr (length h)).
Proof.
  induction pg as [pat by0 to gp ig isf ord tree IH] using page_nested_ind.
  intros name0 pre fr h Hok. cbn [accepted p_ele_tree] in Hok.
  apply andb_prop in Hok as [Hok Hkids]. apply andb_prop in Hok as [Hok Hby].
  apply andb_prop in Hok as [Hname Hpat].
  apply negb_true_iff in Hname, Hpat, Hby.
  cbn [init_entry]. rewrite Hname, Hpat, Hby.
  unfold bind at 1. rewrite modify_middle.
  cbn [p_ele_tree p_is_frame layout]. destruct tree as [l|].
  - unfold bind at 1. unfold bind at 1.
    rewrite (init_children_layout _
               (fun ele cfg c => layout ele cfg (Some (length h))
                                   (if default false isf then Some (length h) else fr) c) l).
    + rewrite length_app. cbn [length]. rewrite Nat.add_1_r.
      destruct (layout_children _ l (S (length h))) as [kids below]. cbn [fst snd].
      rewrite <- app_assoc. cbn [app].
      rewrite modify_middle. unfold bind at 1. rewrite modify_middle. reflexivity.
    + eapply Forall_impl; [exact IH|]. intros [n cfg] Hcfg Hacc H. cbn [fst snd] in *.
      apply Hcfg. exact Hacc.
    + exact Hkids.
  - unfold ret at 1. unfold bind at 1. unfold bind at 1. rewrite modify_middle. reflexivity.
Qed.

Lemma init_children_accepts init (l : list (string * page)) :
  Forall (fun np : string * page =>
            forall c h sig h', init (fst np) (snd np) c h = (Ok sig, h') ->
                               ok (fst np) (snd np) = true) l ->
  forall h ks h', init_children init l h = (Ok ks, h') ->
                  forallb (fun np : string * page => ok (fst np) (snd np)) l = true.
Proof.
  induction 1 as [|[n cfg] l Hhead _ IH]; intros h ks h' Hrun; [reflexivity|].
  cbn [init_children] in Hrun. cbn [forallb fst snd] in *.
  inv_bind Hrun as c hb Halloc. inv_bind Hrun as sig h1 Hentry. inv_bind Hrun as ks' h2 Hrest.
  rewrite (Hhead _ _ _ _ Hentry). exact (IH _ _ _ Hrest).
Qed.

(** The loop body succeeds on accepted entries only. *)
Lemma init_entry_accepts pg :
  forall name0 self pre fr h sig h',
    entry name0 pg self pre fr h = (Ok sig, h') -> ok name0 pg = true.
Proof.
  induction pg as [pat by0 to gp ig isf ord tree IH] using page_nested_ind.
  intros name0 self pre fr h sig h' Hrun. cbn [init_entry] in Hrun.
  cbn [accepted p_ele_tree].
  destruct (str_in name0 _); [discriminate|].
  destruct (pattern_missing _).
  { apply raise_ValueError_naming_fails in Hrun as [_ [e He]]. discriminate. }
  destruct (by_rejected _ _).
  { apply raise_ValueError_naming_fails in Hrun as [_ [e He]]. discriminate. }
  cbn [negb andb].
  inv_bind Hrun as u1 ha Hident. inv_bind Hrun as u2 hc Hkids.
  cbn [p_ele_tree] in Hkids. destruct tree as [l|]; [|reflexivity].
  inv_bind Hkids as kids hk Hloop.
  eapply init_children_accepts; [|exact Hloop].
  eapply Forall_impl; [exact IH|]. intros [n cfg] Hcfg c h0 sig0 h0' Hrun0. cbn [fst snd] in *.
  eapply Hcfg. exact Hrun0.
Qed.

(** The constructor on a one-entry dictionary: success exactly on accepted
    entries, and then the store grows by [layout]. *)
Lemma build_layout name0 pg pre fr (h : heap) :
  ok name0 pg = true ->
  build [(name0, pg)] pre fr h = (Ok (length h), h ++ layout name0 pg pre fr (length h)).
Proof.
  intros Hok. rewrite PageObject_init_single. unfold bind at 1, alloc.
  unfold bind at 1. rewrite (init_entry_layout pg name0 pre fr h Hok). reflexivity.
Qed.

Lemma build_accepts name0 pg pre fr (h : heap) root h' :
  build [(name0, pg)] pre fr h = (Ok root, h') -> ok name0 pg = true.
Proof.
  rewrite PageObject_init_single. intros H.
  inv_bind H as self hb Halloc. inv_bind H as sig h1 Hentry.
  exact (init_entry_accepts _ _ _ _ _ _ _ _ Hentry).
Qed.

(** X12. The constructor returns on a one-entry document exactly when
    the three checks pass on the entry and on every entry below it: no
    name is reserved, every descriptor has a [pattern], and every [by]
    given is in [BY_LIST]. *)
Theorem constructor_accepts_exactly :
  forall (name0 : string) (pg : page) (pre fr : option ref) (h : heap),
    (exists root h', build [(name0, pg)] pre fr h = (Ok root, h')) <->
    ok name0 pg = true.
Proof.
  intros name0 pg pre fr h. split.
  - intros (root & h' & H). exact (build_accepts _ _ _ _ _ _ _ H).
  - intros Hok. eexists _, _. exact (build_layout name0 pg pre fr h Hok).
Qed.

End BuildLayout.

Section LayoutFacts.

Variable object_dict : list string.
Variable WebElement_dict : list string.
Variable BY_LIST : list string.

Local Abbreviation build := (PageObject_init object_dict WebElement_dict BY_LIST).
Local Abbreviation ok := (accepted object_dict WebElement_dict BY_LIST).
Local Abbreviation reserved := (_INVALID_ELE_NAME object_dict WebElement_dict).

Lemma layout_children_keys lay (l : list (string * page)) next :
  map fst (fst (layout_children lay l next)) = map fst l.
Proof.
  revert next. induction l as [|[n cfg] l IH]; intros next; [reflexivity|].
  cbn [layout_children]. specialize (IH (next + length (lay n cfg next))).
  destruct (layout_children lay l _) as [ks more]. cbn [fst map] in *. rewrite IH. reflexivity.
Qed.

Lemma layout_children_Forall (P : PageObject -> Prop) lay (l : list (string * page)) :
  Forall (fun np : string * page =>
            ok (fst np) (snd np) = true -> forall c, Forall P (lay (fst np) (snd np) c)) l ->
  forallb (fun np : string * page => ok (fst np) (snd np)) l = true ->
  forall next, Forall P (snd (layout_children lay l next)).
Proof.
  induction 1 as [|[n cfg] l Hhead _ IH]; intros Hall next; [constructor|].
  cbn [forallb fst snd] in *. apply andb_prop in Hall as [Hn Hl].
  cbn [layout_children]. specialize (IH Hl (next + length (lay n cfg next))).
  destruct (layout_children lay l _) as [ks more]. cbn [snd] in *.
  apply Forall_app. split; [apply Hhead; exact Hn|exact IH].
Qed.

(** A property of the object of every accepted entry holds for all the
    objects of a layout. *)
Lemma layout_Forall (P : PageObject -> Prop) :
  (forall name0 pg pre fr self o below,
      ok name0 pg = true -> layout name0 pg pre fr self = o :: below -> P o) ->
  forall pg name0 pre fr self, ok name0 pg = true -> Forall P (layout name0 pg pre fr self).
Proof.
  intros HP. induction pg as [pat by0 to gp ig isf ord tree IH] using page_nested_ind.
  intros name0 pre fr self Hok.
  pose proof (fun o below => HP name0 _ pre fr self o below Hok) as Hhead.
  cbn [layout p_ele_tree p_is_frame] in *. destruct tree as [l|].
  - cbn [accepted p_ele_tree] in Hok. apply andb_prop in Hok as [_ Hkids].
    pose proof (layout_children_Forall P
      (fun ele cfg c => layout ele cfg (Some self)
                          (if default false isf then Some self else fr) c) l) as Hch.
    specialize (Hch ltac:(eapply Forall_impl; [exact IH|]; intros [n cfg] Hcfg Hacc c;
                           cbn [fst snd] in *; apply Hcfg; exact Hacc) Hkids (S self)).
    destruct (layout_children _ l (S self)) as [kids below]. cbn [snd] in Hch.
    constructor; [eapply Hhead; reflexivity|exact Hch].
  - constructor; [eapply Hhead; reflexivity|constructor].
Qed.

Lemma ok_checks name0 pg :
  ok name0 pg = true ->
  str_in name0 reserved = false /\ pattern_missing pg = false /\ by_rejected BY_LIST pg = false.
Proof.
  destruct pg as [pat by0 to gp ig isf ord tree]. cbn [accepted].
  intros H. apply andb_prop in H as [H _]. apply andb_prop in H as [H Hby].
  apply andb_prop in H as [Hname Hpat].
  apply negb_true_iff in Hname, Hpat, Hby. repeat split; assumption.
Qed.

Lemma layout_head name0 pg pre fr self :
  exists kids below,
    layout name0 pg pre fr self
    = merge_page pg (match p_ele_tree pg with
                     | Some _ => set_ele_tree kids (set_identity name0 pre fr DEFAULT_ATTRIBUTE)
                     | None => set_identity name0 pre fr DEFAULT_ATTRIBUTE
                     end) :: below /\
    match p_ele_tree pg with
    | Some t => map fst kids = map fst t
    | None => True
    end.
Proof.
  destruct pg as [pat by0 to gp ig isf ord tree]. cbn [layout p_ele_tree p_is_frame].
  destruct tree as [l|].
  - pose proof (layout_children_keys
      (fun ele cfg c => layout ele cfg (Some self)
                          (if default false isf then Some self else fr) c) l (S self)) as Hk.
    destruct (layout_children _ l (S self)) as [kids below]. cbn [fst] in Hk.
    exists kids, below. split; [reflexivity|exact Hk].
  - exists [], []. split; [reflexivity|exact I].
Qed.

(** X13. Every object of a tree that the constructor has built has a
    name that is not reserved, a pattern, a strategy that is the default
    or a member of [BY_LIST], an empty cache, and no session. *)
Theorem built_objects_are_validated :
  forall (name0 : string) (pg : page) (root : ref) (h : heap),
    build [(name0, pg)] None None [] = (Ok root, h) ->
    forall (i : ref) (o : PageObject),
      h !! i = Some o ->
      (exists n, name o = Some n /\ str_in n reserved = false) /\
      (exists pat, pattern o = Some pat) /\
      (by_ o = "css selector" \/ str_in (by_ o) BY_LIST = true) /\
      eles o = None /\ last_found o = 0%Z /\ driver o = None.
Proof.
  intros name0 pg root h Hrun i o Ho.
  pose proof (build_accepts _ _ _ _ _ _ _ _ _ _ Hrun) as Hok.
  rewrite (build_layout _ _ _ name0 pg None None [] Hok) in Hrun.
  injection Hrun as _ <-. cbn [app length] in Ho.
  revert i o Ho. apply Forall_lookup. apply layout_Forall; [|exact Hok].
  clear. intros name0 pg pre fr self o below Hok Hlay.
  destruct (layout_head name0 pg pre fr self) as (kids & below' & Heq & _).
  rewrite Heq in Hlay. injection Hlay as <- _.
  destruct (ok_checks _ _ Hok) as (Hname & Hpat & Hby).
  unfold pattern_missing in Hpat. unfold by_rejected in Hby.
  destruct pg as [pat by0 to gp ig isf ord tree]. cbn [p_pattern p_by p_ele_tree] in *.
  destruct pat as [pat|]; [|discriminate].
  assert (Hbyok : default "css selector" by0 = "css selector" \/
                  str_in (default "css selector" by0) BY_LIST = true).
  { destruct by0 as [b|]; [right|left; reflexivity]. cbn. apply negb_false_iff. exact Hby. }
  destruct tree; cbn; (split; [eauto|]); (split; [eauto|]); (split; [exact Hbyok|]);
    repeat split.
Qed.

End LayoutFacts.

Lemma layout_children_assoc lay (t : list (string * page)) child :
  forall next,
    match assoc child t with
    | Some cfg =>
        exists c, assoc child (fst (layout_children lay t next)) = Some c /\
                  next <= c /\
                  forall i o, lay child cfg c !! i = Some o ->
                              snd (layout_children lay t next) !! (c - next + i) = Some o
    | None => assoc child (fst (layout_children lay t next)) = None
    end.
Proof.
  induction t as [|[n cfg0] t IH]; intros next; [reflexivity|].
  cbn [assoc layout_children]. specialize (IH (next + length (lay n cfg0 next))).
  destruct (layout_children lay t _) as [ks more]. cbn [fst snd assoc] in *.
  destruct (String.eqb_spec child n) as [->|Hne].
  - exists next. split; [reflexivity|]. split; [lia|].
    intros i o Hi. rewrite Nat.sub_diag. cbn [Nat.add].
    rewrite lookup_app_l by (eapply lookup_lt_Some; exact Hi). exact Hi.
  - destruct (assoc child t) as [cfg|]; [|exact IH].
    destruct IH as (c & Hc & Hle & Hsub). exists c. split; [exact Hc|]. split; [lia|].
    intros i o Hi. rewrite lookup_app_r by lia.
    replace (c - next + i - length (lay n cfg0 next))
      with (c - (next + length (lay n cfg0 next)) + i) by lia.
    apply Hsub. exact Hi.
Qed.

Lemma same_settings_merge pg o :
  by_ o = by_ DEFAULT_ATTRIBUTE -> timeout o = timeout DEFAULT_ATTRIBUTE ->
  gap o = gap DEFAULT_ATTRIBUTE -> ignore o = ignore DEFAULT_ATTRIBUTE ->
  is_frame o = is_frame DEFAULT_ATTRIBUTE -> order o = order DEFAULT_ATTRIBUTE ->
  pattern o = None ->
  same_settings (merge_page pg o) (merge_page pg DEFAULT_ATTRIBUTE).
Proof.
  intros H1 H2 H3 H4 H5 H6 H7. unfold same_settings. cbn.
  rewrite H1, H2, H3, H4, H5, H6, H7. repeat split.
Qed.

Lemma layout_navigate path :
  forall pg name0 pre fr self (H : heap),
    placed H self (layout name0 pg pre fr self) ->
    match descend name0 pg path with
    | Some (n, pg') =>
        exists r o, node_at H self path = Some r /\ H !! r = Some o /\
                    name o = Some n /\
                    same_settings o (merge_page pg' DEFAULT_ATTRIBUTE)
    | None => node_at H self path = None
    end.
Proof.
  induction path as [|child rest IH]; intros pg name0 pre fr self H Hplaced.
  - cbn [descend node_at]. exists self.
    destruct pg as [pat by0 to gp ig isf ord tree].
    cbn [layout p_ele_tree p_is_frame] in Hplaced. destruct tree as [l|].
    + destruct (layout_children _ l (S self)) as [kids below].
      eexists. split; [reflexivity|]. split.
      { specialize (Hplaced 0 _ eq_refl). rewrite Nat.add_0_r in Hplaced. exact Hplaced. }
      split; [reflexivity|]. apply same_settings_merge; reflexivity.
    + eexists. split; [reflexivity|]. split.
      { specialize (Hplaced 0 _ eq_refl). rewrite Nat.add_0_r in Hplaced. exact Hplaced. }
      split; [reflexivity|]. apply same_settings_merge; reflexivity.
  - cbn [descend node_at]. unfold child_named.
    destruct pg as [pat by0 to gp ig isf ord tree].
    cbn [layout p_ele_tree p_is_frame] in *. destruct tree as [l|].
    + pose proof (layout_children_assoc
        (fun ele cfg c => layout ele cfg (Some self)
                            (if default false isf then Some self else fr) c) l child (S self))
        as Hassoc.
      destruct (layout_children _ l (S self)) as [kids below]. cbn [fst snd] in Hassoc.
      pose proof (Hplaced 0 _ eq_refl) as Hself. rewrite Nat.add_0_r in Hself.
      rewrite Hself. cbn [ele_tree merge_page set_ele_tree].
      destruct (assoc child l) as [cfg|].
      * destruct Hassoc as (c & Hc & Hle & Hsub). rewrite Hc.
        apply (IH cfg child (Some self) (if default false isf then Some self else fr) c H).
        intros i o Hi. specialize (Hsub i o Hi).
        specialize (Hplaced (S (c - S self + i)) o Hsub).
        replace (self + S (c - S self + i)) with (c + i) in Hplaced by lia. exact Hplaced.
      * rewrite Hassoc. reflexivity.
    + pose proof (Hplaced 0 _ eq_refl) as Hself. rewrite Nat.add_0_r in Hself.
      rewrite Hself. reflexivity.
Qed.

Section Navigation.

Variable object_dict : list string.
Variable WebElement_dict : list string.
Variable BY_LIST : list string.

Local Abbreviation build := (PageObject_init object_dict WebElement_dict BY_LIST).
Local Abbreviation ok := (accepted object_dict WebElement_dict BY_LIST).
Local Abbreviation reserved := (_INVALID_ELE_NAME object_dict WebElement_dict).


End Navigation.

(** *** Parents, frames and the first entry *)

Lemma descend_app path :
  forall name0 pg k,
    descend name0 pg (path ++ [k]) =
    match descend name0 pg path with
    | Some (n, pgp) => descend n pgp [k]
    | None => None
    end.
Proof.
  induction path as [|child rest IH]; intros name0 pg k; [reflexivity|].
  cbn [app descend]. destruct (p_ele_tree pg) as [t|]; [|reflexivity].
  destruct (assoc child t) as [cfg|]; [|reflexivity]. apply IH.
Qed.

Lemma node_at_app (H : heap) path :
  forall self k,
    node_at H self (path ++ [k]) =
    match node_at H self path with
    | Some p => child_named H p k
    | None => None
    end.
Proof.
  induction path as [|child rest IH]; intros self k.
  - cbn [app node_at]. destruct (child_named H self k); reflexivity.
  - cbn [app node_at]. destruct (child_named H self child) as [c|]; [|reflexivity]. apply IH.
Qed.

(** The first object of a layout. *)
Lemma layout_first name0 pg pre fr self (H : heap) :
  placed H self (layout name0 pg pre fr self) ->
  exists o, H !! self = Some o /\ name o = Some name0 /\
            pre_ele o = pre /\ frame o = fr /\
            is_frame o = default false (p_is_frame pg) /\
            same_settings o (merge_page pg DEFAULT_ATTRIBUTE).
Proof.
  intros Hplaced. destruct pg as [pat by0 to gp ig isf ord tree].
  cbn [layout p_ele_tree p_is_frame] in *. destruct tree as [l|].
  - destruct (layout_children _ l (S self)) as [kids below].
    specialize (Hplaced 0 _ eq_refl). rewrite Nat.add_0_r in Hplaced.
    eexists. split; [exact Hplaced|]. repeat split.
  - specialize (Hplaced 0 _ eq_refl). rewrite Nat.add_0_r in Hplaced.
    eexists. split; [exact Hplaced|]. repeat split.
Qed.

(** One step down: the child is laid out with the parent as [pre_ele],
    and as [frame] the parent when the descriptor of the parent is
    frame-marked, the frame of the parent otherwise. *)
Lemma layout_step name0 pg pre fr self (H : heap) t k cfg :
  placed H self (layout name0 pg pre fr self) ->
  p_ele_tree pg = Some t -> assoc k t = Some cfg ->
  exists c, child_named H self k = Some c /\
            placed H c (layout k cfg (Some self)
                          (if default false (p_is_frame pg) then Some self else fr) c).
Proof.
  intros Hplaced Ht Hk. unfold child_named.
  destruct pg as [pat by0 to gp ig isf ord tree].
  cbn [layout p_ele_tree p_is_frame] in *. subst tree.
  pose proof (layout_children_assoc
    (fun ele cfg c => layout ele cfg (Some self)
                        (if default false isf then Some self else fr) c) t k (S self))
    as Hassoc.
  destruct (layout_children _ t (S self)) as [kids below]. cbn [fst snd] in Hassoc.
  pose proof (Hplaced 0 _ eq_refl) as Hself. rewrite Nat.add_0_r in Hself.
  rewrite Hself. cbn [ele_tree merge_page set_ele_tree]. rewrite Hk in Hassoc.
  destruct Hassoc as (c & Hc & Hle & Hsub). exists c. split; [exact Hc|].
  intros i o Hi. specialize (Hsub i o Hi).
  specialize (Hplaced (S (c - S self + i)) o Hsub).
  replace (self + S (c - S self + i)) with (c + i) in Hplaced by lia. exact Hplaced.
Qed.

(** A path of the document leads to the layout of the descriptor that it
    designates. *)
Lemma layout_reach path :
  forall pg name0 pre fr self (H : heap) n pgp,
    placed H self (layout name0 pg pre fr self) ->
    descend name0 pg path = Some (n, pgp) ->
    exists r pre' fr', node_at H self path = Some r /\
                       placed H r (layout n pgp pre' fr' r).
Proof.
  induction path as [|child rest IH]; intros pg name0 pre fr self H n pgp Hplaced Hd.
  - cbn [descend] in Hd. injection Hd as <- <-. exists self, pre, fr.
    split; [reflexivity|exact Hplaced].
  - cbn [descend] in Hd. destruct (p_ele_tree pg) as [t|] eqn:Ht; [|discriminate].
    destruct (assoc child t) as [cfg|] eqn:Hk; [|discriminate].
    destruct (layout_step _ _ _ _ _ _ _ _ _ Hplaced Ht Hk) as (c & Hc & Hpc).
    cbn [node_at]. rewrite Hc. exact (IH _ _ _ _ _ _ _ _ Hpc Hd).
Qed.

(** The link between a descriptor of the document and each of its
    children, in a store that holds the layout of the document. *)
Lemma layout_links path k :
  forall pg name0 pre fr self (H : heap) n pgp m pgc,
    placed H self (layout name0 pg pre fr self) ->
    descend name0 pg path = Some (n, pgp) ->
    descend name0 pg (path ++ [k]) = Some (m, pgc) ->
    exists p po c oc,
      node_at H self path = Some p /\ H !! p = Some po /\
      name po = Some n /\ is_frame po = default false (p_is_frame pgp) /\
      node_at H self (path ++ [k]) = Some c /\ child_named H p k = Some c /\
      H !! c = Some oc /\ name oc = Some k /\
      pre_ele oc = Some p /\
      frame oc = (if is_frame po then Some p else frame po).
Proof.
  intros pg name0 pre fr self H n pgp m pgc Hplaced Hd Hdk.
  destruct (layout_reach path _ _ _ _ _ _ _ _ Hplaced Hd) as (p & pre' & fr' & Hp & Hpp).
  destruct (layout_first _ _ _ _ _ _ Hpp) as (po & Hpo & Hn & _ & Hfr & Hisf & _).
  rewrite descend_app, Hd in Hdk. cbn [descend] in Hdk.
  destruct (p_ele_tree pgp) as [t|] eqn:Ht; [|discriminate].
  destruct (assoc k t) as [cfg|] eqn:Hk; [|discriminate].
  destruct (layout_step _ _ _ _ _ _ _ _ _ Hpp Ht Hk) as (c & Hc & Hpc).
  destruct (layout_first _ _ _ _ _ _ Hpc) as (oc & Hoc & Hnc & Hprec & Hfrc & _).
  exists p, po, c, oc. rewrite node_at_app, Hp.
  repeat split; try assumption. rewrite Hfrc, Hisf, Hfr. reflexivity.
Qed.

Lemma placed_app (h objs : heap) : placed (h ++ objs) (length h) objs.
Proof.
  intros i o Hi. rewrite lookup_app_r by lia.
  replace (length h + i - length h) with i by lia. exact Hi.
Qed.

Section FirstEntry.

Variable object_dict : list string.
Variable WebElement_dict : list string.
Variable BY_LIST : list string.

Local Abbreviation build := (PageObject_init object_dict WebElement_dict BY_LIST).
Local Abbreviation ok := (accepted object_dict WebElement_dict BY_LIST).

(** The constructor on a dictionary whose first entry is accepted. *)
Lemma build_first_entry name0 pg others pre fr (h : heap) :
  ok name0 pg = true ->
  build ((name0, pg) :: others) pre fr h
  = (Ok (length h), h ++ layout name0 pg pre fr (length h)).
Proof.
  intros Hok. destruct others as [|e' others].
  - exact (build_layout _ _ _ name0 pg pre fr h Hok).
  - rewrite (PageObject_init_ignores_the_rest _ _ _ (name0, pg) e' others pre fr h).
    exact (build_layout _ _ _ name0 pg pre fr h Hok).
Qed.

Lemma build_first_entry_inv name0 pg others pre fr (h : heap) root h' :
  build ((name0, pg) :: others) pre fr h = (Ok root, h') ->
  ok name0 pg = true /\ root = length h /\ h' = h ++ layout name0 pg pre fr (length h).
Proof.
  intros Hrun.
  assert (Hone : build [(name0, pg)] pre fr h = (Ok root, h')).
  { destruct others as [|e' others]; [exact Hrun|].
    rewrite <- (PageObject_init_ignores_the_rest _ _ _ (name0, pg) e' others pre fr h).
    exact Hrun. }
  pose proof (build_accepts _ _ _ _ _ _ _ _ _ _ Hone) as Hok.
  rewrite (build_layout _ _ _ name0 pg pre fr h Hok) in Hone. injection Hone as <- <-.
  repeat split. exact Hok.
Qed.

(** C9. On a dictionary with more than one top-level name the constructor
    builds the tree from the first entry only.  Whatever the remaining
    entries are, valid or not, the outcome (object, store, or the
    exception raised for the first entry) is the one of the dictionary
    reduced to its first entry.  And when the first entry passes the
    checks, the constructor returns: the objects it has added to the store
    are those of the first entry; the object returned bears the name of
    the first entry, with the [pre_ele] and the [frame] given; and every
    path of child names leads from it to an object exactly when it leads
    to a descriptor below the first entry, the object having the name and
    the settings of the descriptor. *)
Theorem PageObject_init_first_entry_only :
  forall (name0 : string) (pg : page) (e' : string * page) (others : list (string * page))
         (pre fr : option ref) (h : heap),
    build ((name0, pg) :: e' :: others) pre fr h = build [(name0, pg)] pre fr h /\
    (ok name0 pg = true ->
     exists root h' o,
       build ((name0, pg) :: e' :: others) pre fr h = (Ok root, h') /\
       h' = h ++ layout name0 pg pre fr (length h) /\
       h' !! root = Some o /\ name o = Some name0 /\ pre_ele o = pre /\ frame o = fr /\
       forall path,
         match descend name0 pg path with
         | Some (n, pg') =>
             exists r o', node_at h' root path = Some r /\ h' !! r = Some o' /\
                          name o' = Some n /\
                          same_settings o' (merge_page pg' DEFAULT_ATTRIBUTE)
         | None => node_at h' root path = None
         end).
Proof.
  intros name0 pg e' others pre fr h. split.
  - exact (PageObject_init_ignores_the_rest _ _ _ (name0, pg) e' others pre fr h).
  - intros Hok.
    pose proof (placed_app h (layout name0 pg pre fr (length h))) as Hplaced.
    destruct (layout_first _ _ _ _ _ _ Hplaced) as (o & Ho & Hn & Hpre & Hfr & _).
    exists (length h), (h ++ layout name0 pg pre fr (length h)), o.
    split; [exact (build_first_entry name0 pg (e' :: others) pre fr h Hok)|].
    split; [reflexivity|]. repeat (split; [assumption|]).
    intros path. exact (layout_navigate path pg name0 pre fr (length h) _ Hplaced).
Qed.

(** C7. In a tree built from a configuration document: the root has
    neither parent nor frame; every child that the document declares is
    an object of the tree, found under its name in the [ele_tree] of the
    object of its parent, whose [pre_ele] is that parent and whose [frame]
    is the parent when the parent is frame-marked (as the document says)
    and the parent's own frame otherwise, at every depth; and for every
    object of the tree the frame follows this rule and, when it is set,
    is reached from the object by following [pre_ele] links. *)
Theorem frame_is_ancestor :
  forall (doc : list (string * page)) (root : ref) (h : heap),
    build doc None None [] = (Ok root, h) ->
    (exists ro, h !! root = Some ro /\ pre_ele ro = None /\ frame ro = None) /\
    match doc with
    | [] => True
    | (name0, pg) :: _ =>
        forall (path : list string) (k : string) (n m : string) (pgp pgc : page),
          descend name0 pg path = Some (n, pgp) ->
          descend name0 pg (path ++ [k]) = Some (m, pgc) ->
          exists p po c oc,
            node_at h root path = Some p /\ h !! p = Some po /\
            name po = Some n /\ is_frame po = default false (p_is_frame pgp) /\
            node_at h root (path ++ [k]) = Some c /\ child_named h p k = Some c /\
            h !! c = Some oc /\ name oc = Some k /\
            pre_ele oc = Some p /\
            frame oc = (if is_frame po then Some p else frame po)
    end /\
    (forall (r : ref) (o : PageObject),
       h !! r = Some o ->
       frame_inherited h o /\
       (forall f, frame o = Some f -> ancestor_or_self h r f)).
Proof.
  intros doc root h Hrun. split; [|split].
  - destruct doc as [|[name0 pg] others].
    + vm_compute in Hrun. injection Hrun as <- <-. eexists. repeat split.
    + destruct (build_first_entry_inv _ _ _ _ _ _ _ _ Hrun) as (_ & -> & ->).
      pose proof (placed_app [] (layout name0 pg None None 0)) as Hplaced.
      destruct (layout_first _ _ _ _ _ _ Hplaced) as (o & Ho & _ & Hpre & Hfr & _).
      exists o. repeat split; assumption.
  - destruct doc as [|[name0 pg] others]; [exact I|].
    destruct (build_first_entry_inv _ _ _ _ _ _ _ _ Hrun) as (_ & -> & ->).
    intros path k n m pgp pgc Hd Hdk.
    exact (layout_links path k pg name0 None None 0 _ n pgp m pgc
             (placed_app [] (layout name0 pg None None 0)) Hd Hdk).
  - exact (built_frames_are_ancestors _ _ _ doc root h Hrun).
Qed.

End FirstEntry.

Lemma str_in_app x a b : str_in x (a ++ b) = str_in x a || str_in x b.
Proof.
  induction a as [|y a IH]; [reflexivity|]. cbn. destruct (String.eqb x y); [reflexivity|exact IH].
Qed.

Lemma assoc_In {V} k (l : list (string * V)) v : assoc k l = Some v -> In k (map fst l).
Proof.
  induction l as [|[k' v'] l IH]; [discriminate|]. cbn.
  destruct (String.eqb_spec k k') as [->|]; [left; reflexivity|right; auto].
Qed.

Section ChildAccess.

Variable object_dict : list string.
Variable WebElement_dict : list string.
Variable BY_LIST : list string.

Local Abbreviation build := (PageObject_init object_dict WebElement_dict BY_LIST).
Local Abbreviation ok := (accepted object_dict WebElement_dict BY_LIST).
Local Abbreviation reserved := (_INVALID_ELE_NAME object_dict WebElement_dict).

(** No key of an [ele_tree] of a built tree is a reserved name. *)
Lemma built_child_names name0 pg root (h : heap) :
  build [(name0, pg)] None None [] = (Ok root, h) ->
  forall i o t k c,
    h !! i = Some o -> ele_tree o = Some t -> assoc k t = Some c ->
    str_in k reserved = false.
Proof.
  intros Hrun i o t k c Ho. revert t k c.
  pose proof (build_accepts _ _ _ _ _ _ _ _ _ _ Hrun) as Hok.
  rewrite (build_layout _ _ _ name0 pg None None [] Hok) in Hrun.
  injection Hrun as _ <-. cbn [app length] in Ho.
  revert i o Ho.
  apply (proj1 (Forall_lookup
    (fun o => forall t k c, ele_tree o = Some t -> assoc k t = Some c ->
                            str_in k reserved = false) _)).
  apply (layout_Forall object_dict WebElement_dict BY_LIST); [|exact Hok].
  clear. intros name0 pg pre fr self o below Hok Hlay t k c Ht Hk.
  destruct (layout_head name0 pg pre fr self) as (kids & below' & Heq & Hkeys).
  rewrite Heq in Hlay. injection Hlay as <- _.
  destruct pg as [pat by0 to gp ig isf ord tree]. cbn [p_ele_tree] in *.
  destruct tree as [l|]; [|discriminate]. cbn in Ht. injection Ht as <-.
  apply assoc_In in Hk. rewrite Hkeys in Hk. apply in_map_iff in Hk as ([k' cfg] & <- & Hin).
  cbn [accepted p_ele_tree] in Hok. apply andb_prop in Hok as [_ Hall].
  rewrite forallb_forall in Hall. specialize (Hall _ Hin). cbn [fst snd] in *.
  exact (proj1 (ok_checks _ _ _ _ _ Hall)).
Qed.

(** X15. In a tree that the constructor has built, whatever has been
    resolved since, the handler of [__getattr__] called with the name of a
    child returns that child, without resolving anything: the name of a
    child is never taken for an attribute of [WebElement]. *)
Theorem child_access_returns_the_child :
  forall (name0 : string) (pg : page) (root : ref) (h : heap)
         (B : Browser) (depth : nat) (st : state) (self : ref) (item : string) (c : ref),
    build [(name0, pg)] None None [] = (Ok root, h) ->
    map ele_tree (objects st) = map ele_tree h ->
    child_named (objects st) self item = Some c ->
    getattr_handler WebElement_dict B depth self item st = (Ok (AChild c), st).
Proof.
  intros name0 pg root h B depth st self item c Hrun Hsame Hchild.
  assert (Hfree : str_in item WebElement_dict = false).
  { unfold child_named in Hchild.
    destruct (objects st !! self) as [o'|] eqn:Ho'; [|discriminate].
    destruct (ele_tree o') as [t|] eqn:Ht; [|discriminate].
    assert (Hm : map ele_tree h !! self = Some (Some t)).
    { rewrite <- Hsame. rewrite list_lookup_fmap. rewrite Ho'. cbn. rewrite Ht. reflexivity. }
    rewrite list_lookup_fmap in Hm. destruct (h !! self) as [o|] eqn:Ho; [|discriminate].
    cbn in Hm. injection Hm as Hm.
    pose proof (built_child_names name0 pg root h Hrun self o t item c Ho Hm Hchild) as Hres.
    unfold _INVALID_ELE_NAME in Hres. rewrite !str_in_app in Hres.
    apply orb_false_iff in Hres as [_ Hres]. apply orb_false_iff in Hres as [Hres _].
    exact Hres. }
  destruct depth; cbn [getattr_handler]; rewrite Hfree, Hchild; reflexivity.
Qed.

End ChildAccess.

Lemma set_driver_unfold k self d (H : heap) :
  set_driver (S k) self d H =
  (modify self (set_driver_attr d) ;;;
   o <- get self ;;
   match ele_tree o with
   | Some t => set_driver_children (fun c => set_driver k c d) t
   | None => ret tt
   end) H.
Proof.
  cbn [set_driver]. unfold bind. destruct (modify self _ H) as [[u|e] h1]; [|reflexivity].
  destruct (get self h1) as [[o|e] h2]; [|reflexivity].
  destruct (ele_tree o) as [t|]; [|reflexivity].
  revert h2. induction t as [|[n c] t IH]; intros h2; [reflexivity|].
  cbn [set_driver_children]. unfold bind.
  destruct (set_driver k c d h2) as [[u'|e] h3]; [apply IH|reflexivity].
Qed.

Lemma set_driver_children_layout k d lay (t : list (string * page)) :
  Forall (fun np : string * page =>
            height (snd np) <= k ->
            forall (h rest : heap),
              set_driver k (length h) d (h ++ lay (fst np) (snd np) (length h) ++ rest)
              = (Ok tt, h ++ map (set_driver_attr d) (lay (fst np) (snd np) (length h)) ++ rest)) t ->
  fold_right (fun (np : string * page) acc => Nat.max (height (snd np)) acc) 0 t <= k ->
  forall (pre rest : heap),
    set_driver_children (fun c => set_driver k c d)
      (fst (layout_children lay t (length pre)))
      (pre ++ snd (layout_children lay t (length pre)) ++ rest)
    = (Ok tt, pre ++ map (set_driver_attr d) (snd (layout_children lay t (length pre))) ++ rest).
Proof.
  induction 1 as [|[n cfg] t Hhead _ IH]; intros Hmax pre rest; [reflexivity|].
  cbn [fold_right fst snd] in *. cbn [layout_children].
  specialize (IH ltac:(lia) (pre ++ map (set_driver_attr d) (lay n cfg (length pre))) rest).
  rewrite length_app, length_map in IH.
  destruct (layout_children lay t (length pre + length (lay n cfg (length pre)))) as [ks more].
  cbn [fst snd set_driver_children] in *. unfold bind.
  rewrite <- (app_assoc (lay n cfg (length pre)) more rest).
  rewrite (Hhead ltac:(lia) pre (more ++ rest)).
  rewrite (app_assoc pre (map _ _) (more ++ rest)). rewrite IH.
  rewrite map_app. rewrite <- !app_assoc. reflexivity.
Qed.

Lemma set_driver_layout pg :
  forall name0 pre fr depth d (h rest : heap),
    height pg <= depth ->
    set_driver depth (length h) d (h ++ layout name0 pg pre fr (length h) ++ rest)
    = (Ok tt, h ++ map (set_driver_attr d) (layout name0 pg pre fr (length h)) ++ rest).
Proof.
  induction pg as [pat by0 to gp ig isf ord tree IH] using page_nested_ind.
  intros name0 pre fr depth d h rest Hh. cbn [height p_ele_tree] in Hh.
  destruct depth as [|k]; [lia|]. apply le_S_n in Hh.
  rewrite set_driver_unfold. cbn [layout p_ele_tree p_is_frame]. destruct tree as [l|].
  - pose proof (set_driver_children_layout k d
      (fun ele cfg c => layout ele cfg (Some (length h))
                          (if default false isf then Some (length h) else fr) c) l) as Hch.
    specialize (Hch ltac:(eapply Forall_impl; [exact IH|]; intros [n cfg] Hcfg Hle h0 rest0;
                           cbn [fst snd] in *; apply Hcfg; exact Hle) Hh).
    specialize (fun x => Hch (h ++ [x]) rest).
    assert (Hlen : forall x : PageObject, length (h ++ [x]) = S (length h))
      by (intros x; rewrite length_app; cbn; lia).
    destruct (layout_children _ l (S (length h))) as [kids below] eqn:Hlc.
    cbn [app map]. unfold bind at 1. rewrite modify_middle.
    unfold bind at 1. unfold get. rewrite list_lookup_middle by reflexivity.
    cbn [ele_tree merge_page set_driver_attr set_ele_tree].
    match goal with |- context [h ++ ?x :: below ++ rest] =>
      specialize (Hch x); rewrite Hlen in Hch; rewrite Hlc in Hch; cbn [fst snd] in Hch;
      rewrite <- (app_assoc h [x]) in Hch; cbn [app] in Hch; rewrite Hch end.
    rewrite <- app_assoc. reflexivity.
  - cbn [app map]. unfold bind at 1. rewrite modify_middle.
    unfold bind at 1. unfold get. rewrite list_lookup_middle by reflexivity. reflexivity.
Qed.

Section Attach.

Variable object_dict : list string.
Variable WebElement_dict : list string.
Variable BY_LIST : list string.

Local Abbreviation build := (PageObject_init object_dict WebElement_dict BY_LIST).
Local Abbreviation entry := (init_entry object_dict WebElement_dict BY_LIST).
Local Abbreviation ok := (accepted object_dict WebElement_dict BY_LIST).
Local Abbreviation reserved := (_INVALID_ELE_NAME object_dict WebElement_dict).
Local Abbreviation load := (get_page_with_yaml object_dict WebElement_dict BY_LIST).

Lemma set_driver_built name0 pg root (h : heap) depth d :
  build [(name0, pg)] None None [] = (Ok root, h) ->
  height pg <= depth ->
  set_driver depth root d h = (Ok tt, map (set_driver_attr d) h).
Proof.
  intros Hrun Hh.
  pose proof (build_accepts _ _ _ _ _ _ _ _ _ _ Hrun) as Hok.
  rewrite (build_layout _ _ _ name0 pg None None [] Hok) in Hrun.
  injection Hrun as <- <-. cbn [app length].
  pose proof (set_driver_layout pg name0 None None depth d [] [] Hh) as H.
  cbn [app length] in H. rewrite !app_nil_r in H. exact H.
Qed.

(** X16. [set_driver] on the root of a tree just built, with a recursion
    limit that the depth of the tree does not exceed, sets [driver] in
    every object of the tree and changes nothing else. *)
Theorem set_driver_reaches_every_node :
  forall (name0 : string) (pg : page) (root : ref) (h : heap) (depth : nat)
         (d : option WebDriver),
    build [(name0, pg)] None None [] = (Ok root, h) ->
    height pg <= depth ->
    set_driver depth root d h = (Ok tt, map (set_driver_attr d) h).
Proof. intros name0 pg root h depth d. apply set_driver_built. Qed.

(** X17. [get_page_with_yaml] on a parsed document that the constructor
    accepts: without driver it returns the tree as built; with a driver it
    returns the same tree in which every object holds that driver. *)
Theorem get_page_with_yaml_attaches_the_driver :
  forall (name0 : string) (pg : page) (root : ref) (h : heap) (depth : nat) (d : WebDriver),
    build [(name0, pg)] None None [] = (Ok root, h) ->
    height pg <= depth ->
    load depth [(name0, pg)] None [] = (Ok root, h) /\
    load depth [(name0, pg)] (Some d) [] = (Ok root, map (set_driver_attr (Some d)) h) /\
    (forall i o, map (set_driver_attr (Some d)) h !! i = Some o -> driver o = Some d).
Proof.
  intros name0 pg root h depth d Hrun Hh. unfold get_page_with_yaml. split; [|split].
  - rewrite (bind_Ok_step _ _ _ _ _ Hrun). reflexivity.
  - rewrite (bind_Ok_step _ _ _ _ _ Hrun).
    rewrite (bind_Ok_step _ _ _ _ _ (set_driver_built name0 pg root h depth (Some d) Hrun Hh)).
    reflexivity.
  - intros i o Hi. rewrite list_lookup_fmap in Hi.
    destruct (h !! i) as [o0|]; [|discriminate]. cbn in Hi. injection Hi as <-. reflexivity.
Qed.

Lemma init_children_ValueError init (l : list (string * page)) :
  Forall (fun np : string * page =>
            forall (H h' : heap),
              init (fst np) (snd np) (length H) (H ++ [DEFAULT_ATTRIBUTE]) = (Err ValueError, h') ->
              has_reserved object_dict WebElement_dict (fst np) (snd np) = true) l ->
  forall (H h' : heap),
    init_children init l H = (Err ValueError, h') ->
    existsb (fun np : string * page =>
               has_reserved object_dict WebElement_dict (fst np) (snd np)) l = true.
Proof.
  induction 1 as [|[n cfg] l Hhead _ IH]; intros H h' Hrun; [discriminate|].
  cbn [init_children existsb fst snd] in *. unfold bind at 1, alloc in Hrun.
  apply bind_Err_inv in Hrun as [Hrun|(sig & h1 & _ & Hrun)].
  - rewrite (Hhead _ _ Hrun). reflexivity.
  - apply bind_Err_inv in Hrun as [Hrun|(ks & h2 & _ & Hrun)]; [|discriminate].
    rewrite (IH _ _ Hrun). apply orb_true_r.
Qed.

Lemma init_entry_ValueError pg :
  forall name0 pre fr (h h' : heap),
    entry name0 pg (length h) pre fr (h ++ [DEFAULT_ATTRIBUTE]) = (Err ValueError, h') ->
    has_reserved object_dict WebElement_dict name0 pg = true.
Proof.
  induction pg as [pat by0 to gp ig isf ord tree IH] using page_nested_ind.
  intros name0 pre fr h h' Hrun. cbn [init_entry] in Hrun. cbn [has_reserved p_ele_tree].
  destruct (str_in name0 _); [reflexivity|]. cbn [orb].
  assert (Hnaming : forall A (r : res A) h1,
    @raise_ValueError_naming WebElement_dict A (length h) (h ++ [DEFAULT_ATTRIBUTE])
      = (r, h1) -> r <> Err ValueError).
  { intros A r h1 Hr.
    destruct (raise_ValueError_naming_unnamed WebElement_dict (A := A) (length h)
                (h ++ [DEFAULT_ATTRIBUTE]) DEFAULT_ATTRIBUTE) as (e & He & Hne).
    - apply list_lookup_middle. reflexivity.
    - reflexivity.
    - rewrite He in Hr. injection Hr as <- _. congruence. }
  destruct (pattern_missing _); [exfalso; exact (Hnaming _ _ _ Hrun eq_refl)|].
  destruct (by_rejected _ _); [exfalso; exact (Hnaming _ _ _ Hrun eq_refl)|].
  unfold bind at 1 in Hrun. rewrite modify_middle in Hrun.
  apply bind_Err_inv in Hrun as [Hrun|(u & h1 & _ & Hrun)].
  - cbn [p_ele_tree] in Hrun. destruct tree as [l|]; [|discriminate].
    apply bind_Err_inv in Hrun as [Hrun|(kids & h1 & _ & Hrun)].
    + eapply init_children_ValueError; [|exact Hrun].
      eapply Forall_impl; [exact IH|]. intros [n cfg] Hcfg H0 h0 Hrun0. cbn [fst snd] in *.
      eapply Hcfg. exact Hrun0.
    + unfold modify in Hrun. destruct (h1 !! length h); discriminate.
  - apply bind_Err_inv in Hrun as [Hrun|(u' & h2 & _ & Hrun)]; [|discriminate].
    unfold modify in Hrun. destruct (h1 !! length h); discriminate.
Qed.

(** X18. The constructor raises [ValueError] for a reserved name and
    for nothing else: a document whose first entry has a reserved name is
    refused with [ValueError], the object under construction left with
    the defaults only; and if a one-entry document is refused with
    [ValueError], the name of the entry or of an entry below it is
    reserved. *)
Theorem ValueError_only_for_reserved_names :
  forall (name0 : string) (pg : page) (others : list (string * page))
         (pre fr : option ref) (h : heap),
    (str_in name0 reserved = true ->
     build ((name0, pg) :: others) pre fr h = (Err ValueError, h ++ [DEFAULT_ATTRIBUTE])) /\
    (forall h', build [(name0, pg)] pre fr h = (Err ValueError, h') ->
                has_reserved object_dict WebElement_dict name0 pg = true).
Proof.
  intros name0 pg others pre fr h. split.
  - intros Hres. unfold PageObject_init, bind, alloc. cbn [for_items]. unfold bind.
    destruct pg as [pat by0 to gp ig isf ord tree]. cbn [init_entry]. rewrite Hres. reflexivity.
  - intros h' Hrun. rewrite PageObject_init_single in Hrun.
    unfold bind at 1, alloc in Hrun.
    apply bind_Err_inv in Hrun as [Hrun|(sig & h1 & _ & Hrun)]; [|discriminate].
    exact (init_entry_ValueError pg name0 pre fr h h' Hrun).
Qed.

End Attach.

(** ** [__repr__] *)

Section ReprFacts.

Variable WebElement_dict : list string.
Variable py_format : repr_value -> string -> formatted string.
Variable py_convert : Ascii.ascii -> repr_value -> formatted repr_value.
Variable py_getattr : repr_value -> string -> formatted repr_value.
Variable py_getitem : repr_value -> string -> formatted repr_value.

(** X20. [__repr__] raises [KeyError('name')] on every object that the
    constructor has named and whose parent, if any, is named: the braces
    around the body of the template open a replacement field whose name is
    [name], and the call passes no such keyword. *)
Theorem repr_raises_KeyError :
  forall (h : heap) (self : ref) (o : PageObject) (n : string),
    h !! self = Some o ->
    name o = Some n ->
    (forall p, pre_ele o = Some p -> exists po n', h !! p = Some po /\ name po = Some n') ->
    PageObject_repr WebElement_dict py_format py_convert py_getattr py_getitem h self
    = Failed (KeyError "name").
Proof.
  intros h self o n Ho Hn Hpre. unfold PageObject_repr, repr_pre. rewrite Ho, Hn.
  destruct (pre_ele o) as [p|].
  - destruct (Hpre p eq_refl) as (po & n' & Hpo & Hn'). rewrite Hpo.
    unfold getattr_name. rewrite Hn'. reflexivity.
  - reflexivity.
Qed.

End ReprFacts.

(** With the braces of the body doubled, they are literal text, and the
    field inside is replaced. *)
Lemma str_format_doubled_braces :
  str_format blank_format blank_convert blank_getattr blank_getitem [("pre", RNone)]
             "<PageObject>{{pre_ele: {pre}}}"
  = Done "<PageObject>{pre_ele: }".
Proof. vm_compute. reflexivity. Qed.

(** ** Templates *)

Lemma list_ascii_of_string_app (a b : string) :
  list_ascii_of_string (a ++ b)%string = list_ascii_of_string a ++ list_ascii_of_string b.
Proof. induction a as [|c a IH]; [reflexivity|]. cbn. rewrite IH. reflexivity. Qed.

Section FormatFacts.

Context {V : Type}.
Variable py_format : V -> string -> formatted string.
Variable py_convert : Ascii.ascii -> V -> formatted V.
Variable py_getattr : V -> string -> formatted V.
Variable py_getitem : V -> string -> formatted V.
Variable kwargs : list (string * V).

Local Abbreviation scanf := (scan py_format py_convert py_getattr py_getitem kwargs).
Local Abbreviation getf := (get_field py_getattr py_getitem kwargs).

(** Literal text is copied to the output. *)
Lemma scan_text expand (pre rest out : list Ascii.ascii) :
  forallb not_brace pre = true ->
  scanf expand (pre ++ rest) Text out = scanf expand rest Text (out ++ pre).
Proof.
  revert out. induction pre as [|c pre IH]; intros out Hpre.
  - rewrite app_nil_r. reflexivity.
  - cbn [forallb] in Hpre. apply andb_prop in Hpre as [Hc Hpre].
    unfold not_brace in Hc. apply andb_prop in Hc as [H1 H2].
    apply negb_true_iff in H1, H2.
    cbn [app scan]. rewrite H1, H2. rewrite (IH (out ++ [c]) Hpre).
    rewrite <- app_assoc. reflexivity.
Qed.

Lemma name_char_tests c :
  name_char c = true ->
  is_char c "{" = false /\ is_char c "}" = false /\ is_char c "[" = false /\
  is_char c "]" = false /\ is_char c "." = false /\ is_char c ":" = false /\
  is_char c "!" = false.
Proof.
  unfold name_char, not_brace. intros H.
  repeat (apply andb_prop in H as [H ?]).
  repeat match goal with Hn : negb _ = true |- _ => apply negb_true_iff in Hn end.
  repeat split; assumption.
Qed.

(** A plain name is read up to the closing brace, and looked up. *)
Lemma scan_name expand (cs acc rest out : list Ascii.ascii) :
  forallb name_char cs = true ->
  scanf expand (cs ++ list_ascii_of_string "}" ++ rest) (Name acc false) out =
  match render_field py_format py_convert py_getattr py_getitem kwargs expand
          (acc ++ cs) None [] false with
  | Failed e => Failed e
  | Done s => scanf expand rest Text (out ++ s)
  end.
Proof.
  revert acc. induction cs as [|c cs IH]; intros acc Hcs.
  - rewrite app_nil_r. reflexivity.
  - cbn [forallb] in Hcs. apply andb_prop in Hcs as [Hc Hcs].
    destruct (name_char_tests c Hc) as (H1 & H2 & H3 & H4 & H5 & H6 & H7).
    cbn [app scan]. rewrite H1, H2, H3, H6, H7.
    rewrite (IH (acc ++ [c]) Hcs). rewrite <- app_assoc. reflexivity.
Qed.

Lemma scan_open_name expand (cs rest out : list Ascii.ascii) :
  forallb name_char cs = true -> cs <> [] ->
  scanf expand (cs ++ list_ascii_of_string "}" ++ rest) Open out =
  match render_field py_format py_convert py_getattr py_getitem kwargs expand cs None [] false with
  | Failed e => Failed e
  | Done s => scanf expand rest Text (out ++ s)
  end.
Proof.
  destruct cs as [|c cs]; [congruence|]. intros Hcs _.
  pose proof Hcs as Hall.
  cbn [forallb] in Hcs. apply andb_prop in Hcs as [Hc Hcs].
  destruct (name_char_tests c Hc) as (H1 & H2 & H3 & H4 & H5 & H6 & H7).
  cbn [app scan]. rewrite H1, H2, H3, H6, H7.
  exact (scan_name expand cs [c] rest out Hcs).
Qed.

Lemma first_part_plain (cs acc : list Ascii.ascii) :
  forallb name_char cs = true -> first_part cs acc = (acc ++ cs, []).
Proof.
  revert acc. induction cs as [|c cs IH]; intros acc Hcs.
  - rewrite app_nil_r. reflexivity.
  - cbn [forallb] in Hcs. apply andb_prop in Hcs as [Hc Hcs].
    destruct (name_char_tests c Hc) as (H1 & H2 & H3 & H4 & H5 & H6 & H7).
    cbn [first_part]. rewrite H5, H3. cbn [orb]. rewrite (IH _ Hcs).
    rewrite <- app_assoc. reflexivity.
Qed.

Lemma get_field_missing (k : string) :
  plain_key k = true -> assoc k kwargs = None ->
  getf (list_ascii_of_string k) = Failed (KeyError k).
Proof.
  unfold plain_key. intros Hk Hmiss. apply andb_prop in Hk as [Hplain Hdig].
  apply negb_true_iff in Hdig. unfold get_field.
  rewrite (first_part_plain _ [] Hplain). cbn [app]. rewrite Hdig.
  unfold text. rewrite string_of_list_ascii_of_string. rewrite Hmiss. reflexivity.
Qed.

Lemma get_field_present (k : string) (v : V) :
  plain_key k = true -> assoc k kwargs = Some v ->
  getf (list_ascii_of_string k) = Done v.
Proof.
  unfold plain_key. intros Hk Hv. apply andb_prop in Hk as [Hplain Hdig].
  apply negb_true_iff in Hdig. unfold get_field.
  rewrite (first_part_plain _ [] Hplain). cbn [app]. rewrite Hdig.
  unfold text. rewrite string_of_list_ascii_of_string. rewrite Hv. reflexivity.
Qed.

Lemma plain_key_nonempty (k : string) :
  plain_key k = true -> list_ascii_of_string k <> [].
Proof.
  unfold plain_key. intros Hk E. rewrite E in Hk. discriminate.
Qed.

(** The first placeholder whose key is missing stops the expansion. *)
Lemma str_format_missing_key (pre k post : string) :
  brace_free pre = true -> plain_key k = true -> assoc k kwargs = None ->
  str_format py_format py_convert py_getattr py_getitem kwargs
             (pre ++ "{" ++ k ++ "}" ++ post)%string
  = Failed (KeyError k).
Proof.
  intros Hpre Hk Hmiss. unfold str_format. cbn [build_string].
  rewrite !list_ascii_of_string_app.
  rewrite (scan_text _ _ _ [] Hpre).
  change (list_ascii_of_string "{") with [Ascii.Ascii true true false true true true true false].
  cbn [app scan is_char Ascii.eqb Bool.eqb andb].
  pose proof Hk as Hk'. unfold plain_key in Hk'. apply andb_prop in Hk' as [Hplain _].
  rewrite (scan_open_name _ _ _ _ Hplain (plain_key_nonempty k Hk)).
  unfold render_field. rewrite (get_field_missing k Hk Hmiss). reflexivity.
Qed.

(** A placeholder whose key is present is replaced by the value as
    [format(value, '')] prints it. *)
Lemma str_format_one_field (pre k post : string) (v : V) (shown : string) :
  brace_free pre = true -> plain_key k = true -> brace_free post = true ->
  assoc k kwargs = Some v -> py_format v "" = Done shown ->
  str_format py_format py_convert py_getattr py_getitem kwargs
             (pre ++ "{" ++ k ++ "}" ++ post)%string
  = Done (pre ++ shown ++ post)%string.
Proof.
  intros Hpre Hk Hpost Hv Hshown. unfold str_format. cbn [build_string].
  rewrite !list_ascii_of_string_app.
  rewrite (scan_text _ _ _ [] Hpre).
  change (list_ascii_of_string "{") with [Ascii.Ascii true true false true true true true false].
  cbn [app scan is_char Ascii.eqb Bool.eqb andb].
  pose proof Hk as Hk'. unfold plain_key in Hk'. apply andb_prop in Hk' as [Hplain _].
  rewrite (scan_open_name _ _ _ _ Hplain (plain_key_nonempty k Hk)).
  unfold render_field. rewrite (get_field_present k v Hk Hv).
  change (text []) with "". rewrite Hshown.
  rewrite <- (app_nil_r (list_ascii_of_string post)).
  rewrite (scan_text _ _ [] _ Hpost). cbn [scan].
  unfold text. rewrite <- (string_of_list_ascii_of_string (pre ++ shown ++ post)%string).
  rewrite !list_ascii_of_string_app. cbn [app]. rewrite <- app_assoc. reflexivity.
Qed.

End FormatFacts.

Section TemplateFacts.

Context {V : Type}.
Variable py_format : V -> string -> formatted string.
Variable py_convert : Ascii.ascii -> V -> formatted V.
Variable py_getattr : V -> string -> formatted V.
Variable py_getitem : V -> string -> formatted V.
Variable yaml_load : string -> res (list (string * page)).
Variable object_dict : list string.
Variable WebElement_dict : list string.
Variable BY_LIST : list string.

Local Abbreviation rendering :=
  (render py_format py_convert py_getattr py_getitem yaml_load
          object_dict WebElement_dict BY_LIST).

(** X22. [render] on a template whose first placeholder names a key
    that the mapping does not have raises [KeyError] with that key; nothing
    is parsed and no object is created. *)
Theorem render_stops_at_a_missing_key :
  forall (depth : nat) (pre k post : string) (mapping : list (string * V))
         (driver0 : option WebDriver) (h : heap),
    brace_free pre = true ->
    plain_key k = true ->
    assoc k mapping = None ->
    rendering depth (pre ++ "{" ++ k ++ "}" ++ post)%string mapping driver0 h
    = (Failed (KeyError k), h).
Proof.
  intros depth pre k post mapping driver0 h Hpre Hk Hmiss. unfold render.
  rewrite (str_format_missing_key _ _ _ _ mapping pre k post Hpre Hk Hmiss). reflexivity.
Qed.

(** X21. [render] on a template with one placeholder, whose key the
    mapping has: the placeholder is replaced by the value as
    [format(value, '')] prints it, and the page is what
    [get_page_with_yaml] gives on the document parsed from the text
    obtained. *)
Theorem render_fills_a_placeholder :
  forall (depth : nat) (pre k post : string) (mapping : list (string * V)) (v : V)
         (shown : string) (driver0 : option WebDriver) (h : heap)
         (page_dict : list (string * page)),
    brace_free pre = true ->
    plain_key k = true ->
    brace_free post = true ->
    assoc k mapping = Some v ->
    py_format v "" = Done shown ->
    yaml_load (pre ++ shown ++ post)%string = Ok page_dict ->
    rendering depth (pre ++ "{" ++ k ++ "}" ++ post)%string mapping driver0 h
    = lift_exn (get_page_with_yaml object_dict WebElement_dict BY_LIST depth
                  page_dict driver0 h).
Proof.
  intros depth pre k post mapping v shown driver0 h page_dict Hpre Hk Hpost Hv Hshown Hload.
  unfold render.
  rewrite (str_format_one_field _ _ _ _ mapping pre k post v shown Hpre Hk Hpost Hv Hshown).
  rewrite Hload. reflexivity.
Qed.

End TemplateFacts.

(** ** The further properties on the sample sessions *)

Lemma no_driver_no_action_witness :
  driver (obj_at (unattached doc_ele_child) 0) = None /\
  find browser_two_items 8 0 "" (unattached doc_ele_child)
  = (Err AttributeError, unattached doc_ele_child) /\
  ele browser_two_items 8 0 (unattached doc_ele_child)
  = (Ok (PObject 1), unattached doc_ele_child) /\
  ele browser_two_items 8 0 (unattached doc_items)
  = (Err AttributeError, unattached doc_items) /\
  click browser_two_items 8 0 (unattached doc_ele_child)
  = (Err AttributeError, unattached doc_ele_child).
Proof.
  pose proof (no_driver_no_action browser_two_items 7 0 "" [] (unattached doc_ele_child)
                (obj_at (unattached doc_ele_child) 0) ltac:(evaluates) ltac:(evaluates))
    as (Hfind & Hele & _).
  pose proof (no_driver_no_action browser_two_items 8 0 "" [] (unattached doc_ele_child)
                (obj_at (unattached doc_ele_child) 0) ltac:(evaluates) ltac:(evaluates))
    as (_ & _ & Hclick & _).
  pose proof (no_driver_no_action browser_two_items 7 0 "" [] (unattached doc_items)
                (obj_at (unattached doc_items) 0) ltac:(evaluates) ltac:(evaluates))
    as (_ & Hnone & _).
  split; [evaluates|]. split; [exact Hfind|]. split; [exact Hele|].
  split; [exact Hnone|exact Hclick].
Defined.

Lemma frame_not_found_stops_the_action_witness :
  frame (obj_at (ready doc_framed_button) 1) = Some 0 /\
  click browser_nothing 8 1 (ready doc_framed_button)
  = (Err NoSuchFrameException, snd (find browser_nothing 8 0 "" (ready doc_framed_button))).
Proof.
  split; [evaluates|].
  exact (proj1
    (frame_not_found_stops_the_action browser_nothing 8 1 0 [] (ready doc_framed_button)
       (snd (find browser_nothing 8 0 "" (ready doc_framed_button)))
       (obj_at (ready doc_framed_button) 1)
       ltac:(evaluates) ltac:(evaluates) ltac:(evaluates) ltac:(evaluates))).
Defined.

Lemma parent_not_found_raises_witness :
  pre_ele (obj_at (ready doc_row_cell) 1) = Some 0 /\
  find browser_nothing 8 1 "" (ready doc_row_cell)
  = (Err NoSuchElementException,
     snd (find browser_nothing 7 0 ""
            (cache_dropped 1 (obj_at (ready doc_row_cell) 1) (ready doc_row_cell)))).
Proof.
  split; [evaluates|].
  exact (parent_not_found_raises browser_nothing 7 1 0 "" (ready doc_row_cell)
           (snd (find browser_nothing 7 0 ""
                   (cache_dropped 1 (obj_at (ready doc_row_cell) 1) (ready doc_row_cell))))
           (obj_at (ready doc_row_cell) 1) (obj_at (ready doc_row_cell) 0)
           ltac:(evaluates) ltac:(evaluates) ltac:(left; evaluates) ltac:(evaluates)
           ltac:(evaluates) ltac:(evaluates) ltac:(evaluates)).
Defined.

Lemma other_failure_propagates_at_once_witness :
  find browser_broken 8 0 "" (ready doc_items)
  = (Err WebDriverException,
     {| objects := objects (cache_dropped 0 (obj_at (ready doc_items) 0) (ready doc_items));
        session := record_event (EFindElements ScopeDriver "css selector" "li")
                     (session (ready doc_items)) |}).
Proof.
  exact (other_failure_propagates_at_once browser_broken 7 0 "" (ready doc_items)
           (cache_dropped 0 (obj_at (ready doc_items) 0) (ready doc_items))
           (obj_at (ready doc_items) 0) "li" ScopeDriver WebDriverException
           ltac:(evaluates) ltac:(evaluates) ltac:(left; evaluates) ltac:(evaluates)
           ltac:(evaluates) ltac:(evaluates) ltac:(evaluates)).
Defined.

Lemma found_list_is_served_again_witness :
  find browser_two_items 8 0 "" (ready doc_items) = (Ok (PElements [10; 11]), items_resolved) /\
  find browser_two_items 8 0 "ele" items_resolved = (Ok (PElements [10; 11]), items_resolved) /\
  (exists o', objects items_resolved !! 0 = Some o' /\ count o' = 2%Z).
Proof.
  split; [evaluates|].
  exact (found_list_is_served_again browser_two_items 7 7 0 "" (ready doc_items)
           items_resolved [10; 11] (obj_at (ready doc_items) 0)
           ltac:(evaluates) ltac:(evaluates) ltac:(evaluates)).
Defined.

Lemma ele_in_range_witness :
  exists e, [10; 11] !! Z.to_nat (order (obj_at items_resolved 0)) = Some e /\
            ele browser_two_items 8 0 (ready doc_items) = (Ok (PElement e), items_resolved).
Proof.
  exact (ele_in_range browser_two_items 8 0 (ready doc_items) items_resolved [10; 11]
           (obj_at items_resolved 0)
           ltac:(evaluates) ltac:(evaluates) ltac:(split; evaluates)).
Defined.

Lemma ele_returns_a_match_witness :
  ele browser_two_items 8 0 (ready doc_items) = (Ok (PElement 10), items_resolved) /\
  (PElement 10 = PNone \/
   (exists e o' l, PElement 10 = PElement e /\ objects items_resolved !! 0 = Some o' /\
                   eles o' = Some l /\ e ∈ l) \/
   (exists c st1, PElement 10 = PObject c /\
                  child_named (objects items_resolved) 0 "ele" = Some c /\
                  ele_getter (find browser_two_items 8) 0 (ready doc_items)
                  = (Err AttributeError, st1) /\
                  ele_getter (find browser_two_items 8) 0 st1
                  = (Err AttributeError, items_resolved))) /\
  ele browser_two_items 8 0 (unattached doc_ele_child)
  = (Ok (PObject 1), unattached doc_ele_child) /\
  (PObject 1 = PNone \/
   (exists e o' l, PObject 1 = PElement e /\
                   objects (unattached doc_ele_child) !! 0 = Some o' /\
                   eles o' = Some l /\ e ∈ l) \/
   (exists c st1, PObject 1 = PObject c /\
                  child_named (objects (unattached doc_ele_child)) 0 "ele" = Some c /\
                  ele_getter (find browser_two_items 8) 0 (unattached doc_ele_child)
                  = (Err AttributeError, st1) /\
                  ele_getter (find browser_two_items 8) 0 st1
                  = (Err AttributeError, unattached doc_ele_child))).
Proof.
  split; [evaluates|]. split.
  - exact (ele_returns_a_match browser_two_items 8 0 (ready doc_items) items_resolved
             (PElement 10) ltac:(evaluates)).
  - split; [evaluates|].
    exact (ele_returns_a_match browser_two_items 8 0 (unattached doc_ele_child)
             (unattached doc_ele_child) (PObject 1) ltac:(evaluates)).
Defined.

(** The getter runs twice.  The row has [order = 1] and a single match:
    the first run of the cell's getter resolves the row, finds no element
    for it and ends in the [AttributeError] of line 230; the second run,
    made by [__getattr__], finds the row in its cache, which answers
    [None], and ends in the [NoSuchElementException] of line 226, which is
    what [cell.ele] raises.  A call of [find] itself raises the
    [AttributeError]. *)
Lemma ele_getter_runs_twice :
  fst (ele_getter (find browser_one_item 8) 1 (ready doc_row_cell)) = Err AttributeError /\
  fst (ele browser_one_item 8 1 (ready doc_row_cell)) = Err NoSuchElementException /\
  fst (find browser_one_item 8 1 "" (ready doc_row_cell)) = Err AttributeError.
Proof. repeat split; evaluates. Qed.

Lemma parent_order_out_of_range_raises_witness :
  order (obj_at (ready doc_row_cell) 0) = 1%Z /\
  find browser_one_item 8 1 "" (ready doc_row_cell)
  = (Err AttributeError,
     snd (find browser_one_item 7 0 ""
            (cache_dropped 1 (obj_at (ready doc_row_cell) 1) (ready doc_row_cell)))).
Proof.
  split; [evaluates|].
  exact (parent_order_out_of_range_raises browser_one_item 7 1 0 "" (ready doc_row_cell)
           (snd (find browser_one_item 7 0 ""
                   (cache_dropped 1 (obj_at (ready doc_row_cell) 1) (ready doc_row_cell))))
           (obj_at (ready doc_row_cell) 1) (obj_at (ready doc_row_cell) 0) [10]
           ltac:(evaluates) ltac:(evaluates) ltac:(left; evaluates) ltac:(evaluates)
           ltac:(evaluates) ltac:(evaluates) ltac:(evaluates) ltac:(evaluates)
           ltac:(evaluates)).
Defined.


Lemma failed_restore_is_tolerated_if_element_gone_witness :
  click browser_restore_fails 8 0 items_resolved
  = (Ok PNone,
     logged items_resolved
       (action_calls browser_restore_fails 0 "item" "click" "" 10 (EClick 10))).
Proof.
  exact (failed_restore_is_tolerated_if_element_gone browser_restore_fails 7 0 items_resolved
           (obj_at items_resolved 0) [10; 11] 10 "item" "" NoSuchElementException
           ltac:(evaluates) ltac:(evaluates) ltac:(evaluates) ltac:(evaluates)
           ltac:(evaluates) ltac:(evaluates) ltac:(evaluates)
           ltac:(intros; reflexivity) ltac:(intros; reflexivity) ltac:(intros; reflexivity)
           ltac:(intros; reflexivity) ltac:(intros; reflexivity)).
Defined.

Lemma constructor_accepts_exactly_witness :
  (exists root h', sample_init doc_frames None None [] = (Ok root, h')) /\
  accepted sample_object_dict sample_WebElement_dict sample_BY_LIST
           "login" (root_page doc_bogus_by) = false.
Proof.
  split.
  - exact (proj2 (constructor_accepts_exactly sample_object_dict sample_WebElement_dict
                    sample_BY_LIST "page" (root_page doc_frames) None None [])
                 ltac:(evaluates)).
  - evaluates.
Defined.

Lemma built_objects_are_validated_witness :
  (exists n, name frames_gk = Some n /\
             str_in n (_INVALID_ELE_NAME sample_object_dict sample_WebElement_dict) = false) /\
  (exists pat, pattern frames_gk = Some pat) /\
  (by_ frames_gk = "css selector" \/ str_in (by_ frames_gk) sample_BY_LIST = true) /\
  eles frames_gk = None /\ last_found frames_gk = 0%Z /\ driver frames_gk = None.
Proof.
  exact (built_objects_are_validated sample_object_dict sample_WebElement_dict sample_BY_LIST
           "page" (root_page doc_frames) 0 frames_heap ltac:(evaluates)
           2 frames_gk ltac:(evaluates)).
Defined.


Lemma child_access_returns_the_child_witness :
  getattr_handler sample_WebElement_dict browser_nothing 8 0 "inner" (ready doc_frames)
  = (Ok (AChild 3), ready doc_frames).
Proof.
  exact (child_access_returns_the_child sample_object_dict sample_WebElement_dict
           sample_BY_LIST "page" (root_page doc_frames) 0 frames_heap browser_nothing 8
           (ready doc_frames) 0 "inner" 3
           ltac:(evaluates) ltac:(evaluates) ltac:(evaluates)).
Defined.

Lemma set_driver_reaches_every_node_witness :
  height (root_page doc_frames) = 3 /\
  set_driver 3 0 (Some Remote) frames_heap
  = (Ok tt, map (set_driver_attr (Some Remote)) frames_heap).
Proof.
  split; [evaluates|].
  exact (set_driver_reaches_every_node sample_object_dict sample_WebElement_dict
           sample_BY_LIST "page" (root_page doc_frames) 0 frames_heap 3 (Some Remote)
           ltac:(evaluates) ltac:(vm_compute; lia)).
Defined.

Lemma get_page_with_yaml_attaches_the_driver_witness :
  get_page_with_yaml sample_object_dict sample_WebElement_dict sample_BY_LIST 8
    doc_frames (Some Remote) []
  = (Ok 0, map (set_driver_attr (Some Remote)) frames_heap).
Proof.
  exact (proj1 (proj2
    (get_page_with_yaml_attaches_the_driver sample_object_dict sample_WebElement_dict
       sample_BY_LIST "page" (root_page doc_frames) 0 frames_heap 8 Remote
       ltac:(evaluates) ltac:(vm_compute; lia)))).
Defined.

Lemma ValueError_only_for_reserved_names_witness :
  sample_init doc_reserved None None [] = (Err ValueError, [DEFAULT_ATTRIBUTE]) /\
  has_reserved sample_object_dict sample_WebElement_dict "click" (root_page doc_reserved) = true.
Proof.
  pose proof (ValueError_only_for_reserved_names sample_object_dict sample_WebElement_dict
                sample_BY_LIST "click" (root_page doc_reserved) [] None None [])
    as [Hraises Honly].
  split.
  - exact (Hraises ltac:(evaluates)).
  - exact (Honly [DEFAULT_ATTRIBUTE] (Hraises ltac:(evaluates))).
Defined.

Lemma action_on_missing_element_raises_witness :
  ele browser_nothing 8 0 (ready doc_items)
  = (Ok PNone, snd (ele browser_nothing 8 0 (ready doc_items))) /\
  click browser_nothing 8 0 (ready doc_items)
  = (Err AttributeError, snd (ele browser_nothing 8 0 (ready doc_items))).
Proof.
  split; [evaluates|].
  exact (proj1
    (action_on_missing_element_raises browser_nothing 8 0 [] (ready doc_items)
       (snd (ele browser_nothing 8 0 (ready doc_items))) (obj_at (ready doc_items) 0)
       ltac:(evaluates) ltac:(evaluates) ltac:(evaluates) ltac:(evaluates))).
Defined.

Lemma repr_raises_KeyError_witness :
  name (obj_at (ready doc_frames) 1) = Some "form" /\
  PageObject_repr sample_WebElement_dict blank_format blank_convert blank_getattr
    blank_getitem frames_heap 1
  = Failed (KeyError "name").
Proof.
  split; [evaluates|].
  apply (repr_raises_KeyError sample_WebElement_dict blank_format blank_convert
           blank_getattr blank_getitem frames_heap 1
           (default DEFAULT_ATTRIBUTE (frames_heap !! 1)) "form").
  - evaluates.
  - evaluates.
  - intros p Hp. exists (default DEFAULT_ATTRIBUTE (frames_heap !! 0)), "page".
    vm_compute in Hp. injection Hp as <-. split; evaluates.
Defined.

Lemma render_fills_a_placeholder_witness :
  sample_render 8 (items_yaml "{selector}") [("selector", "li")] (Some Remote) []
  = (Done 0, objects (ready doc_items)).
Proof.
  exact (render_fills_a_placeholder text_format text_convert text_getattr text_getitem
           sample_yaml_load sample_object_dict sample_WebElement_dict sample_BY_LIST
           8 (items_yaml "") "selector" "" [("selector", "li")] "li" "li" (Some Remote) []
           doc_items
           ltac:(evaluates) ltac:(evaluates) ltac:(evaluates) ltac:(evaluates)
           ltac:(evaluates) ltac:(evaluates)).
Defined.

Lemma render_stops_at_a_missing_key_witness :
  sample_render 8 (items_yaml "{selector}") [("pattern", "li")] (Some Remote) []
  = (Failed (KeyError "selector"), []).
Proof.
  exact (render_stops_at_a_missing_key text_format text_convert text_getattr text_getitem
           sample_yaml_load sample_object_dict sample_WebElement_dict sample_BY_LIST
           8 (items_yaml "") "selector" "" [("pattern", "li")] (Some Remote) []
           ltac:(evaluates) ltac:(evaluates) ltac:(evaluates)).
Defined.

Lemma frame_is_ancestor_witness :
  sample_init doc_frames None None [] = (Ok 0, frames_heap) /\
  (exists ro, frames_heap !! 0 = Some ro /\ pre_ele ro = None /\ frame ro = None) /\
  (exists p po c oc,
     node_at frames_heap 0 ["form"] = Some p /\ frames_heap !! p = Some po /\
     name po = Some "form" /\ is_frame po = false /\
     node_at frames_heap 0 ["form"; "user"] = Some c /\
     child_named frames_heap p "user" = Some c /\
     frames_heap !! c = Some oc /\ name oc = Some "user" /\
     pre_ele oc = Some p /\
     frame oc = (if is_frame po then Some p else frame po)) /\
  (exists p po c oc,
     node_at frames_heap 0 ["inner"] = Some p /\ frames_heap !! p = Some po /\
     name po = Some "inner" /\ is_frame po = true /\
     node_at frames_heap 0 ["inner"; "ok"] = Some c /\
     child_named frames_heap p "ok" = Some c /\
     frames_heap !! c = Some oc /\ name oc = Some "ok" /\
     pre_ele oc = Some p /\
     frame oc = (if is_frame po then Some p else frame po)) /\
  frame frames_gk = Some 0 /\
  frame_inherited frames_heap frames_gk /\
  (forall f, frame frames_gk = Some f -> ancestor_or_self frames_heap 2 f).
Proof.
  pose proof (frame_is_ancestor sample_object_dict sample_WebElement_dict sample_BY_LIST
                doc_frames 0 frames_heap ltac:(evaluates)) as (Hroot & Hlinks & Hall).
  split; [evaluates|]. split; [exact Hroot|].
  split; [exact (Hlinks ["form"] "user" "form" "user" _ _ eq_refl eq_refl)|].
  split; [exact (Hlinks ["inner"] "ok" "inner" "ok" _ _ eq_refl eq_refl)|].
  split; [evaluates|]. exact (Hall 2 frames_gk ltac:(evaluates)).
Defined.

Lemma PageObject_init_first_entry_only_witness :
  sample_init doc_two_entries None None [] = sample_init doc_items None None [] /\
  exists root h' o,
    sample_init doc_two_entries None None [] = (Ok root, h') /\
    h' = [] ++ layout "item" (root_page doc_items) None None 0 /\
    h' !! root = Some o /\ name o = Some "item" /\ pre_ele o = None /\ frame o = None /\
    forall path,
      match descend "item" (root_page doc_items) path with
      | Some (n, pg') =>
          exists r o', node_at h' root path = Some r /\ h' !! r = Some o' /\
                       name o' = Some n /\
                       same_settings o' (merge_page pg' DEFAULT_ATTRIBUTE)
      | None => node_at h' root path = None
      end.
Proof.
  pose proof (PageObject_init_first_entry_only sample_object_dict sample_WebElement_dict
                sample_BY_LIST "item" (root_page doc_items) ("login", leaf None (Some "id"))
                [] None None []) as [Hsame Hbuilt].
  split; [exact Hsame|]. exact (Hbuilt ltac:(evaluates)).
Defined.
